(** * pore: depot mirroring primitives and top-level error reporting

    A shallow embedding of [src/src/depot.rs] (Depot) and of the parts of
    [src/src/main.rs] used by the claims ([parse_target], the prefix of
    [cmd_clone], the final [match result] of [main]).

    The effects of the Rust code are modelled with a state/error monad over a
    [World]: a filesystem (a finite map from resolved path components to
    nodes), the metadata of the git repositories libgit2 manages, and a log of
    every I/O call the code performs.  The collaborators outside this
    repository (libgit2 fetching, the external [git] binary, revision
    resolution, the post-scheme part of [url::Url::parse]) are fields of an
    environment record [Env], so every theorem holds for all of their
    behaviours. *)

From Stdlib Require Import Ascii.
From stdpp Require Import base list gmap strings pretty.



(* ------------------------------------------------------------------ *)
(** ** Strings and paths *)

Definition slash : ascii := "/"%char.

(** [str::split('/')]: ["" -> [""]], ["a/" -> ["a"; ""]]. *)
Fixpoint split_on (c : ascii) (s : string) : list string :=
  match s with
  | EmptyString => [""]
  | String a r =>
      let rest := split_on c r in
      if bool_decide (a = c) then "" :: rest
      else match rest with
           | h :: t => String a h :: t
           | [] => [String a ""]
           end
  end.

(** [str::starts_with('/')] *)
Definition starts_with_slash (s : string) : bool :=
  match s with
  | String a _ => bool_decide (a = slash)
  | EmptyString => false
  end.

(** [str::ends_with('/')] *)
Fixpoint ends_with_slash (s : string) : bool :=
  match s with
  | EmptyString => false
  | String a EmptyString => bool_decide (a = slash)
  | String _ r => ends_with_slash r
  end.

(** [PathBuf::push] / [Path::join] on Unix: an absolute argument replaces the
    path; otherwise a separator is inserted unless the path is empty or
    already ends with one. *)
Definition path_join (a b : string) : string :=
  if starts_with_slash b then b
  else if bool_decide (a = "") then b
  else if ends_with_slash a then a +:+ b
  else a +:+ "/" +:+ b.

(** Path resolution by the operating system, without symbolic links:
    empty and ["."] components are dropped, [".."] goes to the parent. *)
Fixpoint norm (acc : list string) (cs : list string) : list string :=
  match cs with
  | [] => acc
  | c :: r =>
      if bool_decide (c = "" \/ c = ".") then norm acc r
      else if bool_decide (c = "..") then norm (removelast acc) r
      else norm (acc ++ [c]) r
  end.

Definition resolve (cwd : list string) (p : string) : list string :=
  norm (if starts_with_slash p then [] else cwd) (split_on slash p).

(** [format!("{:?}", path)] *)
Definition quote : string := String (ascii_of_nat 34) EmptyString.
Definition dbg (p : string) : string := quote +:+ p +:+ quote.

(* ------------------------------------------------------------------ *)
(** ** Errors: [failure::Error] *)

(** A failure: its display message and the failure it wraps ([Fail::cause]).
    [ensure!], [bail!] and [format_err!] build a message without cause
    ([ErrMsg]); [.context(msg)] wraps the underlying failure ([Context]). An
    [std::io::Error] or a library error converted by [?] has no cause either. *)
Inductive Failure :=
| ErrMsg (msg : string)
| Context (msg : string) (inner : Failure).

Inductive Result (A : Type) :=
| Ok (a : A)
| Err (e : Failure).
Arguments Ok {A} a.
Arguments Err {A} e.

(** [Display] of a failure. *)
Definition fail_msg (f : Failure) : string :=
  match f with ErrMsg m | Context m _ => m end.

(** [Fail::cause] *)
Definition fail_cause (f : Failure) : option Failure :=
  match f with ErrMsg _ => None | Context _ i => Some i end.

(** [Fail::find_root_cause]: follow [cause] to the innermost failure. *)
Fixpoint find_root_cause (f : Failure) : Failure :=
  match f with
  | ErrMsg _ => f
  | Context _ i => find_root_cause i
  end.

(* ------------------------------------------------------------------ *)
(** ** The world the code acts on *)

(** A filesystem node; file contents are their bytes. *)
Inductive Node :=
| NFile (contents : string)
| NDir.

#[global] Instance Node_eq_dec : EqDecision Node.
Proof. solve_decision. Defined.

(** A filesystem: resolved path (list of components, from the root) to node. *)
Abbreviation FS := (gmap (list string) Node).

Definition Commit := string.

Inductive Head :=
| HeadBranch (refname : string)
| HeadDetached (c : Commit).

(** A remote of a repository: fetch URL and push URL. *)
Record Remote := { rem_url : string; rem_pushurl : option string }.

(** What libgit2 records about a repository (its config and HEAD) and the
    commit whose tree was last checked out into its working directory. *)
Record Repo := {
  r_bare : bool;
  r_remotes : gmap string Remote;
  r_head : Head;
  r_checkout : option Commit
}.

(** [git2::AutotagOption] and [git2::FetchPrune] *)
Inductive AutotagOption := AutotagUnspecified | AutotagAuto | AutotagNone | AutotagAll.
Inductive FetchPrune := PruneUnspecified | PruneOn | PruneOff.

(** [git2::FetchOptions] *)
Record FetchOptions := {
  fo_prune : FetchPrune;
  fo_update_fetchhead : bool;
  fo_download_tags : AutotagOption
}.

(** [git2::FetchOptions::new()] *)
Definition fetch_options_new : FetchOptions :=
  {| fo_prune := PruneUnspecified; fo_update_fetchhead := true;
     fo_download_tags := AutotagUnspecified |}.

(** Every I/O call the code makes, as it makes it. *)
Inductive Action :=
| AExists (p : string)
| ARemoveDirAll (p : string)
| ACreateDirAll (p : string)
| AReadDir (p : string)
| ACopy (from to : string)
| AWrite (p : string) (contents : string)
| AOpenBare (p : string)
| AOpen (p : string)
| AInitBare (p : string)
| AInit (p : string)
| AFindRemote (repo : string) (name : string)
| ARemoteSetUrl (repo : string) (name url : string)
| ARemoteCreate (repo : string) (name url : string)
| ARemoteSetPushurl (repo : string) (name url : string)
| AFetchNative (repo : string) (name : string) (refspecs : list string) (opts : FetchOptions)
| ASpawn (program : string) (args : list string)
| AParseRevision (repo : string) (remote branch : string)
| ACheckoutTree (repo : string) (c : Commit)
| ASetHeadDetached (repo : string) (c : Commit).

Record World := {
  w_cwd : list string;
  w_fs : FS;
  w_repos : gmap (list string) Repo;
  w_log : list Action
}.

(** Output of [std::process::Command::output]. *)
Record Output := { out_success : bool; out_stderr : string }.

(** The collaborators outside this repository. *)
Record Env := {
  (** [git2::Remote::fetch] on the repository at the given path: its result
      and the filesystem after it. *)
  env_fetch : World -> string -> string -> list string -> FetchOptions -> Result unit * FS;
  (** running the [git] binary with the given arguments: [Err] when it cannot
      be spawned, otherwise its output; and the filesystem after it. *)
  env_git : World -> list string -> Result Output * FS;
  (** [url::Url::parse] once the scheme (first argument) is read: [None] when
      the remainder (second argument) parses, [Some msg] otherwise. *)
  env_url_rest : string -> string -> option string;
  (** [util::parse_revision(repo, remote, branch)] *)
  env_parse_revision : World -> string -> string -> string -> Result Commit
}.

(* ------------------------------------------------------------------ *)
(** ** The state and error monad *)

Definition M (A : Type) := World -> Result A * World.

Definition ret {A} (a : A) : M A := fun w => (Ok a, w).

Definition bind {A B} (m : M A) (k : A -> M B) : M B :=
  fun w => match m w with
           | (Ok a, w') => k a w'
           | (Err e, w') => (Err e, w')
           end.

Notation "x <- m ;; k" := (bind m (fun x => k))
  (at level 100, m at next level, right associativity).
Notation "m ;;; k" := (bind m (fun _ => k))
  (at level 100, right associativity).

Definition throw {A} (e : Failure) : M A := fun w => (Err e, w).

(** [ensure!(cond, msg)] *)
Definition ensure (b : bool) (msg : string) : M unit :=
  if b then ret tt else throw (ErrMsg msg).

(** [.context(msg)?] *)
Definition context {A} (msg : string) (m : M A) : M A :=
  fun w => match m w with
           | (Err e, w') => (Err (Context msg e), w')
           | r => r
           end.

Definition log_action (a : Action) (w : World) : World :=
  {| w_cwd := w_cwd w; w_fs := w_fs w; w_repos := w_repos w; w_log := w_log w ++ [a] |}.

Definition set_fs (fs : FS) (w : World) : World :=
  {| w_cwd := w_cwd w; w_fs := fs; w_repos := w_repos w; w_log := w_log w |}.

Definition set_repos (rs : gmap (list string) Repo) (w : World) : World :=
  {| w_cwd := w_cwd w; w_fs := w_fs w; w_repos := rs; w_log := w_log w |}.

(* ------------------------------------------------------------------ *)
(** ** [std::fs] and [std::path] *)

(** The root always exists, as a directory. *)
Definition lookup_node (fs : FS) (k : list string) : option Node :=
  match k with [] => Some NDir | _ => fs !! k end.

(** The resolved path of a [Path]; the empty path names no file. *)
Definition key_of (w : World) (p : string) : option (list string) :=
  if bool_decide (p = "") then None else Some (resolve (w_cwd w) p).

Definition enoent : Failure := ErrMsg "No such file or directory (os error 2)".

(** [Path::exists] *)
Definition fs_exists (p : string) : M bool := fun w =>
  let w := log_action (AExists p) w in
  match key_of w p with
  | Some k => (Ok (bool_decide (is_Some (lookup_node (w_fs w) k))), w)
  | None => (Ok false, w)
  end.

(** Everything at or below [k] removed. *)
Definition remove_tree (k : list string) (fs : FS) : FS :=
  filter (fun kv => ~ k `prefix_of` kv.1) fs.

(** [std::fs::remove_dir_all] *)
Definition remove_dir_all (p : string) : M unit := fun w =>
  let w := log_action (ARemoveDirAll p) w in
  match key_of w p with
  | Some k =>
      match lookup_node (w_fs w) k with
      | Some NDir => (Ok tt, set_fs (remove_tree k (w_fs w)) w)
      | Some (NFile _) => (Err (ErrMsg "Not a directory (os error 20)"), w)
      | None => (Err enoent, w)
      end
  | None => (Err enoent, w)
  end.

(** Create the directories [pre ++ c1], [pre ++ c1 ++ c2], ... in turn. *)
Fixpoint mkdirs (pre rest : list string) (fs : FS) : option FS :=
  match rest with
  | [] => Some fs
  | c :: r =>
      let q := pre ++ [c] in
      match fs !! q with
      | Some (NFile _) => None
      | Some NDir => mkdirs q r fs
      | None => mkdirs q r (<[q := NDir]> fs)
      end
  end.

(** [std::fs::create_dir_all]: the empty path is accepted as it is. *)
Definition create_dir_all (p : string) : M unit := fun w =>
  let w := log_action (ACreateDirAll p) w in
  match key_of w p with
  | Some k =>
      match mkdirs [] k (w_fs w) with
      | Some fs' => (Ok tt, set_fs fs' w)
      | None => (Err (ErrMsg "File exists (os error 17)"), w)
      end
  | None => (Ok tt, w)
  end.

Fixpoint strip_prefix (k k' : list string) : option (list string) :=
  match k, k' with
  | [], _ => Some k'
  | a :: r, b :: r' => if bool_decide (a = b) then strip_prefix r r' else None
  | _ :: _, [] => None
  end.

Definition child_name (k k' : list string) : option string :=
  match strip_prefix k k' with Some [n] => Some n | _ => None end.

(** Names of the direct entries of the directory [k]. *)
Definition children (k : list string) (fs : FS) : list string :=
  omap (fun kv => child_name k kv.1) (map_to_list fs).

(** [std::fs::DirEntry]: [entry.path()] and [entry.file_name()]. *)
Record DirEntry := { de_path : string; de_name : string }.

(** [std::fs::read_dir]; the order of the entries is the platform's, here
    the order of the map. *)
Definition read_dir (p : string) : M (list DirEntry) := fun w =>
  let w := log_action (AReadDir p) w in
  match key_of w p with
  | Some k =>
      match lookup_node (w_fs w) k with
      | Some NDir =>
          (Ok (map (fun n => {| de_path := path_join p n; de_name := n |})
                   (children k (w_fs w))), w)
      | Some (NFile _) => (Err (ErrMsg "Not a directory (os error 20)"), w)
      | None => (Err enoent, w)
      end
  | None => (Err enoent, w)
  end.

(** A file can be created at [k]: its parent is a directory and [k] is not. *)
Definition can_create (fs : FS) (k : list string) : bool :=
  match k with
  | [] => false
  | _ => bool_decide (lookup_node fs (removelast k) = Some NDir)
         && negb (bool_decide (lookup_node fs k = Some NDir))
  end.

(** [std::fs::copy]: the source must be a regular file. *)
Definition fs_copy (from to : string) : M unit := fun w =>
  let w := log_action (ACopy from to) w in
  match key_of w from, key_of w to with
  | Some kf, Some kt =>
      match lookup_node (w_fs w) kf with
      | Some (NFile c) =>
          if can_create (w_fs w) kt then (Ok tt, set_fs (<[kt := NFile c]> (w_fs w)) w)
          else (Err (ErrMsg "cannot create destination file"), w)
      | Some NDir =>
          (Err (ErrMsg "the source path is neither a regular file nor a symlink to a regular file"), w)
      | None => (Err enoent, w)
      end
  | _, _ => (Err enoent, w)
  end.

(** [std::fs::write] *)
Definition fs_write (p : string) (c : string) : M unit := fun w =>
  let w := log_action (AWrite p c) w in
  match key_of w p with
  | Some k =>
      if can_create (w_fs w) k then (Ok tt, set_fs (<[k := NFile c]> (w_fs w)) w)
      else (Err (ErrMsg "cannot create file"), w)
  | None => (Err enoent, w)
  end.

(* ------------------------------------------------------------------ *)
(** ** [Depot::replace_dir] *)

(** The loop [for entry in entries { std::fs::copy(...) }]. *)
Fixpoint copy_entries (dst : string) (entries : list DirEntry) : M unit :=
  match entries with
  | [] => ret tt
  | e :: rest =>
      context ("failed to copy " +:+ dbg (de_path e) +:+ " to " +:+ dbg dst)
        (fs_copy (de_path e) (path_join dst (de_name e))) ;;;
      copy_entries dst rest
  end.

Definition replace_dir (src dst : string) : M unit :=
  src_exists <- fs_exists src ;;
  ensure src_exists ("attempted to replace " +:+ dbg dst +:+
                     " with nonexistent directory " +:+ dbg src) ;;;
  dst_exists <- fs_exists dst ;;
  (if dst_exists
   then context ("failed to delete " +:+ dbg dst) (remove_dir_all dst)
   else ret tt) ;;;
  context ("failed to create directory " +:+ dbg dst) (create_dir_all dst) ;;;
  entries <- context ("failed to read directory " +:+ dbg src) (read_dir src) ;;
  copy_entries dst entries.

(* ------------------------------------------------------------------ *)
(** ** [git2::Repository] *)

(** A repository handle: the path it was opened or created at. *)
Definition RepoHandle := string.

(** The repository record libgit2 starts a new repository with. *)
Definition fresh_repo (bare : bool) : Repo :=
  {| r_bare := bare; r_remotes := ∅; r_head := HeadBranch "refs/heads/master";
     r_checkout := None |}.

(** The directories [git init] lays out in a git directory. *)
Definition git_layout : list (list string) :=
  [["objects"; "info"]; ["objects"; "pack"]; ["refs"; "heads"]; ["refs"; "tags"]].

Fixpoint mkdirs_all (ks : list (list string)) (fs : FS) : option FS :=
  match ks with
  | [] => Some fs
  | k :: rest => match mkdirs [] k fs with
                 | Some fs' => mkdirs_all rest fs'
                 | None => None
                 end
  end.

(** [Repository::init_bare] and [Repository::init]: lay out the git directory
    ([p], or [p/.git] for a working repository) and register the repository;
    initialising an existing repository keeps what it records. *)
Definition repo_init (bare : bool) (p : string) : M RepoHandle := fun w =>
  let w := log_action (if bare then AInitBare p else AInit p) w in
  match key_of w p with
  | Some k =>
      let gitdir := if bare then k else k ++ [".git"] in
      match mkdirs_all (map (fun sub => gitdir ++ sub) git_layout) (w_fs w) with
      | Some fs' =>
          let rs := match w_repos w !! k with
                    | Some _ => w_repos w
                    | None => <[k := fresh_repo bare]> (w_repos w)
                    end in
          (Ok p, set_repos rs (set_fs fs' w))
      | None => (Err (ErrMsg "failed to make directory"), w)
      end
  | None => (Err (ErrMsg "could not create repository at empty path"), w)
  end.

Definition init_bare (p : string) : M RepoHandle := repo_init true p.
Definition init (p : string) : M RepoHandle := repo_init false p.

(** [Repository::open_bare] (only a bare repository) and [Repository::open]. *)
Definition repo_open (only_bare : bool) (p : string) : M RepoHandle := fun w =>
  let w := log_action (if only_bare then AOpenBare p else AOpen p) w in
  match key_of w p with
  | Some k =>
      match w_repos w !! k with
      | Some r => if only_bare && negb (r_bare r)
                  then (Err (ErrMsg "could not find repository"), w)
                  else (Ok p, w)
      | None => (Err (ErrMsg "could not find repository"), w)
      end
  | None => (Err (ErrMsg "could not find repository"), w)
  end.

Definition open_bare (p : string) : M RepoHandle := repo_open true p.
Definition open (p : string) : M RepoHandle := repo_open false p.

(** The repository a handle names, if any. *)
Definition get_repo (w : World) (repo : RepoHandle) : option Repo :=
  match key_of w repo with Some k => w_repos w !! k | None => None end.

(** Change what a repository records; fails on an unknown repository. *)
Definition modify_repo (repo : RepoHandle) (f : Repo -> Result Repo) : M unit := fun w =>
  match key_of w repo with
  | Some k =>
      match w_repos w !! k with
      | Some r => match f r with
                  | Ok r' => (Ok tt, set_repos (<[k := r']> (w_repos w)) w)
                  | Err e => (Err e, w)
                  end
      | None => (Err (ErrMsg "could not find repository"), w)
      end
  | None => (Err (ErrMsg "could not find repository"), w)
  end.

Definition with_remotes (r : Repo) (rs : gmap string Remote) : Repo :=
  {| r_bare := r_bare r; r_remotes := rs; r_head := r_head r; r_checkout := r_checkout r |}.

(** [Repository::find_remote] *)
Definition find_remote (repo : RepoHandle) (name : string) : M unit := fun w =>
  let w := log_action (AFindRemote repo name) w in
  match get_repo w repo with
  | Some r => match r_remotes r !! name with
              | Some _ => (Ok tt, w)
              | None => (Err (ErrMsg ("remote '" +:+ name +:+ "' does not exist")), w)
              end
  | None => (Err (ErrMsg "could not find repository"), w)
  end.

(** [Repository::remote_set_url]: writes [remote.<name>.url]. *)
Definition remote_set_url (repo : RepoHandle) (name url : string) : M unit := fun w =>
  let w := log_action (ARemoteSetUrl repo name url) w in
  modify_repo repo (fun r =>
    let pu := match r_remotes r !! name with Some rm => rem_pushurl rm | None => None end in
    Ok (with_remotes r (<[name := {| rem_url := url; rem_pushurl := pu |}]> (r_remotes r)))) w.

(** [Repository::remote]: creates a remote; fails if it exists. *)
Definition remote_create (repo : RepoHandle) (name url : string) : M unit := fun w =>
  let w := log_action (ARemoteCreate repo name url) w in
  modify_repo repo (fun r =>
    match r_remotes r !! name with
    | Some _ => Err (ErrMsg ("remote '" +:+ name +:+ "' already exists"))
    | None => Ok (with_remotes r (<[name := {| rem_url := url; rem_pushurl := None |}]> (r_remotes r)))
    end) w.

(** [Repository::remote_set_pushurl(name, Some(url))]: writes [remote.<name>.pushurl]. *)
Definition remote_set_pushurl (repo : RepoHandle) (name url : string) : M unit := fun w =>
  let w := log_action (ARemoteSetPushurl repo name url) w in
  modify_repo repo (fun r =>
    let u := match r_remotes r !! name with Some rm => rem_url rm | None => "" end in
    Ok (with_remotes r (<[name := {| rem_url := u; rem_pushurl := Some url |}]> (r_remotes r)))) w.

(** [Repository::checkout_tree] *)
Definition checkout_tree (repo : RepoHandle) (c : Commit) : M unit := fun w =>
  let w := log_action (ACheckoutTree repo c) w in
  modify_repo repo (fun r =>
    Ok {| r_bare := r_bare r; r_remotes := r_remotes r; r_head := r_head r; r_checkout := Some c |}) w.

(** [Repository::set_head_detached] *)
Definition set_head_detached (repo : RepoHandle) (c : Commit) : M unit := fun w =>
  let w := log_action (ASetHeadDetached repo c) w in
  modify_repo repo (fun r =>
    Ok {| r_bare := r_bare r; r_remotes := r_remotes r; r_head := HeadDetached c;
          r_checkout := r_checkout r |}) w.

Section Collaborators.
Variable E : Env.

(** [Remote::fetch(refspecs, Some(opts), None)] *)
Definition remote_fetch (repo : RepoHandle) (name : string) (refspecs : list string)
    (opts : FetchOptions) : M unit := fun w =>
  let w := log_action (AFetchNative repo name refspecs opts) w in
  let '(r, fs') := env_fetch E w repo name refspecs opts in
  (r, set_fs fs' w).

(** [Command::new("git").args(args).output()] *)
Definition git_output (args : list string) : M Output := fun w =>
  let w := log_action (ASpawn "git" args) w in
  let '(r, fs') := env_git E w args in
  (r, set_fs fs' w).

(** [util::parse_revision] *)
Definition parse_revision (repo : RepoHandle) (remote branch : string) : M Commit := fun w =>
  let w := log_action (AParseRevision repo remote branch) w in
  (env_parse_revision E w repo remote branch, w).

End Collaborators.

(* ------------------------------------------------------------------ *)
(** ** [url::Url::parse]: the scheme *)

Definition is_alpha (a : ascii) : bool :=
  let n := nat_of_ascii a in (Nat.leb 65 n && Nat.leb n 90) || (Nat.leb 97 n && Nat.leb n 122).
Definition is_digit (a : ascii) : bool :=
  let n := nat_of_ascii a in Nat.leb 48 n && Nat.leb n 57.
Definition is_scheme_char (a : ascii) : bool :=
  is_alpha a || is_digit a || bool_decide (a = "+"%char) || bool_decide (a = "-"%char)
  || bool_decide (a = "."%char).
Definition to_lower (a : ascii) : ascii :=
  let n := nat_of_ascii a in
  if Nat.leb 65 n && Nat.leb n 90 then ascii_of_nat (n + 32) else a.

(** Leading and trailing C0 controls and spaces are trimmed; tabs and
    newlines are removed everywhere. *)
Fixpoint remove_tab_newline (s : string) : string :=
  match s with
  | EmptyString => EmptyString
  | String a r =>
      let n := nat_of_ascii a in
      if bool_decide (n = 9 \/ n = 10 \/ n = 13) then remove_tab_newline r
      else String a (remove_tab_newline r)
  end.
Fixpoint trim_start (s : string) : string :=
  match s with
  | String a r => if Nat.leb (nat_of_ascii a) 32 then trim_start r else s
  | EmptyString => EmptyString
  end.
Definition trim (s : string) : string :=
  String.rev (trim_start (String.rev (trim_start s))).

(** The scheme state: scheme characters up to [':'], lowercased, and the
    rest after [':']; [None] when the input does not start that way. *)
Fixpoint scheme_state (s : string) : option (string * string) :=
  match s with
  | EmptyString => None
  | String a r =>
      if bool_decide (a = ":"%char) then Some (EmptyString, r)
      else if is_scheme_char a then
        match scheme_state r with
        | Some (sch, rest) => Some (String (to_lower a) sch, rest)
        | None => None
        end
      else None
  end.

(** The scheme start state: an ASCII letter, then the scheme state. *)
Definition scheme_of (s : string) : option (string * string) :=
  match s with
  | String a r =>
      if is_alpha a then
        match scheme_state r with
        | Some (sch, rest) => Some (String (to_lower a) sch, rest)
        | None => None
        end
      else None
  | EmptyString => None
  end.

Record Url := { url_scheme : string; url_rest : string }.

(** [Url::parse] (no base URL): without a scheme the input is a relative URL,
    which has no base to resolve against. *)
Definition url_parse (E : Env) (input : string) : Result Url :=
  match scheme_of (trim (remove_tab_newline input)) with
  | None => Err (ErrMsg "relative URL without a base")
  | Some (sch, rest) =>
      match env_url_rest E sch rest with
      | None => Ok {| url_scheme := sch; url_rest := rest |}
      | Some m => Err (ErrMsg m)
      end
  end.

Definition lift {A} (r : Result A) : M A := fun w => (r, w).

(* ------------------------------------------------------------------ *)
(** ** [Depot] *)

Record Depot := { depot_name : string; depot_path : string }.

(** [config::RemoteConfig] *)
Record RemoteConfig := { rc_name : string; rc_url : string; rc_depot : string }.

Definition newline : string := String (ascii_of_nat 10) EmptyString.

(** [Depot::open_or_create_bare_repo] *)
Definition open_or_create_bare_repo (path : string) : M RepoHandle := fun w =>
  match open_bare path w with
  | (Ok repo, w') => (Ok repo, w')
  | (Err _, w') => context "failed to create repository" (init_bare path) w'
  end.

(** [Depot::clone_alternates] *)
Definition clone_alternates (src dst : string) (bare : bool) : M RepoHandle :=
  repo <- context ("failed to create repository at " +:+ dbg dst)
            (if bare then init_bare dst else init dst) ;;
  let git_path := if bare then dst else path_join dst ".git" in
  let alternates_path := path_join (path_join (path_join git_path "objects") "info") "alternates" in
  let source_path := path_join src "objects" in
  let alternates_contents := source_path +:+ newline in
  context ("failed to set alternates for new repository " +:+ dbg dst)
    (fs_write alternates_path alternates_contents) ;;;
  ret repo.

(** [Depot::git_path] *)
Definition git_path (path : string) : M string :=
  let nonbare := path_join path ".git" in
  e <- fs_exists nonbare ;;
  ret (if e then nonbare else path).

(** [Depot::objects_mirror] *)
Definition objects_mirror (d : Depot) (project : string) : string :=
  let repo_name := project +:+ ".git" in
  path_join (path_join (depot_path d) "objects") repo_name.

(** [Depot::refs_mirror] *)
Definition refs_mirror (d : Depot) (remote project : string) : string :=
  let repo_name := project +:+ ".git" in
  path_join (path_join (path_join (depot_path d) "refs") remote) repo_name.

(** The project validation at the top of [Depot::fetch_repo]. *)
Definition validate_project (project : string) : M unit :=
  ensure (negb (starts_with_slash project)) ("invalid project path " +:+ project) ;;;
  ensure (negb (ends_with_slash project)) ("invalid project path " +:+ project).

(** [scheme == "git" || scheme == "https" || scheme == "http" || scheme == "ssh" || scheme == ""] *)
Definition scheme_supported (scheme : string) : bool :=
  bool_decide (scheme = "git") || bool_decide (scheme = "https") || bool_decide (scheme = "http")
  || bool_decide (scheme = "ssh") || bool_decide (scheme = "").

(** The fetch options of the native path. *)
Definition native_fetch_options : FetchOptions :=
  {| fo_prune := PruneOff; fo_update_fetchhead := true; fo_download_tags := AutotagNone |}.

(** The arguments of the external [git fetch]. *)
Definition git_fetch_args (objects_path remote branch : string) (depth : option Z) : list string :=
  ["-C"; objects_path; "fetch"; remote; branch; "--no-tags"]
  ++ match depth with Some n => ["--depth"; pretty n] | None => [] end.

Section Depot_ops.
Variable E : Env.
Variable self : Depot.

(** [Depot::fetch_repo] *)
Definition fetch_repo (remote_config : RemoteConfig) (project branch : string)
    (depth : option Z) : M unit :=
  ensure (negb (starts_with_slash project)) ("invalid project path " +:+ project) ;;;
  ensure (negb (ends_with_slash project)) ("invalid project path " +:+ project) ;;;
  let objects_path := objects_mirror self project in
  let repo_url := rc_url remote_config +:+ project +:+ ".git" in
  objects_repo <- open_or_create_bare_repo objects_path ;;
  (fun w => match find_remote objects_repo (rc_name remote_config) w with
            | (Ok _, w') =>
                (remote_set_url objects_repo (rc_name remote_config) repo_url ;;;
                 find_remote objects_repo (rc_name remote_config)) w'
            | (Err _, w') =>
                context "failed to create remote"
                  (remote_create objects_repo (rc_name remote_config) repo_url) w'
            end) ;;;
  parsed_url <- lift (url_parse E repo_url) ;;
  let scheme := url_scheme parsed_url in
  let use_git2 := scheme_supported scheme && bool_decide (depth = None) in
  (if use_git2 then
     let fetch_opts := native_fetch_options in
     context "failed to fetch"
       (remote_fetch E objects_repo (rc_name remote_config) [branch] fetch_opts)
   else
     git_output_ <- context "failed to spawn git fetch"
       (git_output E (git_fetch_args objects_path (rc_name remote_config) branch depth)) ;;
     if out_success git_output_ then ret tt
     else throw (ErrMsg ("git fetch failed: " +:+ out_stderr git_output_))) ;;;
  let refs_path := refs_mirror self (rc_name remote_config) project in
  (fun w => match open refs_path w with
            | (Ok repo, w') => (Ok repo, w')
            | (Err _, w') => clone_alternates objects_path refs_path true w'
            end) ;;;
  let objects_refs :=
    path_join (path_join (path_join objects_path "refs") "remotes") (rc_name remote_config) in
  let refs_refs := path_join (path_join refs_path "refs") "heads" in
  replace_dir objects_refs refs_refs.

(** [Depot::update_remote_refs] *)
Definition update_remote_refs (remote_config : RemoteConfig) (project path : string) : M unit :=
  let mirror_refs :=
    path_join (path_join (refs_mirror self (rc_name remote_config) project) "refs") "heads" in
  gp <- git_path path ;;
  let repo_refs := path_join (path_join (path_join gp "refs") "remotes") (rc_name remote_config) in
  replace_dir mirror_refs repo_refs.

(** [Depot::clone_repo] *)
Definition clone_repo (remote_config : RemoteConfig) (project branch path : string) : M unit :=
  repo <- clone_alternates (objects_mirror self project) path false ;;
  context "failed to create remote"
    (remote_create repo (rc_name remote_config)
       (refs_mirror self (rc_name remote_config) project)) ;;;
  context "failed to set remote pushurl"
    (remote_set_pushurl repo (rc_name remote_config) (rc_url remote_config +:+ project)) ;;;
  update_remote_refs remote_config project path ;;;
  head <- parse_revision E repo (rc_name remote_config) branch ;;
  context ("failed to checkout HEAD at " +:+ dbg (path_join path ".git/"))
    (checkout_tree repo head) ;;;
  context ("failed to set HEAD to " +:+ dbg (path_join path ".git/"))
    (set_head_detached repo head) ;;;
  ret tt.

End Depot_ops.

(* ------------------------------------------------------------------ *)
(** ** [main.rs] *)

(** The end of [main]: [match result { Ok(rc) => exit(rc), Err(err) => ... }].
    The text written to standard error and the exit status of the process;
    when the [Err] arm has written its line, [main] returns normally, which
    ends the process with status 0. *)
Definition main_exit (result : Result Z) : string * Z :=
  match result with
  | Ok rc => ("", rc)
  | Err err =>
      let fail := err in
      match fail_cause fail with
      | Some cause =>
          let root := find_root_cause cause in
          ("fatal: " +:+ fail_msg fail +:+ ": " +:+ fail_msg root +:+ newline, 0%Z)
      | None => ("fatal: " +:+ fail_msg fail +:+ newline, 0%Z)
      end
  end.

(** The [fatal!] macro: writes its line and exits with status 1. *)
Definition fatal (msg : string) : string * Z := ("fatal: " +:+ msg +:+ newline, 1%Z).

(** [parse_target] *)
Definition parse_target (target : string) : Result (string * string) :=
  match split_on slash target with
  | [r] => Ok (r, "master")
  | [r; b] => Ok (r, b)
  | _ => Err (ErrMsg ("invalid target '" +:+ target +:+ "'"))
  end.

Inductive GroupFilter := Include (g : string) | Exclude (g : string).

(** The group filter argument of [cmd_clone]: comma separated, a leading
    ['-'] excludes. *)
Definition parse_group_filters (s : option string) : list GroupFilter :=
  match s with
  | None => []
  | Some s =>
      map (fun group => match group with
                        | String a r => if bool_decide (a = "-"%char) then Exclude r else Include group
                        | EmptyString => Include group
                        end) (split_on ","%char s)
  end.

(** Modelled from the spec: [config::Config] (config.rs is not in the
    sources), the named remotes and depots, looked up by name; a lookup fails
    if the name is absent. *)
Record Config := { cfg_remotes : list RemoteConfig; cfg_depots : list Depot }.

Definition config_find_remote (c : Config) (name : string) : Result RemoteConfig :=
  match List.find (fun r => bool_decide (rc_name r = name)) (cfg_remotes c) with
  | Some r => Ok r
  | None => Err (ErrMsg ("unknown remote " +:+ name))
  end.

Definition config_find_depot (c : Config) (name : string) : Result Depot :=
  match List.find (fun d => bool_decide (depot_name d = name)) (cfg_depots c) with
  | Some d => Ok d
  | None => Err (ErrMsg ("unknown depot " +:+ name))
  end.

(** [cmd_clone]; [tree_clone] stands for [Tree::construct] followed by
    [tree.sync] (tree.rs is not in the sources), called with the depot, the
    tree root, the remote, the branch, the group filters and [fetch]. *)
Definition cmd_clone
    (tree_clone : Depot -> string -> RemoteConfig -> string -> list GroupFilter -> bool -> M Z)
    (config : Config) (target : string) (directory : option string)
    (group_filters : option string) (fetch : bool) : M Z :=
  rb <- lift (parse_target target) ;;
  let '(remote, branch) := rb in
  remote_config <- lift (config_find_remote config remote) ;;
  depot <- lift (config_find_depot config (rc_depot remote_config)) ;;
  let tree_root := default branch directory in
  (fun w => match create_dir_all tree_root w with
            | (Ok _, w') => (Ok tt, w')
            | (Err err, w') =>
                (Err (ErrMsg ("failed to create tree root " +:+ dbg tree_root +:+ ": "
                              +:+ fail_msg err)), w')
            end) ;;;
  let group_filters := parse_group_filters group_filters in
  tree_clone depot tree_root remote_config branch group_filters fetch.

(* ------------------------------------------------------------------ *)
(** ** Sample inputs *)

(** A remote that serves one branch, [main] at commit [c0ffee]: fetching
    writes [refs/remotes/<remote>/main]; [git] always succeeds; every URL
    parses once its scheme is read; every revision resolves to [c0ffee]. *)
Definition sample_env : Env := {|
  env_fetch := fun w repo name _ _ =>
    let k := resolve (w_cwd w) repo ++ ["refs"; "remotes"; name] in
    match mkdirs [] k (w_fs w) with
    | Some fs' => (Ok tt, <[k ++ ["main"] := NFile "c0ffee"]> fs')
    | None => (Err (ErrMsg "cannot write refs"), w_fs w)
    end;
  env_git := fun w _ => (Ok {| out_success := true; out_stderr := "" |}, w_fs w);
  env_url_rest := fun _ _ => None;
  env_parse_revision := fun _ _ _ _ => Ok "c0ffee" |}.

Definition sample_depot : Depot := {| depot_name := "d"; depot_path := "/depot" |}.

Definition sample_remote : RemoteConfig :=
  {| rc_name := "origin"; rc_url := "https://host/"; rc_depot := "d" |}.

(** The same collaborators, with a [git] that always exits unsuccessfully. *)
Definition failing_git_env : Env := {|
  env_fetch := env_fetch sample_env;
  env_git := fun w _ => (Ok {| out_success := false; out_stderr := "fatal: refused" |}, w_fs w);
  env_url_rest := env_url_rest sample_env;
  env_parse_revision := env_parse_revision sample_env |}.

Definition sample_config : Config :=
  {| cfg_remotes := [sample_remote]; cfg_depots := [sample_depot] |}.

(** A world with only the working directory [/home]. *)
Definition empty_world : World :=
  {| w_cwd := ["home"]; w_fs := <[["home"] := NDir]> ∅; w_repos := ∅; w_log := [] |}.

(** [Tree::construct] and [sync] doing nothing and succeeding. *)
Definition no_tree_clone : Depot -> string -> RemoteConfig -> string -> list GroupFilter -> bool -> M Z :=
  fun _ _ _ _ _ _ => ret 0%Z.

(** A depot whose path is relative to the working directory. *)
Definition rel_depot : Depot := {| depot_name := "d"; depot_path := "depot" |}.

(** The world after a first fetch of project [p] into [sample_depot]. *)
Definition fetched_world : World :=
  snd (fetch_repo sample_env sample_depot sample_remote "p" "main" None empty_world).

(** A source directory [/s] holding a file and a subdirectory. *)
Definition w_sub : World :=
  {| w_cwd := [];
     w_fs := <[["s"; "f"] := NFile "x"]> (<[["s"; "sub"] := NDir]> (<[["s"] := NDir]> ∅));
     w_repos := ∅; w_log := [] |}.

(** A source directory [/s] with one file, and a destination [/d] holding
    an older tree. *)
Definition w_files : World :=
  {| w_cwd := [];
     w_fs := <[["d"; "old"; "x"] := NFile "1"]> (<[["d"; "old"] := NDir]> (<[["d"] := NDir]>
               (<[["s"; "f"] := NFile "x"]> (<[["s"] := NDir]> ∅))));
     w_repos := ∅; w_log := [] |}.

(** A remote whose URL is a local path, without a scheme. *)
Definition local_remote : RemoteConfig :=
  {| rc_name := "origin"; rc_url := "/srv/git/"; rc_depot := "d" |}.

(** A configuration naming a remote whose depot is not configured. *)
Definition remote_only_config : Config :=
  {| cfg_remotes := [sample_remote]; cfg_depots := [] |}.

(* ================================================================== *)
(** * Notions used by the properties *)

(** The message line [main] writes for an error, as the spec has it. *)
Definition fatal_line (err : Failure) : string :=
  match fail_cause err with
  | Some cause => "fatal: " +:+ fail_msg err +:+ ": " +:+ fail_msg (find_root_cause cause) +:+ newline
  | None => "fatal: " +:+ fail_msg err +:+ newline
  end.

(** A name a directory entry can have: no separator, not [""], ["."], [".."]. *)
Definition valid_comp (n : string) : bool :=
  bool_decide (split_on slash n = [n]) && negb (bool_decide (n = "" \/ n = "." \/ n = "..")).

(** [q] is one of the directories [mkdirs pre rest] walks through. *)
Definition in_mk (pre rest q : list string) : Prop :=
  exists k, q = pre ++ k /\ k <> [] /\ k `prefix_of` rest.

(** A filesystem is well formed when every entry is named by a valid
    component and sits in a directory. *)
Definition wf_fs (fs : FS) : Prop :=
  forall k n v, fs !! (k ++ [n]) = Some v -> valid_comp n = true /\ lookup_node fs k = Some NDir.

(** What [replace_dir] leaves at [q]: the ancestors of [kd] and [kd] itself
    are directories, the direct entries of [kd] are those of [ks], nothing
    is deeper in [kd], and every other path is as it was. *)
Definition replaced (ks kd : list string) (fs : FS) (q : list string) : option Node :=
  if decide (q <> [] /\ q `prefix_of` kd) then Some NDir
  else if decide (kd `prefix_of` q) then
    match child_name kd q with
    | Some n => fs !! (ks ++ [n])
    | None => None
    end
  else fs !! q.

(** An action that never changes the working directory. *)
Definition keeps_cwd {A} (m : M A) : Prop := forall w, w_cwd (snd (m w)) = w_cwd w.

(** An action that never changes the repositories. *)
Definition keeps_repos {A} (m : M A) : Prop := forall w, w_repos (snd (m w)) = w_repos w.

(** An action whose outcome, working directory and file tree depend only on
    the working directory and the file tree it starts from. *)
Definition fs_only {A} (m : M A) : Prop :=
  forall w w', w_cwd w = w_cwd w' -> w_fs w = w_fs w' ->
    fst (m w) = fst (m w') /\ w_cwd (snd (m w)) = w_cwd (snd (m w')) /\
    w_fs (snd (m w)) = w_fs (snd (m w')).

(** Where [clone_alternates src dst bare] writes the alternates file. *)
Definition alternates_path (dst : string) (bare : bool) : string :=
  let git_path := if bare then dst else path_join dst ".git" in
  path_join (path_join (path_join git_path "objects") "info") "alternates".

(** [wf_fs] checked entry by entry. *)
Definition wf_fs_b (fs : FS) : bool :=
  forallb (fun kv : list string * Node =>
             match last kv.1 with
             | Some n => valid_comp n && bool_decide (lookup_node fs (removelast kv.1) = Some NDir)
             | None => true
             end) (map_to_list fs).

(** The number of ['/'] characters of a string. *)
Fixpoint count_slash (s : string) : nat :=
  match s with
  | EmptyString => 0
  | String a r => (if bool_decide (a = slash) then 1 else 0) + count_slash r
  end.

(** The actions that transfer objects: a native fetch or a spawned process. *)
Definition transport_action (a : Action) : bool :=
  match a with AFetchNative _ _ _ _ | ASpawn _ _ => true | _ => false end.

(** An action that only appends to the log, and appends no transport action. *)
Definition no_transport {A} (m : M A) : Prop :=
  forall w, exists l, w_log (snd (m w)) = w_log w ++ l /\
                      Forall (fun a => transport_action a = false) l.

(** A group filter written back as the argument text it comes from. *)
Definition render_filter (g : GroupFilter) : string :=
  match g with Include s => s | Exclude s => "-" +:+ s end.

(** Pieces joined with a separator character (the inverse of [split_on]). *)
Fixpoint join_on (c : ascii) (l : list string) : string :=
  match l with
  | [] => ""
  | [x] => x
  | x :: r => x +:+ String c (join_on c r)
  end.

(* ================================================================== *)
(** * Properties *)

(** ** The monad *)

Lemma bind_Ok {A B} (m : M A) (k : A -> M B) w b w'' :
  bind m k w = (Ok b, w'') -> exists a w', m w = (Ok a, w') /\ k a w' = (Ok b, w'').
Proof. unfold bind. destruct (m w) as [[a|e] w'] eqn:H; [eauto | discriminate]. Qed.

Lemma bind_Ok_eq {A B} (m : M A) (k : A -> M B) w a w' :
  m w = (Ok a, w') -> bind m k w = k a w'.
Proof. unfold bind. intros ->. reflexivity. Qed.

Lemma bind_Err_eq {A B} (m : M A) (k : A -> M B) w e w' :
  m w = (Err e, w') -> bind m k w = (Err e, w').
Proof. unfold bind. intros ->. reflexivity. Qed.

Lemma context_Ok {A} msg (m : M A) w a w' :
  context msg m w = (Ok a, w') -> m w = (Ok a, w').
Proof. unfold context. destruct (m w) as [[?|?] ?]; simpl; congruence. Qed.

Lemma context_Ok_eq {A} msg (m : M A) w a w' :
  m w = (Ok a, w') -> context msg m w = (Ok a, w').
Proof. unfold context. intros ->. reflexivity. Qed.

Lemma ensure_Ok b msg w u w' : ensure b msg w = (Ok u, w') -> b = true /\ w' = w.
Proof. unfold ensure, ret, throw. destruct b; intros H; inversion H; auto. Qed.

(** Peel one [bind] off a successful run. *)
Ltac step H := apply bind_Ok in H as (?a & ?w & ?Hm & H); cbv beta in H.
Ltac stepn H a w Hm := apply bind_Ok in H as (a & w & Hm & H); cbv beta in H.

(* ------------------------------------------------------------------ *)
(** ** Reporting an uncaught error *)

(** C1 (corrected). For every uncaught error [main] writes exactly one line
    to standard error: ["fatal: <message>: <root cause>"] when the error
    wraps a cause, the root cause being the innermost failure of the cause
    chain, and ["fatal: <message>"] when it wraps none. *)
Theorem main_reports_uncaught_error (err : Failure) :
  fst (main_exit (Err err)) = fatal_line err.
Proof. destruct err; reflexivity. Qed.

(** C1 counterexample: [pore clone origin/a/b] fails in [parse_target] with an
    error that wraps no cause; [main] writes ["fatal: invalid target
    'origin/a/b'"] (no root cause part) and the process exits with status 0. *)
Lemma main_uncaught_error_exit_zero :
  main_exit (fst (cmd_clone no_tree_clone {| cfg_remotes := []; cfg_depots := [] |}
                    "origin/a/b" None None true empty_world))
  = ("fatal: invalid target 'origin/a/b'" +:+ newline, 0%Z).
Proof. reflexivity. Qed.

(* ------------------------------------------------------------------ *)
(** ** Project validation in [fetch_repo] *)

Lemma fetch_repo_rejects E d rc project branch depth (w : World) :
  starts_with_slash project = true \/ ends_with_slash project = true ->
  exists e, fetch_repo E d rc project branch depth w = (Err e, w).
Proof.
  intros Hp. unfold fetch_repo, ensure.
  destruct (starts_with_slash project) eqn:Hs; simpl.
  - eexists. reflexivity.
  - destruct Hp as [Hp|Hp]; [discriminate|]. rewrite Hp. simpl.
    eexists. reflexivity.
Qed.

(** C3. A project that starts or ends with ['/'] makes [fetch_repo] fail
    before any I/O: the world, log included, is left as it was. *)
Theorem fetch_repo_invalid_project_no_io E d rc project branch depth (w : World) :
  starts_with_slash project = true \/ ends_with_slash project = true ->
  exists e, fetch_repo E d rc project branch depth w = (Err e, w).
Proof. apply fetch_repo_rejects. Qed.

Lemma fetch_repo_invalid_project_no_io_witness :
  (exists e, fetch_repo sample_env sample_depot sample_remote
     "/x" "main" None empty_world = (Err e, empty_world)) /\
  (exists e, fetch_repo sample_env sample_depot sample_remote
     "x/" "main" None empty_world = (Err e, empty_world)).
Proof.
  split; apply fetch_repo_invalid_project_no_io; [left | right]; reflexivity.
Defined.

(** C10. The validation rejects exactly the projects that start or end with
    ['/']: those fail with the world untouched; for any other project,
    including [""] and projects with [".."] components, the fetch goes on by
    opening (or creating) the object mirror [objects_mirror self project],
    which is [<depot>/objects/<project>.git], so [<depot>/objects/.git] for
    the empty project. *)
Theorem fetch_repo_validation_exact E d rc project branch depth :
  ((starts_with_slash project || ends_with_slash project) = true ->
     forall w, exists e, fetch_repo E d rc project branch depth w = (Err e, w)) /\
  ((starts_with_slash project || ends_with_slash project) = false ->
     exists K, forall w, fetch_repo E d rc project branch depth w
                         = bind (open_or_create_bare_repo (objects_mirror d project)) K w) /\
  objects_mirror d project = path_join (path_join (depot_path d) "objects") (project +:+ ".git").
Proof.
  split; [|split].
  - intros Hp w. apply fetch_repo_rejects.
    apply orb_true_iff in Hp. exact Hp.
  - intros Hp. apply orb_false_iff in Hp as [Hs He].
    eexists. intros w. unfold fetch_repo, ensure. rewrite Hs, He. reflexivity.
  - reflexivity.
Qed.

Lemma fetch_repo_validation_exact_witness :
  (exists K, forall w, fetch_repo sample_env sample_depot sample_remote "" "main" None w
                       = bind (open_or_create_bare_repo "/depot/objects/.git") K w) /\
  (exists K, forall w, fetch_repo sample_env sample_depot sample_remote "a/../b" "main" None w
                       = bind (open_or_create_bare_repo "/depot/objects/a/../b.git") K w) /\
  (forall w, exists e, fetch_repo sample_env sample_depot sample_remote "/x" "main" None w = (Err e, w)).
Proof.
  split; [|split].
  - exact (proj1 (proj2 (fetch_repo_validation_exact sample_env sample_depot sample_remote
                           "" "main" None)) eq_refl).
  - exact (proj1 (proj2 (fetch_repo_validation_exact sample_env sample_depot sample_remote
                           "a/../b" "main" None)) eq_refl).
  - exact (proj1 (fetch_repo_validation_exact sample_env sample_depot sample_remote
                    "/x" "main" None) eq_refl).
Defined.

(* ------------------------------------------------------------------ *)
(** ** Paths *)

Lemma split_on_nonempty c s : split_on c s <> [].
Proof.
  induction s as [|a s IH]; simpl; [discriminate|].
  case_bool_decide; [discriminate|]. destruct (split_on c s); [contradiction|discriminate].
Qed.

Lemma split_on_app c s1 s2 :
  split_on c (s1 +:+ String c s2) = split_on c s1 ++ split_on c s2.
Proof.
  induction s1 as [|a s1 IH]; simpl.
  - rewrite bool_decide_eq_true_2 by reflexivity. reflexivity.
  - rewrite IH. case_bool_decide; [reflexivity|].
    destruct (split_on c s1) eqn:Hs; [by apply split_on_nonempty in Hs|]. reflexivity.
Qed.

Lemma norm_app acc l1 l2 : norm acc (l1 ++ l2) = norm (norm acc l1) l2.
Proof.
  revert acc. induction l1 as [|c l1 IH]; intros acc; simpl; [reflexivity|].
  repeat case_bool_decide; apply IH.
Qed.

Lemma norm_valid acc n : valid_comp n = true -> norm acc [n] = acc ++ [n].
Proof.
  unfold valid_comp. intros [_ Hn]%andb_true_iff. apply negb_true_iff in Hn.
  apply bool_decide_eq_false_1 in Hn. simpl.
  rewrite !bool_decide_eq_false_2 by tauto. reflexivity.
Qed.

Lemma valid_split n : valid_comp n = true -> split_on slash n = [n].
Proof. unfold valid_comp. intros [H _]%andb_true_iff. by apply bool_decide_eq_true_1 in H. Qed.

Lemma valid_nonempty n : valid_comp n = true -> n <> "".
Proof.
  unfold valid_comp. intros [_ H]%andb_true_iff ->. apply negb_true_iff in H.
  apply bool_decide_eq_false_1 in H. apply H. auto.
Qed.

Lemma valid_not_starts n : valid_comp n = true -> starts_with_slash n = false.
Proof.
  intros Hv. pose proof (valid_split n Hv) as Hs. destruct n as [|a r]; [reflexivity|].
  simpl in *. case_bool_decide; [|reflexivity]. discriminate.
Qed.

Lemma starts_app s1 s2 : s1 <> "" -> starts_with_slash (s1 +:+ s2) = starts_with_slash s1.
Proof. destruct s1; [congruence|reflexivity]. Qed.

Lemma append_assoc_str s1 s2 s3 : (s1 +:+ s2) +:+ s3 = s1 +:+ (s2 +:+ s3).
Proof. induction s1 as [|a s1 IH]; [reflexivity|]. exact (f_equal (String a) IH). Qed.

Lemma ends_with_slash_inv p :
  ends_with_slash p = true -> exists q, p = q +:+ String slash EmptyString.
Proof.
  induction p as [|a r IH]; simpl; [discriminate|].
  destruct r as [|b r'].
  - intros H. apply bool_decide_eq_true_1 in H. subst. exists EmptyString. reflexivity.
  - intros H. destruct (IH H) as [q Hq]. exists (String a q). rewrite Hq. reflexivity.
Qed.

Lemma path_join_nonempty p n : n <> "" -> path_join p n <> "".
Proof.
  intros Hn. unfold path_join.
  destruct (starts_with_slash n); [done|].
  case_bool_decide; [done|]. destruct p; [done|].
  destruct (ends_with_slash _); simpl; discriminate.
Qed.

Lemma resolve_join cwd p n :
  p <> "" -> valid_comp n = true -> resolve cwd (path_join p n) = resolve cwd p ++ [n].
Proof.
  intros Hp Hv. unfold path_join, resolve.
  rewrite (valid_not_starts n Hv). rewrite bool_decide_eq_false_2 by done.
  destruct (ends_with_slash p) eqn:He.
  - destruct (ends_with_slash_inv p He) as [q ->].
    rewrite !starts_app by (done || (destruct q; discriminate)).
    rewrite append_assoc_str. change (String slash "" +:+ n) with (String slash n).
    rewrite !split_on_app, (valid_split n Hv), !norm_app.
    rewrite (norm_valid _ n Hv). reflexivity.
  - change ("/" +:+ n) with (String slash n).
    rewrite starts_app by done. rewrite split_on_app, (valid_split n Hv), norm_app.
    apply norm_valid, Hv.
Qed.

Lemma key_of_Some w p : p <> "" -> key_of w p = Some (resolve (w_cwd w) p).
Proof. intros Hp. unfold key_of. rewrite bool_decide_eq_false_2 by done. reflexivity. Qed.

Lemma split_on_no_slash t : count_slash t = 0 -> split_on slash t = [t].
Proof.
  induction t as [|a r IH]; simpl; [done|].
  case_bool_decide; simpl; [lia|]. intros Hr. by rewrite IH.
Qed.

Lemma split_on_no_slash_pieces s : Forall (fun x => count_slash x = 0) (split_on slash s).
Proof.
  induction s as [|a r IH]; simpl; [by repeat constructor|].
  destruct (split_on slash r) as [|h t] eqn:Hs; [by apply split_on_nonempty in Hs|].
  case_bool_decide as Ha; [by constructor|].
  inversion IH as [|? ? Hh Ht]; subst. constructor; [|done]. simpl.
  rewrite bool_decide_eq_false_2 by done. simpl. done.
Qed.

Lemma Forall_removelast {A} (P : A -> Prop) (l : list A) : Forall P l -> Forall P (removelast l).
Proof.
  induction l as [|a l IH]; intros H; [done|]. destruct l as [|b l]; [constructor|].
  apply Forall_cons in H as [Ha Hl]. simpl. constructor; [done|]. by apply IH.
Qed.

Lemma norm_all_valid acc cs :
  Forall (fun c => valid_comp c = true) acc -> Forall (fun x => count_slash x = 0) cs ->
  Forall (fun c => valid_comp c = true) (norm acc cs).
Proof.
  revert acc. induction cs as [|c r IH]; intros acc Ha Hc; simpl; [done|].
  apply Forall_cons in Hc as [Hc Hr].
  case_bool_decide; [by apply IH|]. case_bool_decide; [apply IH; [by apply Forall_removelast|done]|].
  apply IH; [|done]. apply Forall_app; split; [done|]. constructor; [|done].
  unfold valid_comp. rewrite split_on_no_slash by done. rewrite bool_decide_eq_true_2 by done.
  simpl. rewrite bool_decide_eq_false_2 by (intros [?|[?|?]]; tauto). reflexivity.
Qed.

(** Resolved paths have valid components when the working directory has. *)
Lemma resolve_all_valid cwd p :
  Forall (fun c => valid_comp c = true) cwd -> Forall (fun c => valid_comp c = true) (resolve cwd p).
Proof.
  intros H. unfold resolve. apply norm_all_valid; [|apply split_on_no_slash_pieces].
  destruct (starts_with_slash p); [constructor|done].
Qed.

Lemma can_create_snoc fs k n :
  can_create fs (k ++ [n]) = true ->
  lookup_node fs k = Some NDir /\ lookup_node fs (k ++ [n]) <> Some NDir.
Proof.
  unfold can_create. rewrite removelast_last.
  destruct (k ++ [n]) as [|x l] eqn:E; [by destruct k|].
  intros [H1 H2]%andb_true_iff. split; [by apply bool_decide_eq_true_1 in H1|].
  apply negb_true_iff, bool_decide_eq_false_1 in H2. done.
Qed.

(* ------------------------------------------------------------------ *)
(** ** Directory operations *)

Lemma in_mk_cons pre c r q :
  in_mk pre (c :: r) q <-> q = pre ++ [c] \/ in_mk (pre ++ [c]) r q.
Proof.
  unfold in_mk. split.
  - intros (k & -> & Hk & Hp). destruct k as [|c' k']; [done|].
    apply prefix_cons_inv_1 in Hp as Hc. subst c'. apply prefix_cons_inv_2 in Hp.
    destruct k' as [|x k''].
    + left. reflexivity.
    + right. exists (x :: k''). rewrite <- app_assoc. simpl. split_and!; done.
  - intros [->|(k & -> & Hk & Hp)].
    + exists [c]. split_and!; [done|done|]. apply prefix_cons, prefix_nil.
    + exists (c :: k). rewrite <- app_assoc. simpl. split_and!; [done|done|].
      by apply prefix_cons.
Qed.

Lemma in_mk_nil pre q : ~ in_mk pre [] q.
Proof. intros (k & _ & Hk & Hp). by apply prefix_nil_inv in Hp. Qed.

Lemma in_mk_longer pre rest q : in_mk pre rest q -> length pre < length q.
Proof.
  intros (k & -> & Hk & _). rewrite length_app. destruct k; [done|]. simpl. lia.
Qed.

Lemma mkdirs_Some pre rest fs fs' :
  mkdirs pre rest fs = Some fs' ->
  forall q, (in_mk pre rest q -> fs' !! q = Some NDir) /\
            (~ in_mk pre rest q -> fs' !! q = fs !! q).
Proof.
  revert pre fs. induction rest as [|c r IH]; intros pre fs H q; simpl in H.
  - injection H as <-. split; [intros Hin; by apply in_mk_nil in Hin | done].
  - rewrite !in_mk_cons.
    destruct (fs !! (pre ++ [c])) as [[contents|]|] eqn:Hq; [discriminate| |].
    + destruct (IH _ _ H q) as [H1 H2]. split.
      * intros [->|Hin]; [|by apply H1].
        rewrite H2; [done|]. intros Hin. apply in_mk_longer in Hin. lia.
      * intros Hn. apply H2. tauto.
    + destruct (IH _ _ H q) as [H1 H2]. split.
      * intros [->|Hin]; [|by apply H1].
        rewrite H2; [by rewrite lookup_insert_eq|].
        intros Hin. apply in_mk_longer in Hin. lia.
      * intros Hn. rewrite H2 by tauto. rewrite lookup_insert_ne; [done|].
        intros <-. tauto.
Qed.

Lemma mkdirs_ok pre rest fs :
  (forall q contents, in_mk pre rest q -> fs !! q <> Some (NFile contents)) ->
  is_Some (mkdirs pre rest fs).
Proof.
  revert pre fs. induction rest as [|c r IH]; intros pre fs H; simpl; [eauto|].
  destruct (fs !! (pre ++ [c])) as [[contents|]|] eqn:Hq.
  - exfalso. eapply H; [|exact Hq]. apply in_mk_cons. by left.
  - apply IH. intros q contents Hin. apply H. apply in_mk_cons. by right.
  - apply IH. intros q contents Hin.
    rewrite lookup_insert_ne; [apply H; apply in_mk_cons; by right|].
    intros <-. apply in_mk_longer in Hin. rewrite length_app in Hin. simpl in Hin. lia.
Qed.

Lemma in_mk_nil_pre kd q : in_mk [] kd q <-> q <> [] /\ q `prefix_of` kd.
Proof.
  unfold in_mk. split.
  - intros (k & -> & Hk & Hp). done.
  - intros [Hq Hp]. exists q. done.
Qed.

Lemma remove_tree_lookup k fs q :
  remove_tree k fs !! q = if decide (k `prefix_of` q) then None else fs !! q.
Proof.
  unfold remove_tree. rewrite map_lookup_filter.
  destruct (fs !! q) as [v|]; simpl; case_decide; simpl;
    repeat case_guard; simpl; done.
Qed.

Lemma strip_prefix_Some k k' r : strip_prefix k k' = Some r <-> k' = k ++ r.
Proof.
  revert k'. induction k as [|a k IH]; intros [|b k']; simpl.
  - split; congruence.
  - split; congruence.
  - split; [discriminate|]. intros H. discriminate.
  - case_bool_decide as Hab.
    + subst b. rewrite IH. split; [by intros ->|by intros [=]].
    + split; [discriminate|]. intros [=]. done.
Qed.

Lemma child_name_Some k k' n : child_name k k' = Some n <-> k' = k ++ [n].
Proof.
  unfold child_name. split.
  - destruct (strip_prefix k k') as [r|] eqn:Hs; [|discriminate].
    destruct r as [|x [|y r]]; try discriminate. intros [=->].
    by apply strip_prefix_Some.
  - intros ->. rewrite (proj2 (strip_prefix_Some k (k ++ [n]) [n]) eq_refl). reflexivity.
Qed.

Lemma elem_of_children k fs n : n ∈ children k fs <-> is_Some (fs !! (k ++ [n])).
Proof.
  unfold children. rewrite list_elem_of_omap. split.
  - intros ([k' v] & Hin & Hc). simpl in Hc. apply child_name_Some in Hc as ->.
    apply elem_of_map_to_list in Hin. eauto.
  - intros [v Hv]. exists (k ++ [n], v). split.
    + by apply elem_of_map_to_list.
    + simpl. by apply child_name_Some.
Qed.

Lemma lookup_node_snoc fs k n : lookup_node fs (k ++ [n]) = fs !! (k ++ [n]).
Proof. by destruct k. Qed.

Lemma lookup_node_insert_ne fs k k' v :
  k <> k' -> lookup_node (<[k' := v]> fs) k = lookup_node fs k.
Proof. intros Hne. destruct k; simpl; [done|]. by apply lookup_insert_ne. Qed.

Lemma snoc_ne (k : list string) (n : string) : k <> k ++ [n].
Proof. intros H. apply (f_equal length) in H. rewrite length_app in H. simpl in H. lia. Qed.

Lemma snoc_inj (k1 k2 : list string) (n1 n2 : string) : k1 ++ [n1] = k2 ++ [n2] -> k1 = k2 /\ n1 = n2.
Proof. apply app_inj_tail. Qed.

(** One [std::fs::copy] of the loop, on a successful run. *)
Lemma fs_copy_entry_Ok src dst n w a w' :
  src <> "" -> dst <> "" -> valid_comp n = true ->
  fs_copy (path_join src n) (path_join dst n) w = (Ok a, w') ->
  exists c, w_fs w !! (resolve (w_cwd w) src ++ [n]) = Some (NFile c) /\
            w' = set_fs (<[resolve (w_cwd w) dst ++ [n] := NFile c]> (w_fs w))
                        (log_action (ACopy (path_join src n) (path_join dst n)) w).
Proof.
  intros Hs Hd Hv H. unfold fs_copy in H.
  rewrite !key_of_Some in H by (apply path_join_nonempty, valid_nonempty, Hv). simpl in H.
  rewrite !resolve_join in H by done. rewrite !lookup_node_snoc in H.
  destruct (w_fs w !! (resolve (w_cwd w) src ++ [n])) as [[c|]|]; [|discriminate|discriminate].
  destruct (can_create _ _); [|discriminate]. injection H as _ <-. eauto.
Qed.

Lemma copy_entries_Ok src dst (names : list string) w w' :
  src <> "" -> dst <> "" ->
  Forall (fun n => valid_comp n = true) names ->
  resolve (w_cwd w) src <> resolve (w_cwd w) dst ->
  lookup_node (w_fs w) (resolve (w_cwd w) dst) = Some NDir ->
  copy_entries dst (map (fun n => {| de_path := path_join src n; de_name := n |}) names) w
    = (Ok tt, w') ->
  w_cwd w' = w_cwd w /\ w_repos w' = w_repos w /\
  (forall n, n ∈ names -> exists c, w_fs w !! (resolve (w_cwd w) src ++ [n]) = Some (NFile c)) /\
  (forall q, w_fs w' !! q =
     match child_name (resolve (w_cwd w) dst) q with
     | Some n => if decide (n ∈ names) then w_fs w !! (resolve (w_cwd w) src ++ [n])
                 else w_fs w !! q
     | None => w_fs w !! q
     end).
Proof.
  intros Hs Hd. revert w. induction names as [|n rest IH]; intros w Hv Hne Hdir H.
  - simpl in H. injection H as <-. split_and!; [done|done| |].
    + intros n Hn. by apply elem_of_nil in Hn.
    + intros q. destruct (child_name _ q); [|done]. case_decide as Hn; [by apply elem_of_nil in Hn|done].
  - apply Forall_cons in Hv as [Hvn Hvr]. simpl in H. step H.
    apply context_Ok in Hm. apply fs_copy_entry_Ok in Hm as (c & Hc & ->); [|done..].
    rename H into Hk.
    set (ks := resolve (w_cwd w) src) in *. set (kd := resolve (w_cwd w) dst) in *.
    destruct (IH (set_fs (<[kd ++ [n] := NFile c]> (w_fs w))
                (log_action (ACopy (path_join src n) (path_join dst n)) w)) Hvr Hne)
      as (Hcwd & Hrep & Hfiles & Hpt);
      [simpl; rewrite lookup_node_insert_ne; [done|apply snoc_ne] | exact Hk |].
    simpl in Hcwd, Hrep, Hfiles, Hpt. fold ks kd in Hfiles, Hpt.
    split_and!; [done|done| |].
    + intros m Hm. apply elem_of_cons in Hm as [->|Hm]; [eauto|].
      destruct (Hfiles m Hm) as [c' Hc']. exists c'.
      rewrite lookup_insert_ne in Hc'; [done|]. intros Heq. apply snoc_inj in Heq as [? _]. done.
    + intros q. rewrite Hpt. destruct (child_name kd q) as [m|] eqn:Hq.
      * apply child_name_Some in Hq as ->.
        case_decide as Hm; case_decide as Hm'.
        -- rewrite lookup_insert_ne; [done|]. intros Heq. apply snoc_inj in Heq as [? _]. done.
        -- exfalso. apply Hm'. by apply elem_of_cons; right.
        -- apply elem_of_cons in Hm' as [->|]; [|done]. by rewrite lookup_insert_eq.
        -- rewrite lookup_insert_ne; [done|]. intros Heq. apply snoc_inj in Heq as [_ ->].
           apply Hm'. by apply elem_of_cons; left.
      * rewrite lookup_insert_ne; [done|]. intros <-.
        rewrite (proj2 (child_name_Some kd (kd ++ [n]) n) eq_refl) in Hq. discriminate.
Qed.

Lemma prefix_snoc_inv (kd ks : list string) n :
  kd `prefix_of` ks ++ [n] -> kd `prefix_of` ks \/ kd = ks ++ [n].
Proof.
  intros [r Hr]. destruct r as [|x r'] using rev_ind.
  - right. by rewrite app_nil_r in Hr.
  - left. rewrite app_assoc in Hr. apply snoc_inj in Hr as [-> _]. by exists r'.
Qed.

Lemma wf_ancestor fs k r v :
  wf_fs fs -> fs !! (k ++ r) = Some v -> lookup_node fs k <> None.
Proof.
  intros Hwf. revert v. induction r as [|x r IH] using rev_ind; intros v Hv.
  - rewrite app_nil_r in Hv. destruct k; simpl; congruence.
  - rewrite app_assoc in Hv. apply Hwf in Hv as [_ Hp].
    destruct (k ++ r) eqn:Hkr.
    + apply app_eq_nil in Hkr as [-> _]. done.
    + apply (IH NDir). exact Hp.
Qed.

Lemma prefix_length_lt (q kd : list string) n : q `prefix_of` kd -> q <> kd ++ [n].
Proof.
  intros Hp ->. apply prefix_length in Hp. rewrite length_app in Hp. simpl in Hp. lia.
Qed.

Lemma replace_dir_Ok src dst w w' :
  src <> "" -> dst <> "" ->
  (forall n v, w_fs w !! (resolve (w_cwd w) src ++ [n]) = Some v -> valid_comp n = true) ->
  (lookup_node (w_fs w) (resolve (w_cwd w) dst) = None ->
   forall r, w_fs w !! (resolve (w_cwd w) dst ++ r) = None) ->
  ~ resolve (w_cwd w) src `prefix_of` resolve (w_cwd w) dst ->
  ~ resolve (w_cwd w) dst `prefix_of` resolve (w_cwd w) src ->
  replace_dir src dst w = (Ok tt, w') ->
  w_cwd w' = w_cwd w /\ w_repos w' = w_repos w /\
  lookup_node (w_fs w) (resolve (w_cwd w) src) = Some NDir /\
  (forall n v, w_fs w !! (resolve (w_cwd w) src ++ [n]) = Some v -> exists c, v = NFile c) /\
  (forall q, w_fs w' !! q = replaced (resolve (w_cwd w) src) (resolve (w_cwd w) dst) (w_fs w) q).
Proof.
  intros Hs Hd Hval Hsub Hsd Hds H.
  set (ks := resolve (w_cwd w) src) in *. set (kd := resolve (w_cwd w) dst) in *.
  set (fs := w_fs w) in *.
  assert (Hkd0 : kd <> []) by (intros Hk; apply Hds; rewrite Hk; apply prefix_nil).
  assert (Hne : ks <> kd) by (intros Hk; apply Hsd; rewrite Hk; reflexivity).
  unfold replace_dir in H.
  stepn H a0 w0 Hm. unfold fs_exists in Hm. rewrite key_of_Some in Hm by done. injection Hm as <- <-.
  stepn H a1 w1 Hm. apply ensure_Ok in Hm as [Hex ->]. apply bool_decide_eq_true_1 in Hex.
  stepn H a2 w2 Hm. unfold fs_exists in Hm. rewrite key_of_Some in Hm by done. injection Hm as <- <-.
  stepn H a3 w3 Hm.
  assert (Hw4 : w_cwd w3 = w_cwd w /\ w_repos w3 = w_repos w /\
                forall q, w_fs w3 !! q = if decide (kd `prefix_of` q) then None else fs !! q).
  { simpl in Hm. fold ks kd fs in Hm.
    destruct (bool_decide (is_Some (lookup_node fs kd))) eqn:Hdex.
    - apply context_Ok in Hm. unfold remove_dir_all in Hm.
      rewrite key_of_Some in Hm by done. simpl in Hm. fold kd fs in Hm.
      destruct (lookup_node fs kd) as [[c|]|] eqn:Hkd; try discriminate.
      injection Hm as _ <-. simpl. split_and!; [done|done|]. intros q. apply remove_tree_lookup.
    - unfold ret in Hm. injection Hm as _ <-. simpl. split_and!; [done|done|].
      apply bool_decide_eq_false_1 in Hdex.
      intros q. case_decide as Hq; [|done].
      destruct Hq as [r ->]. rewrite Hsub; [done|].
      destruct (lookup_node fs kd); [exfalso; apply Hdex; eauto|done]. }
  destruct Hw4 as (Hcwd4 & Hrep4 & Hfs4). clear Hm.
  stepn H a4 w4 Hm. apply context_Ok in Hm. unfold create_dir_all in Hm.
  rewrite key_of_Some in Hm by done. simpl in Hm. rewrite Hcwd4 in Hm. fold kd in Hm.
  destruct (mkdirs [] kd (w_fs w3)) as [fs5|] eqn:Hmk; [|discriminate].
  injection Hm as _ <-.
  pose proof (mkdirs_Some _ _ _ _ Hmk) as Hmk'.
  assert (F1 : forall q, q <> [] /\ q `prefix_of` kd -> fs5 !! q = Some NDir).
  { intros q Hq. apply (Hmk' q). by apply in_mk_nil_pre. }
  assert (F2 : forall q, ~ (q <> [] /\ q `prefix_of` kd) -> fs5 !! q = w_fs w3 !! q).
  { intros q Hq. apply (Hmk' q). rewrite in_mk_nil_pre. done. }
  assert (F3 : forall n, fs5 !! (ks ++ [n]) = fs !! (ks ++ [n])).
  { intros n. rewrite F2.
    - rewrite Hfs4. case_decide as Hp; [|done].
      exfalso. apply prefix_snoc_inv in Hp as [Hp| ->]; [done|]. apply Hsd. by exists [n].
    - intros [_ Hp]. apply Hsd. etrans; [|exact Hp]. by exists [n]. }
  stepn H a5 w5 Hm. apply context_Ok in Hm. unfold read_dir in Hm.
  rewrite key_of_Some in Hm by done. simpl in Hm. rewrite Hcwd4 in Hm. fold ks in Hm.
  assert (F4 : lookup_node fs5 ks = lookup_node fs ks).
  { assert (Hq : fs5 !! ks = fs !! ks).
    { rewrite F2; [rewrite Hfs4; by rewrite decide_False|].
      intros [_ Hp]. by apply Hsd. }
    by destruct ks. }
  change (match ks with [] => Some NDir | _ => fs5 !! ks end) with (lookup_node fs5 ks) in Hm.
  rewrite F4 in Hm.
  assert (Hks : lookup_node fs ks = Some NDir).
  { destruct Hex as [v Hv]. simpl in Hv. fold ks fs in Hv. rewrite Hv in Hm |- *.
    destruct v; [discriminate|done]. }
  rewrite Hks in Hm. injection Hm as <- <-.
  apply copy_entries_Ok in H as (Hcwd & Hrep & Hfiles & Hpt); simpl; rewrite ?Hcwd4; fold ks kd;
    [| done | done | | done | ].
  - simpl in Hcwd, Hrep, Hfiles, Hpt. rewrite Hcwd4 in Hcwd, Hfiles, Hpt. fold ks kd in Hfiles, Hpt.
    split_and!.
    + by rewrite Hcwd.
    + by rewrite Hrep.
    + exact Hks.
    + intros n v Hv. rewrite <- F3 in Hv.
      destruct (Hfiles n) as [c Hc]; [apply elem_of_children; eauto|].
      rewrite Hv in Hc. injection Hc as ->. eauto.
    + intros q. rewrite Hpt. unfold replaced.
      case_decide as Hanc.
      * assert (child_name kd q = None) as ->.
        { destruct (child_name kd q) as [m|] eqn:Hc; [|done].
          apply child_name_Some in Hc. exfalso. destruct Hanc as [_ Hp].
          by apply (prefix_length_lt q kd m). }
        by apply F1.
      * case_decide as Hunder.
        -- destruct (child_name kd q) as [m|] eqn:Hc.
           ++ apply child_name_Some in Hc as ->. case_decide as Hm.
              ** apply F3.
              ** rewrite <- F3. rewrite F2 by done. rewrite Hfs4.
                 rewrite decide_True by done.
                 destruct (fs5 !! (ks ++ [m])) eqn:Hx; [|done].
                 exfalso. apply Hm. apply elem_of_children. eauto.
           ++ rewrite F2 by done. rewrite Hfs4. by rewrite decide_True.
        -- rewrite F2 by done. rewrite Hfs4. rewrite decide_False by done.
           destruct (child_name kd q) as [m|] eqn:Hc; [|done].
           apply child_name_Some in Hc as ->. exfalso. apply Hunder. by exists [m].
  - apply Forall_forall. intros n Hn. apply elem_of_children in Hn as [v Hv].
    rewrite F3 in Hv. by apply Hval in Hv.
  - assert (Hk5 : fs5 !! kd = Some NDir) by (apply F1; split; [done|reflexivity]).
    clear -Hk5 Hkd0. revert Hk5 Hkd0. generalize kd. intros [|? ?]; done.
Qed.

Lemma wf_fs_entries fs k :
  wf_fs fs -> forall n v, fs !! (k ++ [n]) = Some v -> valid_comp n = true.
Proof. intros Hwf n v Hv. by apply Hwf in Hv as [? _]. Qed.

Lemma wf_fs_absent fs k :
  wf_fs fs -> lookup_node fs k = None -> forall r, fs !! (k ++ r) = None.
Proof.
  intros Hwf Hk r. destruct (fs !! (k ++ r)) eqn:Hv; [|done].
  apply (wf_ancestor _ _ _ _ Hwf) in Hv. by rewrite Hk in Hv.
Qed.

Lemma lookup_node_cons fs k : k <> [] -> lookup_node fs k = fs !! k.
Proof. by destruct k. Qed.

Lemma fs_exists_eq p w : p <> "" ->
  fs_exists p w = (Ok (bool_decide (is_Some (lookup_node (w_fs w) (resolve (w_cwd w) p)))),
                   log_action (AExists p) w).
Proof. intros Hp. unfold fs_exists. rewrite key_of_Some by done. reflexivity. Qed.

Lemma fs_copy_entry_succeeds src dst n c w :
  src <> "" -> dst <> "" -> valid_comp n = true ->
  w_fs w !! (resolve (w_cwd w) src ++ [n]) = Some (NFile c) ->
  lookup_node (w_fs w) (resolve (w_cwd w) dst) = Some NDir ->
  w_fs w !! (resolve (w_cwd w) dst ++ [n]) <> Some NDir ->
  fs_copy (path_join src n) (path_join dst n) w =
    (Ok tt, set_fs (<[resolve (w_cwd w) dst ++ [n] := NFile c]> (w_fs w))
                   (log_action (ACopy (path_join src n) (path_join dst n)) w)).
Proof.
  intros Hs Hd Hv Hc Hdir Hnd. unfold fs_copy.
  rewrite !key_of_Some by (apply path_join_nonempty, valid_nonempty, Hv). simpl.
  rewrite !resolve_join by done. rewrite lookup_node_snoc, Hc.
  unfold can_create. destruct (resolve (w_cwd w) dst ++ [n]) eqn:E; [by destruct (resolve (w_cwd w) dst)|].
  rewrite <- E in Hnd |- *. rewrite removelast_last, lookup_node_snoc, Hdir.
  rewrite bool_decide_eq_true_2 by done. rewrite bool_decide_eq_false_2 by done. reflexivity.
Qed.

Lemma copy_entries_succeeds src dst (names : list string) w :
  src <> "" -> dst <> "" ->
  Forall (fun n => valid_comp n = true) names ->
  resolve (w_cwd w) src <> resolve (w_cwd w) dst ->
  lookup_node (w_fs w) (resolve (w_cwd w) dst) = Some NDir ->
  (forall n, n ∈ names -> exists c, w_fs w !! (resolve (w_cwd w) src ++ [n]) = Some (NFile c)) ->
  (forall n, n ∈ names -> w_fs w !! (resolve (w_cwd w) dst ++ [n]) <> Some NDir) ->
  exists w', copy_entries dst (map (fun n => {| de_path := path_join src n; de_name := n |}) names) w
             = (Ok tt, w').
Proof.
  intros Hs Hd. revert w. induction names as [|n rest IH]; intros w Hv Hne Hdir Hsrc Htgt.
  - by eexists.
  - apply Forall_cons in Hv as [Hvn Hvr].
    destruct (Hsrc n) as [c Hc]; [by apply elem_of_cons; left|].
    simpl. unfold bind. rewrite (context_Ok_eq _ _ _ _ _ (fs_copy_entry_succeeds _ _ _ _ _ Hs Hd Hvn Hc Hdir
      (Htgt n ltac:(by apply elem_of_cons; left)))).
    set (ks := resolve (w_cwd w) src) in *. set (kd := resolve (w_cwd w) dst) in *.
    apply IH; simpl; fold ks kd; [done|done| | |].
    + rewrite lookup_node_insert_ne; [done|apply snoc_ne].
    + intros m Hm. destruct (Hsrc m) as [c' Hc']; [by apply elem_of_cons; right|].
      exists c'. rewrite lookup_insert_ne; [done|].
      intros Heq. apply snoc_inj in Heq as [? _]. done.
    + intros m Hm. destruct (decide (m = n)) as [->|Hmn].
      * by rewrite lookup_insert_eq.
      * rewrite lookup_insert_ne; [apply Htgt; by apply elem_of_cons; right|].
        intros Heq. apply snoc_inj in Heq as [_ ?]. done.
Qed.

Lemma replace_dir_succeeds src dst w :
  src <> "" -> dst <> "" ->
  (forall n v, w_fs w !! (resolve (w_cwd w) src ++ [n]) = Some v -> valid_comp n = true) ->
  (lookup_node (w_fs w) (resolve (w_cwd w) dst) = None ->
   forall r, w_fs w !! (resolve (w_cwd w) dst ++ r) = None) ->
  ~ resolve (w_cwd w) src `prefix_of` resolve (w_cwd w) dst ->
  ~ resolve (w_cwd w) dst `prefix_of` resolve (w_cwd w) src ->
  lookup_node (w_fs w) (resolve (w_cwd w) src) = Some NDir ->
  (forall n v, w_fs w !! (resolve (w_cwd w) src ++ [n]) = Some v -> exists c, v = NFile c) ->
  (forall q c, q <> [] -> q `prefix_of` resolve (w_cwd w) dst -> w_fs w !! q <> Some (NFile c)) ->
  exists w', replace_dir src dst w = (Ok tt, w').
Proof.
  intros Hs Hd Hval Hsub Hsd Hds Hks Hfiles Hanc.
  set (ks := resolve (w_cwd w) src) in *. set (kd := resolve (w_cwd w) dst) in *.
  set (fs := w_fs w) in *.
  assert (Hkd0 : kd <> []) by (intros Hk; apply Hds; rewrite Hk; apply prefix_nil).
  assert (Hne : ks <> kd) by (intros Hk; apply Hsd; rewrite Hk; reflexivity).
  unfold replace_dir.
  rewrite (bind_Ok_eq _ _ _ _ _ (fs_exists_eq src w Hs)). cbv beta. cbn [w_fs w_cwd log_action].
  fold ks kd fs. rewrite Hks, bool_decide_eq_true_2 by eauto.
  rewrite (bind_Ok_eq (ensure true _) _ _ tt _ eq_refl). cbv beta.
  rewrite (bind_Ok_eq _ _ _ _ _ (fs_exists_eq dst _ Hd)). cbv beta. cbn [w_fs w_cwd log_action].
  fold ks kd fs.
  set (w2 := log_action (AExists dst) (log_action (AExists src) w)).
  assert (Hw3 : exists w3,
    (if bool_decide (is_Some (lookup_node fs kd))
     then context ("failed to delete " +:+ dbg dst) (remove_dir_all dst) else ret ()) w2
      = (Ok tt, w3) /\ w_cwd w3 = w_cwd w /\
    forall q, w_fs w3 !! q = if decide (kd `prefix_of` q) then None else fs !! q).
  { destruct (lookup_node fs kd) as [[c|]|] eqn:Hkd.
    - exfalso. apply (Hanc kd c Hkd0 ltac:(reflexivity)). by rewrite <- lookup_node_cons.
    - rewrite bool_decide_eq_true_2 by eauto. eexists. split_and!.
      + unfold context, remove_dir_all. rewrite key_of_Some by done.
        cbn [w_fs w_cwd log_action w2]. fold kd fs. rewrite Hkd. reflexivity.
      + done.
      + intros q. simpl. apply remove_tree_lookup.
    - rewrite bool_decide_eq_false_2 by (intros [? ?]; discriminate).
      eexists. split_and!; [reflexivity|done|].
      intros q. simpl. case_decide as Hq; [|done]. destruct Hq as [r ->]. by apply Hsub. }
  destruct Hw3 as (w3 & Hw3 & Hcwd3 & Hfs3).
  rewrite (bind_Ok_eq _ _ _ _ _ Hw3). cbv beta.
  destruct (mkdirs_ok [] kd (w_fs w3)) as [fs5 Hmk].
  { intros q c Hq. apply in_mk_nil_pre in Hq as [Hq0 Hq]. rewrite Hfs3.
    case_decide; [done|]. by apply Hanc. }
  pose proof (mkdirs_Some _ _ _ _ Hmk) as Hmk'.
  assert (F1 : forall q, q <> [] /\ q `prefix_of` kd -> fs5 !! q = Some NDir).
  { intros q Hq. apply (Hmk' q). by apply in_mk_nil_pre. }
  assert (F2 : forall q, ~ (q <> [] /\ q `prefix_of` kd) -> fs5 !! q = w_fs w3 !! q).
  { intros q Hq. apply (Hmk' q). rewrite in_mk_nil_pre. done. }
  assert (F3 : forall n, fs5 !! (ks ++ [n]) = fs !! (ks ++ [n])).
  { intros n. rewrite F2.
    - rewrite Hfs3. case_decide as Hp; [|done].
      exfalso. apply prefix_snoc_inv in Hp as [Hp| ->]; [done|]. apply Hsd. by exists [n].
    - intros [_ Hp]. apply Hsd. etrans; [|exact Hp]. by exists [n]. }
  assert (F4 : lookup_node fs5 ks = lookup_node fs ks).
  { assert (Hq : fs5 !! ks = fs !! ks).
    { rewrite F2; [rewrite Hfs3; by rewrite decide_False|].
      intros [_ Hp]. by apply Hsd. }
    by destruct ks. }
  rewrite (bind_Ok_eq _ _ _ tt (set_fs fs5 (log_action (ACreateDirAll dst) w3))).
  2: { unfold context, create_dir_all. rewrite key_of_Some by done.
       cbn [w_fs w_cwd log_action]. rewrite Hcwd3. fold kd. by rewrite Hmk. }
  cbv beta.
  set (w5 := set_fs fs5 (log_action (ACreateDirAll dst) w3)).
  rewrite (bind_Ok_eq _ _ _ (map (fun n => {| de_path := path_join src n; de_name := n |})
                                 (children ks fs5)) (log_action (AReadDir src) w5)).
  2: { unfold context, read_dir. rewrite key_of_Some by done.
       cbn [w_fs w_cwd log_action set_fs w5]. rewrite Hcwd3. fold ks. rewrite F4, Hks. reflexivity. }
  cbv beta.
  apply copy_entries_succeeds; cbn [w_fs w_cwd log_action set_fs w5]; rewrite ?Hcwd3; fold ks kd;
    [done|done| |done| | |].
  - apply Forall_forall. intros n Hn. apply elem_of_children in Hn as [v Hv].
    rewrite F3 in Hv. by apply Hval in Hv.
  - rewrite lookup_node_cons by done. apply F1. split; [done|reflexivity].
  - intros n Hn. apply elem_of_children in Hn as [v Hv]. rewrite F3 in Hv |- *.
    rewrite Hv. destruct (Hfiles n v Hv) as [c ->]. eauto.
  - intros n Hn. rewrite F2.
    + rewrite Hfs3. rewrite decide_True by (by exists [n]). done.
    + intros [_ Hp]. apply prefix_length in Hp. rewrite length_app in Hp. simpl in Hp. lia.
Qed.

Lemma wf_fs_b_sound fs : wf_fs_b fs = true -> wf_fs fs.
Proof.
  intros H k n v Hv. unfold wf_fs_b in H. rewrite forallb_forall in H.
  specialize (H (k ++ [n], v)). simpl in H. rewrite last_snoc, removelast_last in H.
  apply andb_true_iff in H as [? ?%bool_decide_eq_true_1]; [done|].
  apply list_elem_of_In, elem_of_map_to_list. done.
Qed.

Lemma replace_dir_missing_src src dst w :
  src <> "" -> lookup_node (w_fs w) (resolve (w_cwd w) src) = None ->
  exists e, replace_dir src dst w = (Err e, log_action (AExists src) w).
Proof.
  intros Hs Hnone. unfold replace_dir.
  rewrite (bind_Ok_eq _ _ _ _ _ (fs_exists_eq src w Hs)). cbv beta. cbn [w_fs w_cwd log_action].
  rewrite Hnone, bool_decide_eq_false_2 by (intros [? ?]; discriminate).
  eexists. reflexivity.
Qed.

Lemma replace_dir_empty_src dst w :
  exists e, replace_dir "" dst w = (Err e, log_action (AExists "") w).
Proof. eexists. reflexivity. Qed.

Lemma replaced_ancestor ks kd fs q :
  q <> [] -> q `prefix_of` kd -> replaced ks kd fs q = Some NDir.
Proof. intros Hq Hp. unfold replaced. by rewrite decide_True. Qed.

Lemma replaced_child ks kd fs n :
  replaced ks kd fs (kd ++ [n]) = fs !! (ks ++ [n]).
Proof.
  unfold replaced. rewrite decide_False.
  - rewrite decide_True by (by exists [n]).
    by rewrite (proj2 (child_name_Some kd (kd ++ [n]) n) eq_refl).
  - intros [_ Hp]. by apply (prefix_length_lt (kd ++ [n]) kd n).
Qed.

Lemma replaced_deeper ks kd fs n r :
  r <> [] -> replaced ks kd fs (kd ++ [n] ++ r) = None.
Proof.
  intros Hr. unfold replaced. rewrite decide_False.
  - rewrite decide_True by (by exists ([n] ++ r)).
    destruct (child_name kd (kd ++ [n] ++ r)) as [m|] eqn:Hc; [|done].
    apply child_name_Some, app_inv_head in Hc. destruct r; [done|discriminate].
  - intros [_ Hp]. apply prefix_length in Hp. rewrite !length_app in Hp. simpl in Hp. lia.
Qed.

Lemma replaced_other ks kd fs q :
  ~ q `prefix_of` kd -> ~ kd `prefix_of` q -> replaced ks kd fs q = fs !! q.
Proof. intros H1 H2. unfold replaced. rewrite decide_False by tauto. by rewrite decide_False. Qed.

(** Under [replaced], the entries of [ks] are untouched when neither path
    contains the other. *)
Lemma replaced_source ks kd fs n :
  ~ ks `prefix_of` kd -> ~ kd `prefix_of` ks ->
  replaced ks kd fs (ks ++ [n]) = fs !! (ks ++ [n]).
Proof.
  intros Hsd Hds. apply replaced_other.
  - intros Hp. apply Hsd. etrans; [|exact Hp]. by exists [n].
  - intros Hp. apply prefix_snoc_inv in Hp as [Hp| ->]; [done|]. apply Hsd. by exists [n].
Qed.




(* ------------------------------------------------------------------ *)
(** ** Replaying [replace_dir] *)

Lemma fs_only_ret {A} (a : A) : fs_only (ret a).
Proof. intros w w' Hc Hf. unfold ret. simpl. auto. Qed.

Lemma fs_only_bind {A B} (m : M A) (k : A -> M B) :
  fs_only m -> (forall a, fs_only (k a)) -> fs_only (bind m k).
Proof.
  intros Hm Hk w w' Hc Hf. unfold bind.
  destruct (Hm w w' Hc Hf) as (H1 & H2 & H3).
  destruct (m w) as [[a|e] w1], (m w') as [[a'|e'] w1']; simpl in *; try discriminate.
  - injection H1 as <-. by apply Hk.
  - injection H1 as <-. auto.
Qed.

Lemma fs_only_context {A} msg (m : M A) : fs_only m -> fs_only (context msg m).
Proof.
  intros Hm w w' Hc Hf. unfold context.
  destruct (Hm w w' Hc Hf) as (H1 & H2 & H3).
  destruct (m w) as [[a|e] w1], (m w') as [[a'|e'] w1']; simpl in *; try discriminate;
    injection H1 as <-; auto.
Qed.

Lemma fs_only_fs_copy from to : fs_only (fs_copy from to).
Proof.
  intros w w' Hc Hf. unfold fs_copy, key_of. cbn [w_cwd w_fs log_action].
  rewrite Hc, Hf. repeat case_match; simpl; auto.
Qed.

Lemma fs_only_read_dir p : fs_only (read_dir p).
Proof.
  intros w w' Hc Hf. unfold read_dir, key_of. cbn [w_cwd w_fs log_action].
  rewrite Hc, Hf. repeat case_match; simpl; auto.
Qed.

Lemma fs_only_copy_entries dst es : fs_only (copy_entries dst es).
Proof.
  induction es as [|e rest IH]; cbn [copy_entries].
  - apply fs_only_ret.
  - apply fs_only_bind; [apply fs_only_context, fs_only_fs_copy|intros _; exact IH].
Qed.

(** The last two steps of [replace_dir]: reading the source and copying. *)
Lemma fs_only_replace_dir_tail src dst :
  fs_only (entries <- context ("failed to read directory " +:+ dbg src) (read_dir src) ;;
           copy_entries dst entries).
Proof.
  apply fs_only_bind; [apply fs_only_context, fs_only_read_dir|].
  intros es. apply fs_only_copy_entries.
Qed.

Lemma path_join_empty n : valid_comp n = true -> path_join "" n = n.
Proof. intros Hv. unfold path_join. rewrite valid_not_starts by done. reflexivity. Qed.

Lemma resolve_comp cwd n : valid_comp n = true -> resolve cwd n = cwd ++ [n].
Proof. intros Hv. unfold resolve. rewrite valid_not_starts, valid_split by done. by apply norm_valid. Qed.

Lemma child_name_self k : child_name k k = None.
Proof.
  destruct (child_name k k) as [n|] eqn:Hc; [|done].
  exfalso. apply (snoc_ne k n). by apply child_name_Some.
Qed.

Lemma lookup_node_child_name fs fs' k :
  (child_name k k = None -> fs' !! k = fs !! k) -> lookup_node fs' k = lookup_node fs k.
Proof. intros H. destruct k as [|x l]; [done|]. simpl. apply H, child_name_self. Qed.

Lemma can_create_snoc_true fs k n :
  lookup_node fs k = Some NDir -> lookup_node fs (k ++ [n]) <> Some NDir ->
  can_create fs (k ++ [n]) = true.
Proof.
  intros H1 H2. unfold can_create. rewrite removelast_last.
  destruct (k ++ [n]) as [|x l] eqn:E; [by destruct k|].
  rewrite bool_decide_eq_true_2 by done. rewrite bool_decide_eq_false_2 by done. reflexivity.
Qed.

(** One [std::fs::copy] of the loop, for a destination [dst] whose entry
    [n] resolves to [kt ++ [n]]. *)
Lemma fs_copy_target_Ok src dst kt n w a w' :
  src <> "" -> valid_comp n = true ->
  resolve (w_cwd w) (path_join dst n) = kt ++ [n] ->
  fs_copy (path_join src n) (path_join dst n) w = (Ok a, w') ->
  exists c, w_fs w !! (resolve (w_cwd w) src ++ [n]) = Some (NFile c) /\
    w_fs w !! (kt ++ [n]) <> Some NDir /\ lookup_node (w_fs w) kt = Some NDir /\
    w' = set_fs (<[kt ++ [n] := NFile c]> (w_fs w))
                (log_action (ACopy (path_join src n) (path_join dst n)) w).
Proof.
  intros Hs Hv Ht H. unfold fs_copy in H.
  rewrite !key_of_Some in H by (apply path_join_nonempty, valid_nonempty, Hv).
  cbn [w_cwd w_fs log_action] in H.
  rewrite (resolve_join _ src n Hs Hv), Ht, lookup_node_snoc in H.
  destruct (w_fs w !! (resolve (w_cwd w) src ++ [n])) as [[c|]|]; [|discriminate|discriminate].
  destruct (can_create (w_fs w) (kt ++ [n])) eqn:Hcc; [|discriminate].
  apply can_create_snoc in Hcc as [Hdir Hnd]. rewrite lookup_node_snoc in Hnd.
  injection H as _ <-. eauto.
Qed.

Lemma fs_copy_target_eq src dst kt n c w :
  src <> "" -> valid_comp n = true ->
  resolve (w_cwd w) (path_join dst n) = kt ++ [n] ->
  w_fs w !! (resolve (w_cwd w) src ++ [n]) = Some (NFile c) ->
  lookup_node (w_fs w) kt = Some NDir ->
  w_fs w !! (kt ++ [n]) <> Some NDir ->
  fs_copy (path_join src n) (path_join dst n) w =
    (Ok tt, set_fs (<[kt ++ [n] := NFile c]> (w_fs w))
                   (log_action (ACopy (path_join src n) (path_join dst n)) w)).
Proof.
  intros Hs Hv Ht Hc Hdir Hnd. unfold fs_copy.
  rewrite !key_of_Some by (apply path_join_nonempty, valid_nonempty, Hv).
  cbn [w_cwd w_fs log_action].
  rewrite (resolve_join _ src n Hs Hv), Ht, lookup_node_snoc, Hc.
  rewrite can_create_snoc_true; [reflexivity|done|by rewrite lookup_node_snoc].
Qed.

(** The copy loop of [replace_dir], for any destination: on success every
    entry of the source was a regular file, the destination directory is a
    directory, no entry it receives was a directory, and the entries of
    the destination named in [names] are those of the source. *)
Lemma copy_entries_Ok_gen src dst kt (names : list string) w w' :
  src <> "" ->
  Forall (fun n => valid_comp n = true) names ->
  (forall n, valid_comp n = true -> resolve (w_cwd w) (path_join dst n) = kt ++ [n]) ->
  copy_entries dst (map (fun n => {| de_path := path_join src n; de_name := n |}) names) w
    = (Ok tt, w') ->
  w_cwd w' = w_cwd w /\
  (forall n, n ∈ names -> exists c, w_fs w !! (resolve (w_cwd w) src ++ [n]) = Some (NFile c)) /\
  (forall n, n ∈ names -> w_fs w !! (kt ++ [n]) <> Some NDir /\ lookup_node (w_fs w) kt = Some NDir) /\
  (forall q, w_fs w' !! q =
     match child_name kt q with
     | Some n => if decide (n ∈ names) then w_fs w !! (resolve (w_cwd w) src ++ [n])
                 else w_fs w !! q
     | None => w_fs w !! q
     end).
Proof.
  intros Hs. revert w. induction names as [|n rest IH]; intros w Hv Ht H.
  - cbn [map copy_entries] in H. unfold ret in H. injection H as <-. split_and!; [done| | |].
    + intros n Hn. by apply elem_of_nil in Hn.
    + intros n Hn. by apply elem_of_nil in Hn.
    + intros q. destruct (child_name _ q); [|done].
      case_decide as Hn; [by apply elem_of_nil in Hn|done].
  - apply Forall_cons in Hv as [Hvn Hvr]. cbn [map copy_entries de_path de_name] in H.
    stepn H a1 w1 Hm. apply context_Ok in Hm.
    apply (fs_copy_target_Ok src dst kt) in Hm as (c & Hc & Hnd & Hdir & ->);
      [|done|done|by apply Ht].
    destruct (IH (set_fs (<[kt ++ [n] := NFile c]> (w_fs w))
                     (log_action (ACopy (path_join src n) (path_join dst n)) w)) Hvr Ht H)
      as (Hcwd & Hfiles & Htgt & Hpt).
    cbn [w_fs w_cwd set_fs log_action] in Hcwd, Hfiles, Htgt, Hpt.
    set (ks := resolve (w_cwd w) src) in *.
    assert (KA : forall m, <[kt ++ [n] := NFile c]> (w_fs w) !! (ks ++ [m]) = w_fs w !! (ks ++ [m])).
    { intros m. destruct (decide (ks ++ [m] = kt ++ [n])) as [E|E].
      - rewrite E, lookup_insert_eq. apply snoc_inj in E as [-> ->]. by rewrite Hc.
      - rewrite lookup_insert_ne; [done|congruence]. }
    split_and!; [done| | |].
    + intros m Hm. apply elem_of_cons in Hm as [->|Hm]; [eauto|].
      destruct (Hfiles m Hm) as [c' Hc']. rewrite KA in Hc'. eauto.
    + intros m Hm. split; [|done]. destruct (decide (m = n)) as [->|Hmn]; [done|].
      apply elem_of_cons in Hm as [->|Hm]; [done|].
      destruct (Htgt m Hm) as [Hm' _]. rewrite lookup_insert_ne in Hm'; [done|].
      intros Heq. apply snoc_inj in Heq as [_ ?]. done.
    + intros q. rewrite Hpt. destruct (child_name kt q) as [m|] eqn:Hq.
      * apply child_name_Some in Hq as ->.
        case_decide as Hm; case_decide as Hm'.
        -- apply KA.
        -- exfalso. apply Hm'. by apply elem_of_cons; right.
        -- apply elem_of_cons in Hm' as [->|]; [|done]. by rewrite lookup_insert_eq, Hc.
        -- rewrite lookup_insert_ne; [done|]. intros Heq. apply snoc_inj in Heq as [_ ->].
           apply Hm'. by apply elem_of_cons; left.
      * rewrite lookup_insert_ne; [done|]. intros <-.
        rewrite (proj2 (child_name_Some kt (kt ++ [n]) n) eq_refl) in Hq. discriminate.
Qed.

(** The copy loop changes nothing when every entry already holds the
    contents of the corresponding source entry. *)
Lemma copy_entries_noop src dst kt (names : list string) w :
  src <> "" ->
  Forall (fun n => valid_comp n = true) names ->
  (forall n, valid_comp n = true -> resolve (w_cwd w) (path_join dst n) = kt ++ [n]) ->
  (forall n, n ∈ names -> exists c, w_fs w !! (resolve (w_cwd w) src ++ [n]) = Some (NFile c) /\
     w_fs w !! (kt ++ [n]) = Some (NFile c) /\ lookup_node (w_fs w) kt = Some NDir) ->
  exists w', copy_entries dst (map (fun n => {| de_path := path_join src n; de_name := n |}) names) w
             = (Ok tt, w') /\ w_cwd w' = w_cwd w /\ w_fs w' = w_fs w.
Proof.
  intros Hs. revert w. induction names as [|n rest IH]; intros w Hv Ht Hn.
  - exists w. split_and!; reflexivity.
  - apply Forall_cons in Hv as [Hvn Hvr].
    destruct (Hn n) as (c & Hc & Hc' & Hdir); [by apply elem_of_cons; left|].
    cbn [map copy_entries]. unfold bind.
    rewrite (context_Ok_eq _ _ _ _ _ (fs_copy_target_eq _ _ _ _ _ _ Hs Hvn (Ht n Hvn) Hc Hdir
               ltac:(by rewrite Hc'))).
    rewrite (insert_id (w_fs w) _ _ Hc').
    destruct (IH (set_fs (w_fs w) (log_action (ACopy (path_join src n) (path_join dst n)) w)))
      as (w' & Hw' & Hcwd & Hfs); [done|exact Ht| |].
    + intros m Hm. apply Hn. by apply elem_of_cons; right.
    + exists w'. split_and!; [exact Hw'|exact Hcwd|exact Hfs].
Qed.

(** A successful [replace_dir] with a non-empty destination: the source is
    not the empty path, and after deleting the destination and creating it
    with its ancestors, the file tree is [kd]'s ancestors and [kd] as
    directories, nothing below [kd], everything else as it was. *)
Lemma replace_dir_stages_Ok src dst w w1 :
  dst <> "" -> wf_fs (w_fs w) ->
  replace_dir src dst w = (Ok tt, w1) ->
  src <> "" /\
  exists wB, w_cwd wB = w_cwd w /\
    (forall q, w_fs wB !! q =
       if decide (q <> [] /\ q `prefix_of` resolve (w_cwd w) dst) then Some NDir
       else if decide (resolve (w_cwd w) dst `prefix_of` q) then None else w_fs w !! q) /\
    (entries <- context ("failed to read directory " +:+ dbg src) (read_dir src) ;;
     copy_entries dst entries) wB = (Ok tt, w1).
Proof.
  intros Hd Hwf H.
  assert (Hs : src <> "").
  { intros ->. destruct (replace_dir_empty_src dst w) as [e He]. congruence. }
  split; [done|].
  set (kd := resolve (w_cwd w) dst) in *. set (fs := w_fs w) in *.
  unfold replace_dir in H.
  stepn H a0 w0 Hm. unfold fs_exists in Hm. rewrite key_of_Some in Hm by done. injection Hm as <- <-.
  stepn H a1 w1' Hm. apply ensure_Ok in Hm as [_ ->].
  stepn H a2 w2 Hm. unfold fs_exists in Hm. rewrite key_of_Some in Hm by done. injection Hm as <- <-.
  stepn H a3 w3 Hm.
  assert (Hw3 : w_cwd w3 = w_cwd w /\
                forall q, w_fs w3 !! q = if decide (kd `prefix_of` q) then None else fs !! q).
  { simpl in Hm. fold kd fs in Hm.
    destruct (bool_decide (is_Some (lookup_node fs kd))) eqn:Hdex.
    - apply context_Ok in Hm. unfold remove_dir_all in Hm.
      rewrite key_of_Some in Hm by done. simpl in Hm. fold kd fs in Hm.
      destruct (lookup_node fs kd) as [[c|]|] eqn:Hkd; try discriminate.
      injection Hm as _ <-. simpl. split; [done|]. intros q. apply remove_tree_lookup.
    - unfold ret in Hm. injection Hm as _ <-. simpl. split; [done|].
      apply bool_decide_eq_false_1 in Hdex.
      intros q. case_decide as Hq; [|done].
      destruct Hq as [r ->]. apply (wf_fs_absent fs kd Hwf).
      destruct (lookup_node fs kd); [exfalso; apply Hdex; eauto|done]. }
  destruct Hw3 as (Hcwd3 & Hfs3). clear Hm.
  stepn H a4 w4 Hm. apply context_Ok in Hm. unfold create_dir_all in Hm.
  rewrite key_of_Some in Hm by done. simpl in Hm. rewrite Hcwd3 in Hm. fold kd in Hm.
  destruct (mkdirs [] kd (w_fs w3)) as [fs5|] eqn:Hmk; [|discriminate].
  injection Hm as _ <-.
  pose proof (mkdirs_Some _ _ _ _ Hmk) as Hmk'.
  exists (set_fs fs5 (log_action (ACreateDirAll dst) w3)). split_and!.
  - exact Hcwd3.
  - intros q. cbn [w_fs set_fs]. case_decide as Hq.
    + apply (Hmk' q). by apply in_mk_nil_pre.
    + rewrite (proj2 (Hmk' q)) by (by rewrite in_mk_nil_pre). apply Hfs3.
  - exact H.
Qed.

(** Conversely, [replace_dir] with a non-empty destination that is a
    directory reaches the same two last steps. *)
Lemma replace_dir_stages_succeed src dst w :
  src <> "" -> dst <> "" ->
  lookup_node (w_fs w) (resolve (w_cwd w) src) <> None ->
  lookup_node (w_fs w) (resolve (w_cwd w) dst) = Some NDir ->
  (forall q c, q <> [] -> q `prefix_of` resolve (w_cwd w) dst -> w_fs w !! q <> Some (NFile c)) ->
  exists wB, w_cwd wB = w_cwd w /\
    (forall q, w_fs wB !! q =
       if decide (q <> [] /\ q `prefix_of` resolve (w_cwd w) dst) then Some NDir
       else if decide (resolve (w_cwd w) dst `prefix_of` q) then None else w_fs w !! q) /\
    replace_dir src dst w =
    (entries <- context ("failed to read directory " +:+ dbg src) (read_dir src) ;;
     copy_entries dst entries) wB.
Proof.
  intros Hs Hd Hks Hkd Hanc.
  set (ks := resolve (w_cwd w) src) in *. set (kd := resolve (w_cwd w) dst) in *.
  set (fs := w_fs w) in *.
  unfold replace_dir.
  rewrite (bind_Ok_eq _ _ _ _ _ (fs_exists_eq src w Hs)). cbv beta. cbn [w_fs w_cwd log_action].
  fold ks kd fs. rewrite bool_decide_eq_true_2 by (by apply not_eq_None_Some).
  rewrite (bind_Ok_eq (ensure true _) _ _ tt _ eq_refl). cbv beta.
  rewrite (bind_Ok_eq _ _ _ _ _ (fs_exists_eq dst _ Hd)). cbv beta. cbn [w_fs w_cwd log_action].
  fold ks kd fs. rewrite Hkd, bool_decide_eq_true_2 by eauto.
  set (w2 := log_action (AExists dst) (log_action (AExists src) w)).
  rewrite (bind_Ok_eq _ _ _ tt (set_fs (remove_tree kd fs) (log_action (ARemoveDirAll dst) w2))).
  2: { unfold context, remove_dir_all. rewrite key_of_Some by done.
       cbn [w_fs w_cwd log_action w2]. fold kd fs. rewrite Hkd. reflexivity. }
  cbv beta.
  destruct (mkdirs_ok [] kd (remove_tree kd fs)) as [fs5 Hmk].
  { intros q c Hq. apply in_mk_nil_pre in Hq as [Hq0 Hq].
    rewrite remove_tree_lookup. case_decide; [done|]. by apply Hanc. }
  pose proof (mkdirs_Some _ _ _ _ Hmk) as Hmk'.
  rewrite (bind_Ok_eq _ _ _ tt
    (set_fs fs5 (log_action (ACreateDirAll dst)
       (set_fs (remove_tree kd fs) (log_action (ARemoveDirAll dst) w2))))).
  2: { unfold context, create_dir_all. rewrite key_of_Some by done.
       cbn [w_fs w_cwd log_action set_fs w2]. fold kd fs. by rewrite Hmk. }
  cbv beta.
  exists (set_fs fs5 (log_action (ACreateDirAll dst)
            (set_fs (remove_tree kd fs) (log_action (ARemoveDirAll dst) w2)))).
  split_and!; [reflexivity| |reflexivity].
  intros q. cbn [w_fs set_fs]. case_decide as Hq.
  - apply (Hmk' q). by apply in_mk_nil_pre.
  - rewrite (proj2 (Hmk' q)) by (by rewrite in_mk_nil_pre). apply remove_tree_lookup.
Qed.

(** A successful [replace_dir] to the empty destination: nothing is deleted
    or created, and the entries of the source are copied into the working
    directory. *)
Lemma replace_dir_nodst_Ok src w w1 :
  replace_dir src "" w = (Ok tt, w1) ->
  src <> "" /\ lookup_node (w_fs w) (resolve (w_cwd w) src) = Some NDir /\
  exists w3, w_cwd w3 = w_cwd w /\ w_fs w3 = w_fs w /\
    copy_entries "" (map (fun n => {| de_path := path_join src n; de_name := n |})
                         (children (resolve (w_cwd w) src) (w_fs w))) w3 = (Ok tt, w1).
Proof.
  intros H.
  assert (Hs : src <> "").
  { intros ->. destruct (replace_dir_empty_src "" w) as [e He]. congruence. }
  unfold replace_dir in H.
  rewrite (bind_Ok_eq _ _ _ _ _ (fs_exists_eq src w Hs)) in H. cbv beta in H.
  stepn H a1 w1' Hm. apply ensure_Ok in Hm as [_ ->].
  rewrite (bind_Ok_eq (fs_exists "") _ _ false
             (log_action (AExists "") (log_action (AExists src) w)) eq_refl) in H.
  cbv beta iota in H.
  rewrite (bind_Ok_eq (ret tt) _ _ tt _ eq_refl) in H. cbv beta in H.
  rewrite (bind_Ok_eq (context _ (create_dir_all "")) _ _ tt
             (log_action (ACreateDirAll "") (log_action (AExists "") (log_action (AExists src) w)))
             eq_refl) in H.
  cbv beta in H.
  stepn H a5 w5 Hm. apply context_Ok in Hm. unfold read_dir in Hm. rewrite key_of_Some in Hm by done.
  cbn [w_fs w_cwd log_action] in Hm.
  destruct (lookup_node (w_fs w) (resolve (w_cwd w) src)) as [[c|]|] eqn:Hk; try discriminate.
  injection Hm as <- <-.
  split_and!; [done|done|]. eexists. split_and!; [| |exact H]; reflexivity.
Qed.

Lemma replace_dir_nodst_eq src w :
  src <> "" -> lookup_node (w_fs w) (resolve (w_cwd w) src) = Some NDir ->
  exists w3, w_cwd w3 = w_cwd w /\ w_fs w3 = w_fs w /\
    replace_dir src "" w =
    copy_entries "" (map (fun n => {| de_path := path_join src n; de_name := n |})
                         (children (resolve (w_cwd w) src) (w_fs w))) w3.
Proof.
  intros Hs Hk.
  exists (log_action (AReadDir src) (log_action (ACreateDirAll "")
            (log_action (AExists "") (log_action (AExists src) w)))).
  split_and!; [reflexivity|reflexivity|].
  unfold replace_dir.
  rewrite (bind_Ok_eq _ _ _ _ _ (fs_exists_eq src w Hs)). cbv beta. cbn [w_fs w_cwd log_action].
  rewrite Hk, bool_decide_eq_true_2 by eauto.
  rewrite (bind_Ok_eq (ensure true _) _ _ tt _ eq_refl). cbv beta.
  rewrite (bind_Ok_eq (fs_exists "") _ _ false
             (log_action (AExists "") (log_action (AExists src) w)) eq_refl).
  cbv beta iota.
  rewrite (bind_Ok_eq (ret tt) _ _ tt _ eq_refl). cbv beta.
  rewrite (bind_Ok_eq (context _ (create_dir_all "")) _ _ tt
             (log_action (ACreateDirAll "") (log_action (AExists "") (log_action (AExists src) w)))
             eq_refl).
  cbv beta.
  rewrite (bind_Ok_eq _ _ _ (map (fun n => {| de_path := path_join src n; de_name := n |})
                                 (children (resolve (w_cwd w) src) (w_fs w)))
             (log_action (AReadDir src) (log_action (ACreateDirAll "")
                (log_action (AExists "") (log_action (AExists src) w))))).
  2: { unfold context, read_dir. rewrite key_of_Some by done.
       cbn [w_fs w_cwd log_action]. rewrite Hk. reflexivity. }
  reflexivity.
Qed.

(** Idempotence of [replace_dir] to the empty destination. *)
Lemma replace_dir_idem_nodst src w w1 :
  wf_fs (w_fs w) -> replace_dir src "" w = (Ok tt, w1) ->
  exists w2, replace_dir src "" w1 = (Ok tt, w2) /\ w_fs w2 = w_fs w1.
Proof.
  intros Hwf H.
  apply replace_dir_nodst_Ok in H as (Hs & Hks & w3 & Hcwd3 & Hfs3 & H).
  assert (Ht : forall n, valid_comp n = true ->
            resolve (w_cwd w3) (path_join "" n) = w_cwd w ++ [n]).
  { intros n Hv. rewrite path_join_empty, Hcwd3 by done. by apply resolve_comp. }
  assert (Hval : Forall (fun n => valid_comp n = true)
                   (children (resolve (w_cwd w) src) (w_fs w))).
  { apply Forall_forall. intros n Hn. apply elem_of_children in Hn as [v Hv].
    by apply (wf_fs_entries _ (resolve (w_cwd w) src) Hwf n v). }
  apply (copy_entries_Ok_gen src "" (w_cwd w)) in H as (Hcwd1 & Hfiles & Htgt & Hfs1);
    [|done|done|exact Ht].
  rewrite Hcwd3 in Hcwd1, Hfiles, Hfs1. rewrite Hfs3 in Hfiles, Htgt, Hfs1.
  set (ks := resolve (w_cwd w) src) in *. set (fs := w_fs w) in *.
  set (names := children ks fs) in *.
  assert (D1 : forall m, w_fs w1 !! (ks ++ [m]) = fs !! (ks ++ [m])).
  { intros m. rewrite Hfs1. destruct (child_name (w_cwd w) (ks ++ [m])) as [n|] eqn:Hc; [|done].
    apply child_name_Some, snoc_inj in Hc as [_ ->]. by case_decide. }
  assert (D2 : lookup_node (w_fs w1) ks = Some NDir).
  { rewrite <- Hks. destruct (decide (ks = [])) as [E|Hne]; [by rewrite E|].
    rewrite !lookup_node_cons by done. rewrite Hfs1.
    destruct (child_name (w_cwd w) ks) as [n|] eqn:Hc; [|done].
    apply child_name_Some in Hc. case_decide as Hn; [|by rewrite Hc].
    exfalso. destruct (Htgt n Hn) as [Hnd _]. apply Hnd. rewrite <- Hc.
    by rewrite <- lookup_node_cons. }
  assert (D3 : lookup_node (w_fs w1) (w_cwd w) = lookup_node fs (w_cwd w)).
  { apply lookup_node_child_name. intros Hc. by rewrite Hfs1, Hc. }
  assert (Hnames : forall n, n ∈ children ks (w_fs w1) <-> n ∈ names).
  { intros n. unfold names. rewrite !elem_of_children. by rewrite D1. }
  destruct (replace_dir_nodst_eq src w1 Hs) as (w4 & Hcwd4 & Hfs4 & Heq);
    [rewrite Hcwd1; exact D2|].
  rewrite Heq, Hcwd1. fold ks.
  destruct (copy_entries_noop src "" (w_cwd w) (children ks (w_fs w1)) w4 Hs)
    as (w2 & Hw2 & _ & Hfs2).
  - apply Forall_forall. intros n Hn%Hnames. by apply (proj1 (Forall_forall _ _) Hval).
  - intros n Hv. rewrite path_join_empty, Hcwd4, Hcwd1 by done. by apply resolve_comp.
  - intros n Hn%Hnames. rewrite Hcwd4, Hcwd1, Hfs4. fold ks.
    destruct (Hfiles n Hn) as [c Hc]. exists c. split_and!.
    + by rewrite D1.
    + rewrite Hfs1. rewrite (proj2 (child_name_Some (w_cwd w) (w_cwd w ++ [n]) n) eq_refl).
      by rewrite decide_True.
    + rewrite D3. apply (Htgt n Hn).
  - exists w2. split; [exact Hw2|]. by rewrite Hfs2.
Qed.

(** Idempotence of [replace_dir] to a non-empty destination: the second
    call deletes and recreates the destination, which gives back the file
    tree the first call copied into, and copies the same entries again. *)
Lemma replace_dir_idem_dst src dst w w1 :
  dst <> "" -> wf_fs (w_fs w) -> Forall (fun c => valid_comp c = true) (w_cwd w) ->
  replace_dir src dst w = (Ok tt, w1) ->
  exists w2, replace_dir src dst w1 = (Ok tt, w2) /\ w_fs w2 = w_fs w1.
Proof.
  intros Hd Hwf Hcv H.
  destruct (replace_dir_stages_Ok src dst w w1 Hd Hwf H) as (Hs & wB & HcB & HfB & Htail).
  pose proof Htail as Htail0.
  stepn Htail a5 w5 Hm. apply context_Ok in Hm. unfold read_dir in Hm.
  rewrite key_of_Some in Hm by done. cbn [w_fs w_cwd log_action] in Hm. rewrite HcB in Hm.
  set (ks := resolve (w_cwd w) src) in *. set (kd := resolve (w_cwd w) dst) in *.
  set (fs := w_fs w) in *.
  destruct (lookup_node (w_fs wB) ks) as [[c|]|] eqn:HksB; try discriminate.
  injection Hm as <- <-.
  assert (Hkdv : Forall (fun c => valid_comp c = true) kd) by (by apply resolve_all_valid).
  assert (Hval : Forall (fun n => valid_comp n = true) (children ks (w_fs wB))).
  { apply Forall_forall. intros n Hn. apply elem_of_children in Hn as [v Hv].
    rewrite HfB in Hv. case_decide as Ha.
    - destruct Ha as [_ [r Hr]]. apply (proj1 (Forall_forall _ _) Hkdv).
      rewrite Hr. apply elem_of_app. left. apply elem_of_app. right. by apply list_elem_of_singleton.
    - case_decide; [discriminate|]. by apply (wf_fs_entries _ ks Hwf n v). }
  apply copy_entries_Ok_gen with (kt := kd) in Htail as (Hcwd1 & Hfiles & Htgt & Hfs1);
    [|done|done|].
  2: { intros n Hv. cbn [w_cwd log_action]. rewrite HcB. by apply resolve_join. }
  cbn [w_cwd w_fs log_action] in Hcwd1, Hfiles, Hfs1. rewrite HcB in Hcwd1, Hfiles, Hfs1.
  fold ks in Hfiles, Hfs1.
  assert (K1 : forall q, ~ kd `prefix_of` q -> w_fs w1 !! q = w_fs wB !! q).
  { intros q Hq. rewrite Hfs1. destruct (child_name kd q) as [n|] eqn:Hc; [|done].
    apply child_name_Some in Hc as ->. exfalso. apply Hq. by exists [n]. }
  assert (Hkd0 : forall q, q <> [] -> q `prefix_of` kd -> w_fs w1 !! q = Some NDir).
  { intros q Hq Hp. rewrite Hfs1.
    destruct (child_name kd q) as [n|] eqn:Hc.
    - apply child_name_Some in Hc as ->. exfalso. by apply (prefix_length_lt (kd ++ [n]) kd n).
    - rewrite HfB. by rewrite decide_True. }
  assert (K2 : lookup_node (w_fs w1) ks = Some NDir).
  { rewrite <- HksB. destruct (decide (ks = [])) as [E|Hne]; [by rewrite E|].
    rewrite !lookup_node_cons by done. rewrite Hfs1.
    destruct (child_name kd ks) as [n|] eqn:Hc; [|done]. exfalso.
    apply child_name_Some in Hc. rewrite lookup_node_cons, HfB in HksB by done.
    rewrite decide_False in HksB.
    - rewrite decide_True in HksB; [discriminate|]. rewrite Hc. by exists [n].
    - intros [_ Hp]. rewrite Hc in Hp. by apply (prefix_length_lt (kd ++ [n]) kd n). }
  assert (K3 : lookup_node (w_fs w1) kd = Some NDir).
  { destruct (decide (kd = [])) as [E|Hne]; [by rewrite E|].
    rewrite lookup_node_cons by done. apply Hkd0; [done|reflexivity]. }
  destruct (replace_dir_stages_succeed src dst w1) as (wB' & HcB' & HfB' & Heq);
    rewrite ?Hcwd1; fold ks kd; [done|done|by rewrite K2|done| |].
  { intros q c Hq Hp. by rewrite Hkd0. }
  assert (HB : w_fs wB' = w_fs wB).
  { apply map_eq. intros q. rewrite HfB'. rewrite Hcwd1. fold kd.
    case_decide as Ha; [by rewrite HfB, decide_True|].
    case_decide as Hb; [by rewrite HfB, decide_False, decide_True|].
    by apply K1. }
  destruct (fs_only_replace_dir_tail src dst wB' wB) as (Hr & _ & Hf); [by rewrite HcB', HcB|done|].
  rewrite Htail0 in Hr, Hf. cbn [fst snd] in Hr, Hf.
  exists (snd ((entries <- context ("failed to read directory " +:+ dbg src) (read_dir src) ;;
                copy_entries dst entries) wB')).
  split; [|exact Hf].
  rewrite Heq, <- Hr. apply surjective_pairing.
Qed.



(* ------------------------------------------------------------------ *)
(** ** Frame properties *)

Create HintDb frame.

Lemma keeps_cwd_bind {A B} (m : M A) (k : A -> M B) :
  keeps_cwd m -> (forall a, keeps_cwd (k a)) -> keeps_cwd (bind m k).
Proof.
  intros Hm Hk w. unfold bind. specialize (Hm w).
  destruct (m w) as [[a|e] w1]; simpl in *; [rewrite Hk|]; done.
Qed.

Lemma keeps_repos_bind {A B} (m : M A) (k : A -> M B) :
  keeps_repos m -> (forall a, keeps_repos (k a)) -> keeps_repos (bind m k).
Proof.
  intros Hm Hk w. unfold bind. specialize (Hm w).
  destruct (m w) as [[a|e] w1]; simpl in *; [rewrite Hk|]; done.
Qed.

Lemma keeps_cwd_context {A} msg (m : M A) : keeps_cwd m -> keeps_cwd (context msg m).
Proof. intros Hm w. unfold context. specialize (Hm w). by destruct (m w) as [[?|?] ?]. Qed.

Lemma keeps_repos_context {A} msg (m : M A) : keeps_repos m -> keeps_repos (context msg m).
Proof. intros Hm w. unfold context. specialize (Hm w). by destruct (m w) as [[?|?] ?]. Qed.

Ltac prim_frame f := intros ?w; unfold f; simpl; repeat (case_match; simpl); reflexivity.

Lemma keeps_cwd_ret {A} (a : A) : keeps_cwd (ret a).
Proof. done. Qed.
Lemma keeps_repos_ret {A} (a : A) : keeps_repos (ret a).
Proof. done. Qed.
Lemma keeps_cwd_ensure b msg : keeps_cwd (ensure b msg).
Proof. intros w. by destruct b. Qed.
Lemma keeps_repos_ensure b msg : keeps_repos (ensure b msg).
Proof. intros w. by destruct b. Qed.
Lemma keeps_cwd_throw {A} e : keeps_cwd (@throw A e).
Proof. done. Qed.
Lemma keeps_repos_throw {A} e : keeps_repos (@throw A e).
Proof. done. Qed.

#[local] Hint Resolve keeps_cwd_bind keeps_repos_bind keeps_cwd_context keeps_repos_context
  keeps_cwd_ret keeps_repos_ret keeps_cwd_ensure keeps_repos_ensure
  keeps_cwd_throw keeps_repos_throw : frame.

Lemma keeps_cwd_fs_exists p : keeps_cwd (fs_exists p).
Proof. prim_frame fs_exists. Qed.
Lemma keeps_repos_fs_exists p : keeps_repos (fs_exists p).
Proof. prim_frame fs_exists. Qed.
Lemma keeps_cwd_remove_dir_all p : keeps_cwd (remove_dir_all p).
Proof. prim_frame remove_dir_all. Qed.
Lemma keeps_repos_remove_dir_all p : keeps_repos (remove_dir_all p).
Proof. prim_frame remove_dir_all. Qed.
Lemma keeps_cwd_create_dir_all p : keeps_cwd (create_dir_all p).
Proof. prim_frame create_dir_all. Qed.
Lemma keeps_repos_create_dir_all p : keeps_repos (create_dir_all p).
Proof. prim_frame create_dir_all. Qed.
Lemma keeps_cwd_read_dir p : keeps_cwd (read_dir p).
Proof. prim_frame read_dir. Qed.
Lemma keeps_repos_read_dir p : keeps_repos (read_dir p).
Proof. prim_frame read_dir. Qed.
Lemma keeps_cwd_fs_copy p q : keeps_cwd (fs_copy p q).
Proof. prim_frame fs_copy. Qed.
Lemma keeps_repos_fs_copy p q : keeps_repos (fs_copy p q).
Proof. prim_frame fs_copy. Qed.
Lemma keeps_cwd_fs_write p q : keeps_cwd (fs_write p q).
Proof. prim_frame fs_write. Qed.
Lemma keeps_repos_fs_write p q : keeps_repos (fs_write p q).
Proof. prim_frame fs_write. Qed.
Lemma keeps_cwd_repo_init b p : keeps_cwd (repo_init b p).
Proof. prim_frame repo_init. Qed.
Lemma keeps_cwd_repo_open b p : keeps_cwd (repo_open b p).
Proof. prim_frame repo_open. Qed.
Lemma keeps_repos_repo_open b p : keeps_repos (repo_open b p).
Proof. prim_frame repo_open. Qed.
Lemma keeps_cwd_modify_repo r f : keeps_cwd (modify_repo r f).
Proof. prim_frame modify_repo. Qed.
Lemma keeps_cwd_find_remote r n : keeps_cwd (find_remote r n).
Proof. prim_frame find_remote. Qed.
Lemma keeps_repos_find_remote r n : keeps_repos (find_remote r n).
Proof. prim_frame find_remote. Qed.
Lemma keeps_cwd_remote_set_url r n u : keeps_cwd (remote_set_url r n u).
Proof. intros w. unfold remote_set_url. rewrite keeps_cwd_modify_repo. reflexivity. Qed.
Lemma keeps_cwd_remote_create r n u : keeps_cwd (remote_create r n u).
Proof. intros w. unfold remote_create. rewrite keeps_cwd_modify_repo. reflexivity. Qed.
Lemma keeps_cwd_remote_set_pushurl r n u : keeps_cwd (remote_set_pushurl r n u).
Proof. intros w. unfold remote_set_pushurl. rewrite keeps_cwd_modify_repo. reflexivity. Qed.
Lemma keeps_cwd_checkout_tree r c : keeps_cwd (checkout_tree r c).
Proof. intros w. unfold checkout_tree. rewrite keeps_cwd_modify_repo. reflexivity. Qed.
Lemma keeps_cwd_set_head_detached r c : keeps_cwd (set_head_detached r c).
Proof. intros w. unfold set_head_detached. rewrite keeps_cwd_modify_repo. reflexivity. Qed.
Lemma keeps_cwd_remote_fetch E r n rs o : keeps_cwd (remote_fetch E r n rs o).
Proof. prim_frame remote_fetch. Qed.
Lemma keeps_repos_remote_fetch E r n rs o : keeps_repos (remote_fetch E r n rs o).
Proof. prim_frame remote_fetch. Qed.
Lemma keeps_cwd_git_output E args : keeps_cwd (git_output E args).
Proof. prim_frame git_output. Qed.
Lemma keeps_repos_git_output E args : keeps_repos (git_output E args).
Proof. prim_frame git_output. Qed.
Lemma keeps_cwd_parse_revision E r n b : keeps_cwd (parse_revision E r n b).
Proof. prim_frame parse_revision. Qed.
Lemma keeps_repos_parse_revision E r n b : keeps_repos (parse_revision E r n b).
Proof. prim_frame parse_revision. Qed.

Lemma keeps_cwd_if {A} (b : bool) (m1 m2 : M A) :
  keeps_cwd m1 -> keeps_cwd m2 -> keeps_cwd (if b then m1 else m2).
Proof. by destruct b. Qed.
Lemma keeps_repos_if {A} (b : bool) (m1 m2 : M A) :
  keeps_repos m1 -> keeps_repos m2 -> keeps_repos (if b then m1 else m2).
Proof. by destruct b. Qed.

#[local] Hint Resolve keeps_cwd_if keeps_repos_if
  keeps_cwd_fs_exists keeps_repos_fs_exists keeps_cwd_remove_dir_all keeps_repos_remove_dir_all
  keeps_cwd_create_dir_all keeps_repos_create_dir_all keeps_cwd_read_dir keeps_repos_read_dir
  keeps_cwd_fs_copy keeps_repos_fs_copy keeps_cwd_fs_write keeps_repos_fs_write
  keeps_cwd_repo_init keeps_cwd_repo_open keeps_repos_repo_open keeps_cwd_modify_repo
  keeps_cwd_find_remote keeps_repos_find_remote keeps_cwd_remote_set_url keeps_cwd_remote_create
  keeps_cwd_remote_set_pushurl keeps_cwd_checkout_tree keeps_cwd_set_head_detached
  keeps_cwd_remote_fetch keeps_repos_remote_fetch keeps_cwd_git_output keeps_repos_git_output
  keeps_cwd_parse_revision keeps_repos_parse_revision : frame.

Ltac frame :=
  repeat first [ progress intros | simple apply keeps_cwd_bind | simple apply keeps_repos_bind
               | simple apply keeps_cwd_context | simple apply keeps_repos_context
               | simple apply keeps_cwd_if | simple apply keeps_repos_if ];
  auto with frame.

Lemma keeps_cwd_copy_entries dst es : keeps_cwd (copy_entries dst es).
Proof. induction es; simpl; frame. Qed.
Lemma keeps_repos_copy_entries dst es : keeps_repos (copy_entries dst es).
Proof. induction es; simpl; frame. Qed.
#[local] Hint Resolve keeps_cwd_copy_entries keeps_repos_copy_entries : frame.

Lemma keeps_cwd_replace_dir src dst : keeps_cwd (replace_dir src dst).
Proof. unfold replace_dir. frame. Qed.
Lemma keeps_repos_replace_dir src dst : keeps_repos (replace_dir src dst).
Proof. unfold replace_dir. frame. Qed.
Lemma keeps_cwd_git_path p : keeps_cwd (git_path p).
Proof. unfold git_path. frame. Qed.
Lemma keeps_repos_git_path p : keeps_repos (git_path p).
Proof. unfold git_path. frame. Qed.
#[local] Hint Resolve keeps_cwd_replace_dir keeps_repos_replace_dir
  keeps_cwd_git_path keeps_repos_git_path : frame.

Lemma keeps_cwd_clone_alternates src dst bare : keeps_cwd (clone_alternates src dst bare).
Proof. unfold clone_alternates, init_bare, init. cbv zeta. frame. Qed.
Lemma keeps_cwd_update_remote_refs self rc project path :
  keeps_cwd (update_remote_refs self rc project path).
Proof. unfold update_remote_refs. cbv zeta. frame. Qed.
Lemma keeps_repos_update_remote_refs self rc project path :
  keeps_repos (update_remote_refs self rc project path).
Proof. unfold update_remote_refs. cbv zeta. frame. Qed.
Lemma keeps_cwd_open_or_create_bare_repo p : keeps_cwd (open_or_create_bare_repo p).
Proof.
  intros w. unfold open_or_create_bare_repo.
  pose proof (keeps_cwd_repo_open true p w) as H1. unfold open_bare.
  destruct (repo_open true p w) as [[?|?] w1]; simpl in *; [done|].
  rewrite keeps_cwd_context; [done|]. apply keeps_cwd_repo_init.
Qed.
#[local] Hint Resolve keeps_cwd_clone_alternates keeps_cwd_update_remote_refs
  keeps_repos_update_remote_refs keeps_cwd_open_or_create_bare_repo : frame.

(* ------------------------------------------------------------------ *)
(** ** Creating repositories *)

Lemma repo_init_Ok bare p w r w' :
  repo_init bare p w = (Ok r, w') ->
  r = p /\ p <> "" /\ w_cwd w' = w_cwd w /\
  w_repos w' = match w_repos w !! resolve (w_cwd w) p with
               | Some _ => w_repos w
               | None => <[resolve (w_cwd w) p := fresh_repo bare]> (w_repos w)
               end.
Proof.
  unfold repo_init, key_of. simpl.
  destruct (bool_decide (p = "")) eqn:Hp; [discriminate|].
  apply bool_decide_eq_false_1 in Hp.
  case_match; [|discriminate]. intros Heq. injection Heq as <- <-.
  simpl. done.
Qed.

Lemma fs_write_Ok p c w u w' :
  fs_write p c w = (Ok u, w') ->
  p <> "" /\ w_cwd w' = w_cwd w /\ w_repos w' = w_repos w /\
  w_fs w' = <[resolve (w_cwd w) p := NFile c]> (w_fs w).
Proof.
  unfold fs_write, key_of. simpl.
  destruct (bool_decide (p = "")) eqn:Hp; [discriminate|].
  apply bool_decide_eq_false_1 in Hp.
  case_match; [|discriminate]. intros Heq. injection Heq as _ <-. done.
Qed.

Lemma clone_alternates_Ok src dst bare w r w' :
  clone_alternates src dst bare w = (Ok r, w') ->
  r = dst /\ dst <> "" /\ w_cwd w' = w_cwd w /\
  w_repos w' = match w_repos w !! resolve (w_cwd w) dst with
               | Some _ => w_repos w
               | None => <[resolve (w_cwd w) dst := fresh_repo bare]> (w_repos w)
               end /\
  w_fs w' !! resolve (w_cwd w) (alternates_path dst bare) =
    Some (NFile (path_join src "objects" +:+ newline)).
Proof.
  intros H. unfold clone_alternates in H.
  stepn H a1 w1 Hm. apply context_Ok in Hm.
  assert (Hi : repo_init bare dst w = (Ok a1, w1)) by (destruct bare; exact Hm). clear Hm.
  apply repo_init_Ok in Hi as (-> & Hd & Hcwd1 & Hrep1).
  stepn H a2 w2 Hm. apply context_Ok in Hm.
  apply fs_write_Ok in Hm as (_ & Hcwd2 & Hrep2 & Hfs2).
  unfold ret in H. injection H as <- <-.
  split_and!; try done; [congruence|congruence|].
  rewrite Hfs2, Hcwd1. apply lookup_insert_eq.
Qed.

Lemma path_join_absolute a b :
  starts_with_slash a = true -> starts_with_slash b = false ->
  starts_with_slash (path_join a b) = true.
Proof.
  intros Ha Hb. unfold path_join. rewrite Hb.
  rewrite bool_decide_eq_false_2 by (intros ->; discriminate).
  assert (a <> "") by (intros ->; discriminate).
  destruct (ends_with_slash a); by rewrite starts_app.
Qed.

(** C6 (corrected). For every repository created by
    [clone_alternates src dst bare], the file [dst/objects/info/alternates]
    (bare) or [dst/.git/objects/info/alternates] (non-bare) holds exactly
    [src] joined with ["objects"], followed by one newline; that text is an
    absolute path when [src] is. *)
Theorem clone_alternates_pointer src dst bare w r w' :
  clone_alternates src dst bare w = (Ok r, w') ->
  resolve (w_cwd w) (alternates_path dst bare) =
    resolve (w_cwd w) (if bare then dst else path_join dst ".git") ++ ["objects"; "info"; "alternates"] /\
  w_fs w' !! resolve (w_cwd w) (alternates_path dst bare) =
    Some (NFile (path_join src "objects" +:+ newline)) /\
  (starts_with_slash src = true -> starts_with_slash (path_join src "objects" +:+ newline) = true).
Proof.
  intros H. apply clone_alternates_Ok in H as (_ & Hd & _ & _ & Hfs). split_and!.
  - unfold alternates_path.
    assert (Hg : (if bare then dst else path_join dst ".git") <> "")
      by (destruct bare; [done|by apply path_join_nonempty]).
    rewrite !resolve_join; try done; try (apply path_join_nonempty; discriminate).
    by rewrite <- !app_assoc.
  - exact Hfs.
  - intros Hs. rewrite starts_app by (apply path_join_nonempty; discriminate).
    by apply path_join_absolute.
Qed.

Lemma clone_alternates_pointer_witness :
  clone_alternates "/depot/objects/p.git" "/r" true empty_world =
    (Ok "/r", snd (clone_alternates "/depot/objects/p.git" "/r" true empty_world)) /\
  w_fs (snd (clone_alternates "/depot/objects/p.git" "/r" true empty_world))
    !! resolve (w_cwd empty_world) (alternates_path "/r" true) =
    Some (NFile ("/depot/objects/p.git/objects" +:+ newline)).
Proof.
  assert (H : clone_alternates "/depot/objects/p.git" "/r" true empty_world =
    (Ok "/r", snd (clone_alternates "/depot/objects/p.git" "/r" true empty_world)))
    by (vm_compute; reflexivity).
  split; [exact H|].
  destruct (clone_alternates_pointer _ _ _ _ _ _ H) as (_ & Hf & _). exact Hf.
Defined.

(** C6 counterexample: with a depot configured by a relative path, the ref
    mirror created by [fetch_repo] points at its objects by a relative path. *)
Lemma fetch_repo_relative_alternates :
  fst (fetch_repo sample_env rel_depot sample_remote "p" "main" None empty_world) = Ok tt /\
  w_fs (snd (fetch_repo sample_env rel_depot sample_remote "p" "main" None empty_world))
    !! ["home"; "depot"; "refs"; "origin"; "p.git"; "objects"; "info"; "alternates"] =
    Some (NFile ("depot/objects/p.git/objects" +:+ newline)) /\
  starts_with_slash "depot/objects/p.git/objects" = false.
Proof. split_and!; vm_compute; reflexivity. Qed.

Lemma modify_repo_Ok repo f w u w' :
  modify_repo repo f w = (Ok u, w') ->
  exists r r', w_repos w !! resolve (w_cwd w) repo = Some r /\ f r = Ok r' /\
    w_repos w' = <[resolve (w_cwd w) repo := r']> (w_repos w) /\ w_cwd w' = w_cwd w.
Proof.
  unfold modify_repo. intros Heq.
  destruct (decide (repo = "")) as [Hp|Hp].
  { unfold key_of in Heq. rewrite bool_decide_eq_true_2 in Heq by done. discriminate. }
  rewrite key_of_Some in Heq by done.
  destruct (w_repos w !! resolve (w_cwd w) repo) as [r|] eqn:Hr; [|discriminate].
  destruct (f r) as [r'|e] eqn:Hf; [|discriminate].
  injection Heq as _ <-. exists r, r'. done.
Qed.

Lemma clone_repo_Ok E self rc project branch path w w' :
  w_repos w !! resolve (w_cwd w) path = None ->
  clone_repo E self rc project branch path w = (Ok tt, w') ->
  exists w4 c w5,
    (repo <- clone_alternates (objects_mirror self project) path false ;;
     context "failed to create remote"
       (remote_create repo (rc_name rc) (refs_mirror self (rc_name rc) project)) ;;;
     context "failed to set remote pushurl"
       (remote_set_pushurl repo (rc_name rc) (rc_url rc +:+ project)) ;;;
     update_remote_refs self rc project path ;;;
     ret repo) w = (Ok path, w4) /\
    parse_revision E path (rc_name rc) branch w4 = (Ok c, w5) /\
    (context ("failed to checkout HEAD at " +:+ dbg (path_join path ".git/"))
       (checkout_tree path c) ;;;
     context ("failed to set HEAD to " +:+ dbg (path_join path ".git/"))
       (set_head_detached path c) ;;;
     ret tt) w5 = (Ok tt, w') /\
    w_cwd w' = w_cwd w /\
    w_repos w' !! resolve (w_cwd w) path =
      Some {| r_bare := false;
              r_remotes := <[rc_name rc := {| rem_url := refs_mirror self (rc_name rc) project;
                                              rem_pushurl := Some (rc_url rc +:+ project) |}]> ∅;
              r_head := HeadDetached c; r_checkout := Some c |}.
Proof.
  intros Hnone H. unfold clone_repo in H.
  stepn H a1 w1 Hm. pose proof Hm as E1.
  apply clone_alternates_Ok in Hm as (-> & Hp & Hcwd1 & Hrep1 & _).
  rewrite Hnone in Hrep1.
  stepn H a2 w2 Hm. pose proof Hm as E2. apply context_Ok in Hm. unfold remote_create in Hm.
  apply modify_repo_Ok in Hm as (r1 & r1' & Hr1 & Hf1 & Hrep2 & Hcwd2). simpl in Hr1, Hrep2, Hcwd2.
  rewrite Hrep1, Hcwd1, lookup_insert_eq in Hr1. injection Hr1 as <-.
  simpl in Hf1. rewrite lookup_empty in Hf1. injection Hf1 as <-.
  stepn H a3 w3 Hm. pose proof Hm as E3. apply context_Ok in Hm. unfold remote_set_pushurl in Hm.
  apply modify_repo_Ok in Hm as (r2 & r2' & Hr2 & Hf2 & Hrep3 & Hcwd3). simpl in Hr2, Hrep3, Hcwd3.
  rewrite Hrep2, Hcwd2, Hcwd1, lookup_insert_eq in Hr2. injection Hr2 as <-.
  simpl in Hf2. rewrite lookup_insert_eq in Hf2. injection Hf2 as <-.
  stepn H a4 w4 Hm. pose proof Hm as E4.
  pose proof (keeps_repos_update_remote_refs self rc project path w3) as Hrep4.
  pose proof (keeps_cwd_update_remote_refs self rc project path w3) as Hcwd4.
  rewrite Hm in Hrep4, Hcwd4. simpl in Hrep4, Hcwd4. clear Hm.
  stepn H c w5 Hm. pose proof Hm as E5. pose proof H as Esuf.
  unfold parse_revision in Hm. injection Hm as Hc <-.
  stepn H a6 w6 Hm. apply context_Ok in Hm. unfold checkout_tree in Hm.
  apply modify_repo_Ok in Hm as (r3 & r3' & Hr3 & Hf3 & Hrep6 & Hcwd6). simpl in Hr3, Hrep6, Hcwd6.
  rewrite Hrep4, Hrep3, Hrep2, Hcwd4, Hcwd3, Hcwd2, Hcwd1, lookup_insert_eq in Hr3. injection Hr3 as <-.
  simpl in Hf3. injection Hf3 as <-.
  stepn H a7 w7 Hm. apply context_Ok in Hm. unfold set_head_detached in Hm.
  apply modify_repo_Ok in Hm as (r4 & r4' & Hr4 & Hf4 & Hrep7 & Hcwd7). simpl in Hr4, Hrep7, Hcwd7.
  rewrite Hrep6, Hcwd6, Hcwd4, Hcwd3, Hcwd2, Hcwd1, lookup_insert_eq in Hr4. injection Hr4 as <-.
  simpl in Hf4. injection Hf4 as <-.
  unfold ret in H. injection H as <-.
  exists w4, c, (log_action (AParseRevision path (rc_name rc) branch) w4). split_and!.
  - rewrite (bind_Ok_eq _ _ _ _ _ E1). cbv beta.
    rewrite (bind_Ok_eq _ _ _ _ _ E2). cbv beta.
    rewrite (bind_Ok_eq _ _ _ _ _ E3). cbv beta.
    rewrite (bind_Ok_eq _ _ _ _ _ E4). reflexivity.
  - exact E5.
  - exact Esuf.
  - by rewrite Hcwd7, Hcwd6, Hcwd4, Hcwd3, Hcwd2, Hcwd1.
  - rewrite Hrep7, Hcwd6, Hcwd4, Hcwd3, Hcwd2, Hcwd1, lookup_insert_eq.
    by rewrite insert_insert_eq.
Qed.

(** C7 (confirmed). For every successful [clone_repo remote_config project
    branch path] at a path where no repository was registered, the run goes
    through the four steps before the revision lookup to a state [w4],
    [util::parse_revision] for [branch] returns commit [c] in that state,
    and the two remaining steps lead from there to the final state; in the
    final state the repository at [path] is non-bare, its remote
    [remote_config.name] has the ref-mirror path as fetch URL and the
    remote's URL followed by the project as push URL, its HEAD is detached
    (not on a branch) at that commit [c], and the tree of [c] is checked
    out. *)
Theorem clone_repo_remote_and_head E self rc project branch path w w' :
  w_repos w !! resolve (w_cwd w) path = None ->
  clone_repo E self rc project branch path w = (Ok tt, w') ->
  exists w4 c w5 r,
    (repo <- clone_alternates (objects_mirror self project) path false ;;
     context "failed to create remote"
       (remote_create repo (rc_name rc) (refs_mirror self (rc_name rc) project)) ;;;
     context "failed to set remote pushurl"
       (remote_set_pushurl repo (rc_name rc) (rc_url rc +:+ project)) ;;;
     update_remote_refs self rc project path ;;;
     ret repo) w = (Ok path, w4) /\
    parse_revision E path (rc_name rc) branch w4 = (Ok c, w5) /\
    (context ("failed to checkout HEAD at " +:+ dbg (path_join path ".git/"))
       (checkout_tree path c) ;;;
     context ("failed to set HEAD to " +:+ dbg (path_join path ".git/"))
       (set_head_detached path c) ;;;
     ret tt) w5 = (Ok tt, w') /\
    w_repos w' !! resolve (w_cwd w') path = Some r /\
    r_bare r = false /\
    r_remotes r !! rc_name rc =
      Some {| rem_url := refs_mirror self (rc_name rc) project;
              rem_pushurl := Some (rc_url rc +:+ project) |} /\
    r_head r = HeadDetached c /\
    r_checkout r = Some c.
Proof.
  intros Hnone H.
  apply clone_repo_Ok in H as (w4 & c & w5 & Hpre & Hc & Hsuf & Hcwd & Hr); [|done].
  rewrite Hcwd. eexists w4, c, w5, _. split_and!; [exact Hpre|exact Hc|exact Hsuf|exact Hr|done| |done|done].
  simpl. apply lookup_insert_eq.
Qed.

Lemma clone_repo_remote_and_head_witness :
  w_repos fetched_world !! resolve (w_cwd fetched_world) "/work" = None /\
  clone_repo sample_env sample_depot sample_remote "p" "main" "/work" fetched_world =
    (Ok tt, snd (clone_repo sample_env sample_depot sample_remote "p" "main" "/work" fetched_world)) /\
  exists w4 c w5 r,
    (repo <- clone_alternates (objects_mirror sample_depot "p") "/work" false ;;
     context "failed to create remote"
       (remote_create repo "origin" (refs_mirror sample_depot "origin" "p")) ;;;
     context "failed to set remote pushurl"
       (remote_set_pushurl repo "origin" ("https://host/" +:+ "p")) ;;;
     update_remote_refs sample_depot sample_remote "p" "/work" ;;;
     ret repo) fetched_world = (Ok "/work", w4) /\
    parse_revision sample_env "/work" "origin" "main" w4 = (Ok c, w5) /\
    (context ("failed to checkout HEAD at " +:+ dbg (path_join "/work" ".git/"))
       (checkout_tree "/work" c) ;;;
     context ("failed to set HEAD to " +:+ dbg (path_join "/work" ".git/"))
       (set_head_detached "/work" c) ;;;
     ret tt) w5 =
      (Ok tt, snd (clone_repo sample_env sample_depot sample_remote "p" "main" "/work" fetched_world)) /\
    w_repos (snd (clone_repo sample_env sample_depot sample_remote "p" "main" "/work" fetched_world))
      !! resolve (w_cwd (snd (clone_repo sample_env sample_depot sample_remote "p" "main" "/work"
                                fetched_world))) "/work" = Some r /\
    r_bare r = false /\
    r_remotes r !! "origin" =
      Some {| rem_url := refs_mirror sample_depot "origin" "p";
              rem_pushurl := Some ("https://host/" +:+ "p") |} /\
    r_head r = HeadDetached c /\ r_checkout r = Some c.
Proof.
  assert (H1 : w_repos fetched_world !! resolve (w_cwd fetched_world) "/work" = None)
    by (vm_compute; reflexivity).
  assert (H2 : clone_repo sample_env sample_depot sample_remote "p" "main" "/work" fetched_world =
    (Ok tt, snd (clone_repo sample_env sample_depot sample_remote "p" "main" "/work" fetched_world)))
    by (vm_compute; reflexivity).
  split_and!; [exact H1|exact H2|].
  exact (clone_repo_remote_and_head _ _ _ _ _ _ _ _ H1 H2).
Defined.

(* ------------------------------------------------------------------ *)
(** ** Synchronising the ref mirror *)

Lemma path_join_nonempty_l a b : a <> "" -> path_join a b <> "".
Proof.
  intros Ha. unfold path_join.
  destruct (starts_with_slash b) eqn:Hb; [destruct b; discriminate|].
  rewrite bool_decide_eq_false_2 by done.
  destruct a; [done|]. destruct (ends_with_slash _); discriminate.
Qed.

Lemma mkdirs_only_dirs pre rest fs fs' q :
  mkdirs pre rest fs = Some fs' -> fs' !! q = fs !! q \/ fs' !! q = Some NDir.
Proof.
  revert pre fs. induction rest as [|c r IH]; intros pre fs H; simpl in H.
  - injection H as <-. by left.
  - destruct (fs !! (pre ++ [c])) as [[contents|]|] eqn:Hq; [discriminate|by apply (IH _ _ H)|].
    destruct (IH _ _ H) as [Hx|Hx]; [|by right].
    rewrite Hx. destruct (decide (q = pre ++ [c])) as [->|Hne].
    + right. apply lookup_insert_eq.
    + left. rewrite lookup_insert_ne by congruence. done.
Qed.

Lemma mkdirs_all_only_dirs ks fs fs' q :
  mkdirs_all ks fs = Some fs' -> fs' !! q = fs !! q \/ fs' !! q = Some NDir.
Proof.
  revert fs. induction ks as [|k ks IH]; intros fs H; simpl in H.
  - injection H as <-. by left.
  - destruct (mkdirs [] k fs) as [fs1|] eqn:H1; [|discriminate].
    destruct (IH _ H) as [Hx|Hx]; [|by right]. rewrite Hx. by apply (mkdirs_only_dirs [] k).
Qed.

Lemma repo_init_fs bare p w r w' q :
  repo_init bare p w = (Ok r, w') -> w_fs w' !! q = w_fs w !! q \/ w_fs w' !! q = Some NDir.
Proof.
  unfold repo_init. cbv zeta.
  destruct (key_of _ p) as [k|]; [|intros Heq; discriminate].
  destruct (mkdirs_all _ _) as [fs'|] eqn:Hm; [|intros Heq; discriminate].
  intros Heq. injection Heq as _ <-. exact (mkdirs_all_only_dirs _ _ _ _ Hm).
Qed.

(** Besides directories, [clone_alternates] writes one file: the alternates file. *)
Lemma clone_alternates_fs src dst bare w r w' q :
  clone_alternates src dst bare w = (Ok r, w') ->
  w_fs w' !! q = w_fs w !! q \/ w_fs w' !! q = Some NDir \/
  q = resolve (w_cwd w) (alternates_path dst bare).
Proof.
  intros H. unfold clone_alternates in H. unfold alternates_path. cbv zeta in H |- *.
  stepn H a1 w1 Hm. apply context_Ok in Hm.
  assert (Hi : repo_init bare dst w = (Ok a1, w1)) by (destruct bare; exact Hm). clear Hm.
  pose proof (repo_init_Ok _ _ _ _ _ Hi) as (_ & _ & Hcwd1 & _).
  stepn H a2 w2 Hm. apply context_Ok in Hm.
  apply fs_write_Ok in Hm as (_ & _ & _ & Hfs2).
  unfold ret in H. injection H as <- <-.
  rewrite Hfs2, Hcwd1.
  destruct (decide (q = resolve (w_cwd w) (path_join (path_join (path_join
    (if bare then dst else path_join dst ".git") "objects") "info") "alternates"))) as [->|Hne];
    [by right; right|].
  rewrite lookup_insert_ne by congruence.
  destruct (repo_init_fs _ _ _ _ _ q Hi); [by left|by right; left].
Qed.

Lemma open_or_create_bare_repo_Ok p w r w' :
  open_or_create_bare_repo p w = (Ok r, w') -> r = p.
Proof.
  unfold open_or_create_bare_repo, open_bare.
  destruct (repo_open true p w) as [[h|e] w1] eqn:Ho.
  - intros Heq. injection Heq as <- _. revert Ho. unfold repo_open. simpl.
    repeat case_match; intros Ho; congruence.
  - intros Hc. apply context_Ok in Hc. unfold init_bare in Hc. by apply repo_init_Ok in Hc as [-> _].
Qed.

Lemma open_Err p w e w' :
  p <> "" -> open p w = (Err e, w') ->
  w' = log_action (AOpen p) w /\ w_repos w !! resolve (w_cwd w) p = None.
Proof.
  intros Hp. unfold open, repo_open. cbv zeta. rewrite key_of_Some by done. simpl.
  destruct (w_repos w !! resolve (w_cwd w) p) eqn:Hr; [simpl; discriminate|].
  intros Heq. injection Heq as _ <-. done.
Qed.

(** C8 (confirmed). After every successful [fetch_repo], right after the
    fetch (the last logged action of world [wa] is the native fetch or the
    [git fetch] spawn), the ref mirror is handled as follows: either it
    opens as a repository, or it is not a registered repository and is
    created by [clone_alternates objects_path refs_path true], which
    registers a fresh bare repository, writes the alternates pointer to the
    object mirror's objects, and otherwise only creates directories (no
    object is copied). Then [replace_dir] replaces the ref mirror's
    [refs/heads] with the object mirror's [refs/remotes/<remote>] and its
    result is the result of [fetch_repo]: in a well-formed tree where
    neither path contains the other, the source is a directory of files,
    the direct entries of [refs/heads] become exactly those of the source,
    and nothing lies deeper (no old ref file is kept). *)
Theorem fetch_repo_syncs_ref_mirror E self rc project branch depth w w' :
  fetch_repo E self rc project branch depth w = (Ok tt, w') ->
  let objects_path := objects_mirror self project in
  let refs_path := refs_mirror self (rc_name rc) project in
  let objects_refs := path_join (path_join (path_join objects_path "refs") "remotes") (rc_name rc) in
  let refs_refs := path_join (path_join refs_path "refs") "heads" in
  exists wa wb,
    (exists l, w_log wa = l ++ [AFetchNative objects_path (rc_name rc) [branch] native_fetch_options] \/
               w_log wa = l ++ [ASpawn "git" (git_fetch_args objects_path (rc_name rc) branch depth)]) /\
    ((exists h, open refs_path wa = (Ok h, wb)) \/
     (exists e wa', open refs_path wa = (Err e, wa') /\
        w_repos wa' !! resolve (w_cwd wa') refs_path = None /\
        clone_alternates objects_path refs_path true wa' = (Ok refs_path, wb) /\
        w_repos wb !! resolve (w_cwd wa') refs_path = Some (fresh_repo true) /\
        w_fs wb !! resolve (w_cwd wa') (alternates_path refs_path true) =
          Some (NFile (path_join objects_path "objects" +:+ newline)) /\
        (forall q, w_fs wb !! q <> w_fs wa' !! q ->
           w_fs wb !! q = Some NDir \/ q = resolve (w_cwd wa') (alternates_path refs_path true)))) /\
    replace_dir objects_refs refs_refs wb = (Ok tt, w') /\
    (wf_fs (w_fs wb) ->
     ~ resolve (w_cwd wb) objects_refs `prefix_of` resolve (w_cwd wb) refs_refs ->
     ~ resolve (w_cwd wb) refs_refs `prefix_of` resolve (w_cwd wb) objects_refs ->
     lookup_node (w_fs wb) (resolve (w_cwd wb) objects_refs) = Some NDir /\
     (forall n v, w_fs wb !! (resolve (w_cwd wb) objects_refs ++ [n]) = Some v ->
                  exists c, v = NFile c) /\
     (forall n, w_fs w' !! (resolve (w_cwd wb) refs_refs ++ [n]) =
                w_fs wb !! (resolve (w_cwd wb) objects_refs ++ [n])) /\
     (forall n r, r <> [] -> w_fs w' !! (resolve (w_cwd wb) refs_refs ++ [n] ++ r) = None)).
Proof.
  intros H objects_path refs_path objects_refs refs_refs.
  assert (Hrp : refs_path <> "").
  { unfold refs_path, refs_mirror. apply path_join_nonempty. destruct project; discriminate. }
  assert (Hs : objects_refs <> "").
  { unfold objects_refs. apply path_join_nonempty_l, path_join_nonempty. discriminate. }
  assert (Hd : refs_refs <> "") by (unfold refs_refs; apply path_join_nonempty; discriminate).
  unfold fetch_repo in H. cbv zeta in H.
  stepn H a0 w0 Hm. clear Hm.
  stepn H a1 w1 Hm. clear Hm.
  stepn H a2 w2 Hm. apply open_or_create_bare_repo_Ok in Hm as ->.
  stepn H a3 w3 Hm. clear Hm.
  stepn H a4 w4 Hm. clear Hm.
  stepn H a5 wa Hm.
  assert (Hfetch : exists l,
    w_log wa = l ++ [AFetchNative objects_path (rc_name rc) [branch] native_fetch_options] \/
    w_log wa = l ++ [ASpawn "git" (git_fetch_args objects_path (rc_name rc) branch depth)]).
  { destruct (scheme_supported (url_scheme a4) && bool_decide (depth = None)).
    - apply context_Ok in Hm. unfold remote_fetch in Hm. cbv zeta in Hm.
      destruct (env_fetch E _ _ _ _ _) as [r fs'] in Hm. injection Hm as _ <-.
      exists (w_log w4). by left.
    - stepn Hm o wg Hg. apply context_Ok in Hg. unfold git_output in Hg. cbv zeta in Hg.
      destruct (env_git E _ _) as [r fs'] in Hg. injection Hg as _ <-.
      destruct (out_success o); [|discriminate]. injection Hm as _ <-.
      exists (w_log w4). by right. }
  clear Hm.
  stepn H a6 wb Hm.
  exists wa, wb. split_and!.
  - exact Hfetch.
  - destruct (open (refs_mirror self (rc_name rc) project) wa) as [[h|e] wa'] eqn:Ho.
    + left. injection Hm as <- <-. eauto.
    + right. pose proof (open_Err _ _ _ _ Hrp Ho) as [-> Hnone].
      pose proof (clone_alternates_Ok _ _ _ _ _ _ Hm) as (-> & _ & _ & Hrep & Hfs).
      exists e, (log_action (AOpen refs_path) wa). split_and!; try done.
      * simpl in Hrep |- *. fold refs_path in Hrep. rewrite Hnone in Hrep. rewrite Hrep. apply lookup_insert_eq.
      * intros q Hq. destruct (clone_alternates_fs _ _ _ _ _ _ q Hm) as [?|[?|?]];
          [contradiction|by left|by right].
  - exact H.
  - intros Hwf Hsd Hds.
    destruct (replace_dir_Ok objects_refs refs_refs wb w' Hs Hd
                (wf_fs_entries _ _ Hwf) (wf_fs_absent _ _ Hwf) Hsd Hds H)
      as (_ & _ & Hks & Hfiles & Hpt).
    split_and!; try done.
    + intros n. rewrite Hpt. apply replaced_child.
    + intros n r Hr. rewrite Hpt. by apply replaced_deeper.
Qed.

Lemma fetch_repo_syncs_ref_mirror_witness :
  fetch_repo sample_env sample_depot sample_remote "p" "main" None empty_world =
    (Ok tt, fetched_world) /\
  let objects_path := objects_mirror sample_depot "p" in
  let refs_path := refs_mirror sample_depot "origin" "p" in
  let objects_refs := path_join (path_join (path_join objects_path "refs") "remotes") "origin" in
  let refs_refs := path_join (path_join refs_path "refs") "heads" in
  exists wa wb,
    (exists l, w_log wa = l ++ [AFetchNative objects_path "origin" ["main"] native_fetch_options] \/
               w_log wa = l ++ [ASpawn "git" (git_fetch_args objects_path "origin" "main" None)]) /\
    ((exists h, open refs_path wa = (Ok h, wb)) \/
     (exists e wa', open refs_path wa = (Err e, wa') /\
        w_repos wa' !! resolve (w_cwd wa') refs_path = None /\
        clone_alternates objects_path refs_path true wa' = (Ok refs_path, wb) /\
        w_repos wb !! resolve (w_cwd wa') refs_path = Some (fresh_repo true) /\
        w_fs wb !! resolve (w_cwd wa') (alternates_path refs_path true) =
          Some (NFile (path_join objects_path "objects" +:+ newline)) /\
        (forall q, w_fs wb !! q <> w_fs wa' !! q ->
           w_fs wb !! q = Some NDir \/ q = resolve (w_cwd wa') (alternates_path refs_path true)))) /\
    replace_dir objects_refs refs_refs wb = (Ok tt, fetched_world) /\
    (wf_fs (w_fs wb) ->
     ~ resolve (w_cwd wb) objects_refs `prefix_of` resolve (w_cwd wb) refs_refs ->
     ~ resolve (w_cwd wb) refs_refs `prefix_of` resolve (w_cwd wb) objects_refs ->
     lookup_node (w_fs wb) (resolve (w_cwd wb) objects_refs) = Some NDir /\
     (forall n v, w_fs wb !! (resolve (w_cwd wb) objects_refs ++ [n]) = Some v ->
                  exists c, v = NFile c) /\
     (forall n, w_fs fetched_world !! (resolve (w_cwd wb) refs_refs ++ [n]) =
                w_fs wb !! (resolve (w_cwd wb) objects_refs ++ [n])) /\
     (forall n r, r <> [] -> w_fs fetched_world !! (resolve (w_cwd wb) refs_refs ++ [n] ++ r) = None)).
Proof.
  assert (H : fetch_repo sample_env sample_depot sample_remote "p" "main" None empty_world =
                (Ok tt, fetched_world)) by (vm_compute; reflexivity).
  split; [exact H|].
  exact (fetch_repo_syncs_ref_mirror _ _ _ _ _ _ _ _ H).
Defined.

(* ------------------------------------------------------------------ *)
(** ** Clone targets *)

Lemma length_split_on s : length (split_on slash s) = S (count_slash s).
Proof.
  induction s as [|a r IH]; simpl; [done|].
  case_bool_decide; simpl; [by rewrite IH|].
  destruct (split_on slash r) eqn:Hs; [by apply split_on_nonempty in Hs|]. simpl in *. done.
Qed.

Lemma split_on_one_slash r b :
  count_slash r = 0 -> count_slash b = 0 -> split_on slash (r +:+ "/" +:+ b) = [r; b].
Proof.
  intros Hr Hb. change ("/" +:+ b) with (String slash b).
  rewrite split_on_app, split_on_no_slash, split_on_no_slash by done. reflexivity.
Qed.

Lemma create_dir_all_dir p w :
  p <> "" ->
  (forall q c, q <> [] -> q `prefix_of` resolve (w_cwd w) p -> w_fs w !! q <> Some (NFile c)) ->
  exists w', create_dir_all p w = (Ok tt, w') /\ w_cwd w' = w_cwd w /\
             lookup_node (w_fs w') (resolve (w_cwd w) p) = Some NDir.
Proof.
  intros Hp Hno. unfold create_dir_all. cbv zeta. rewrite key_of_Some by done. simpl.
  set (k := resolve (w_cwd w) p) in *.
  destruct (mkdirs_ok [] k (w_fs w)) as [fs' Hfs'].
  { intros q c Hin. apply in_mk_nil_pre in Hin as [Hq Hpre]. by apply Hno. }
  rewrite Hfs'. eexists. split_and!; [reflexivity|reflexivity|]. simpl.
  destruct k as [|c r] eqn:Hk; [done|]. simpl.
  apply (mkdirs_Some _ _ _ _ Hfs'). apply in_mk_nil_pre. done.
Qed.

(** C9 (confirmed). A target without ['/'] names a remote and the branch
    ["master"]; a target [<remote>/<branch>] (neither part containing ['/'])
    names that remote and branch; a target with two or more ['/'] (three or
    more components) is rejected. Without a directory argument, [cmd_clone]
    creates the directory [<branch>] (resolved against the working
    directory) and passes it to the tree clone as the tree root. *)
Theorem cmd_clone_tree_root :
  (forall t, count_slash t = 0 -> parse_target t = Ok (t, "master")) /\
  (forall r b, count_slash r = 0 -> count_slash b = 0 -> parse_target (r +:+ "/" +:+ b) = Ok (r, b)) /\
  (forall t, 2 <= count_slash t -> exists e, parse_target t = Err e) /\
  (forall tc config target gf fetch w r b rcfg depot,
     parse_target target = Ok (r, b) ->
     config_find_remote config r = Ok rcfg ->
     config_find_depot config (rc_depot rcfg) = Ok depot ->
     b <> "" ->
     (forall q c, q <> [] -> q `prefix_of` resolve (w_cwd w) b -> w_fs w !! q <> Some (NFile c)) ->
     exists w1,
       cmd_clone tc config target None gf fetch w =
         tc depot b rcfg b (parse_group_filters gf) fetch w1 /\
       w_cwd w1 = w_cwd w /\
       lookup_node (w_fs w1) (resolve (w_cwd w) b) = Some NDir).
Proof.
  split_and!.
  - intros t Ht. unfold parse_target. by rewrite split_on_no_slash.
  - intros r b Hr Hb. unfold parse_target. by rewrite split_on_one_slash.
  - intros t Ht. unfold parse_target.
    pose proof (length_split_on t) as Hl.
    destruct (split_on slash t) as [|x [|y [|z l]]]; simpl in Hl; try lia; eauto.
  - intros tc config target gf fetch w r b rcfg depot Hp Hr Hd Hb Hno.
    destruct (create_dir_all_dir b w Hb Hno) as (w1 & Hc & Hcwd & Hdir).
    exists w1. split_and!; [|done|done].
    unfold cmd_clone.
    rewrite (bind_Ok_eq _ _ w (r, b) w) by (unfold lift; by rewrite Hp). cbv beta iota.
    rewrite (bind_Ok_eq _ _ w rcfg w) by (unfold lift; by rewrite Hr).
    rewrite (bind_Ok_eq _ _ w depot w) by (unfold lift; by rewrite Hd).
    rewrite (bind_Ok_eq _ _ w tt w1) by (cbv beta delta [default] iota; by rewrite Hc).
    reflexivity.
Qed.

Lemma cmd_clone_tree_root_witness :
  parse_target "origin" = Ok ("origin", "master") /\
  parse_target "origin/main" = Ok ("origin", "main") /\
  (exists e, parse_target "a/b/c" = Err e) /\
  exists w1,
    cmd_clone no_tree_clone sample_config "origin/main" None None false empty_world =
      no_tree_clone sample_depot "main" sample_remote "main" [] false w1 /\
    w_cwd w1 = ["home"] /\
    lookup_node (w_fs w1) ["home"; "main"] = Some NDir.
Proof.
  destruct cmd_clone_tree_root as (H1 & H2 & H3 & H4).
  split_and!.
  - apply (H1 "origin"). reflexivity.
  - apply (H2 "origin" "main"); reflexivity.
  - apply (H3 "a/b/c"). vm_compute. lia.
  - assert (Hno : forall q c, q <> [] -> q `prefix_of` resolve (w_cwd empty_world) "main" ->
                   w_fs empty_world !! q <> Some (NFile c)).
    { intros q c Hq [l Hl]. vm_compute in Hl.
      destruct q as [|x [|y [|z q]]]; [done| | |]; simpl in Hl; inversion Hl; subst;
        vm_compute; discriminate. }
    destruct (H4 no_tree_clone sample_config "origin/main" None false empty_world
                "origin" "main" sample_remote sample_depot) as (w1 & A & B & C);
      [reflexivity|reflexivity|reflexivity|discriminate|exact Hno|].
    exists w1. split_and!; [exact A|exact B|exact C].
Defined.

(* ------------------------------------------------------------------ *)
(** ** Choosing the transport *)

Lemma nt_trans (w w1 w2 : World) l1 l2 :
  w_log w1 = w_log w ++ l1 -> Forall (fun a => transport_action a = false) l1 ->
  w_log w2 = w_log w1 ++ l2 -> Forall (fun a => transport_action a = false) l2 ->
  exists l, w_log w2 = w_log w ++ l /\ Forall (fun a => transport_action a = false) l.
Proof.
  intros H1 F1 H2 F2. exists (l1 ++ l2). rewrite H2, H1, app_assoc.
  split; [done|by apply Forall_app].
Qed.

Lemma nt_run {A} (m : M A) w r w' :
  no_transport m -> m w = (r, w') ->
  exists l, w_log w' = w_log w ++ l /\ Forall (fun a => transport_action a = false) l.
Proof. intros Hm Hr. specialize (Hm w). by rewrite Hr in Hm. Qed.

Lemma no_transport_context {A} msg (m : M A) : no_transport m -> no_transport (context msg m).
Proof. intros Hm w. unfold context. specialize (Hm w). by destruct (m w) as [[?|?] ?]. Qed.

Lemma no_transport_bind {A B} (m : M A) (k : A -> M B) :
  no_transport m -> (forall a, no_transport (k a)) -> no_transport (bind m k).
Proof.
  intros Hm Hk w. unfold bind. destruct (m w) as [[a|e] w1] eqn:H1.
  - destruct (nt_run _ _ _ _ Hm H1) as (l1 & E1 & F1).
    destruct (Hk a w1) as (l2 & E2 & F2). eapply nt_trans; eauto.
  - by apply (nt_run _ _ _ _ Hm H1).
Qed.

Ltac nt_prim := intros ?w; eexists; repeat (case_match; simpl);
  (split; [reflexivity|repeat constructor]).

Lemma no_transport_repo_open b p : no_transport (repo_open b p).
Proof. unfold repo_open. destruct b; simpl; nt_prim. Qed.

Lemma no_transport_repo_init b p : no_transport (repo_init b p).
Proof. unfold repo_init. destruct b; simpl; nt_prim. Qed.

Lemma no_transport_find_remote r n : no_transport (find_remote r n).
Proof. unfold find_remote. simpl. nt_prim. Qed.

Lemma no_transport_remote_set_url r n u : no_transport (remote_set_url r n u).
Proof. unfold remote_set_url, modify_repo. simpl. nt_prim. Qed.

Lemma no_transport_remote_create r n u : no_transport (remote_create r n u).
Proof. unfold remote_create, modify_repo. simpl. nt_prim. Qed.

Lemma no_transport_open_or_create_bare_repo p : no_transport (open_or_create_bare_repo p).
Proof.
  intros w. unfold open_or_create_bare_repo, open_bare.
  destruct (repo_open true p w) as [r1 w1] eqn:H1.
  destruct (nt_run _ _ _ _ (no_transport_repo_open true p) H1) as (l1 & E1 & F1).
  destruct r1 as [h|e]; [by exists l1|].
  destruct (context "failed to create repository" (init_bare p) w1) as [r2 w2] eqn:H2.
  destruct (nt_run _ _ _ _ (no_transport_context _ _ (no_transport_repo_init true p)) H2)
    as (l2 & E2 & F2).
  simpl. eapply nt_trans; eauto.
Qed.

Lemma url_parse_scheme E s u : url_parse E s = Ok u -> url_scheme u <> "".
Proof.
  unfold url_parse. destruct (scheme_of _) as [[sch rest]|] eqn:Hs; [|discriminate].
  destruct (env_url_rest E sch rest); [discriminate|]. intros Heq. injection Heq as <-. simpl.
  revert Hs. generalize (trim (remove_tab_newline s)). intros t Hs.
  destruct t as [|a t]; simpl in Hs; [discriminate|].
  destruct (is_alpha a); [|discriminate].
  destruct (scheme_state t) as [[? ?]|]; [|discriminate]. injection Hs as <- _. discriminate.
Qed.

(** C2 (code bug). [url::Url::parse] never yields the empty scheme, so the
    test [scheme == ""] never holds. A repository URL without a scheme
    (a local path such as [/srv/git/proj.git]) is not fetched natively:
    for a valid project, [fetch_repo] fails, and the actions it logs
    before failing contain neither a native fetch nor a spawned [git]. *)
Theorem fetch_repo_schemeless_url_fails E self rc project branch depth w :
  starts_with_slash project = false -> ends_with_slash project = false ->
  scheme_of (trim (remove_tab_newline (rc_url rc +:+ project +:+ ".git"))) = None ->
  (forall s u, url_parse E s = Ok u -> url_scheme u <> "") /\
  exists e w1, fetch_repo E self rc project branch depth w = (Err e, w1) /\
    exists l, w_log w1 = w_log w ++ l /\ Forall (fun a => transport_action a = false) l.
Proof.
  intros Hs He Hsch. split; [exact (url_parse_scheme E)|].
  unfold fetch_repo. cbv zeta. rewrite Hs, He. cbv beta iota.
  rewrite (bind_Ok_eq _ _ w tt w) by reflexivity.
  rewrite (bind_Ok_eq _ _ w tt w) by reflexivity.
  destruct (open_or_create_bare_repo (objects_mirror self project) w) as [[h|e] w2] eqn:H2;
    [|rewrite (bind_Err_eq _ _ _ _ _ H2); eexists _, _; split; [reflexivity|];
      exact (nt_run _ _ _ _ (no_transport_open_or_create_bare_repo _) H2)].
  rewrite (bind_Ok_eq _ _ _ _ _ H2).
  destruct (nt_run _ _ _ _ (no_transport_open_or_create_bare_repo _) H2) as (l2 & E2 & F2).
  set (blk := fun w0 : World => match find_remote h (rc_name rc) w0 with
    | (Ok _, w') => (remote_set_url h (rc_name rc) (rc_url rc +:+ project +:+ ".git") ;;;
                     find_remote h (rc_name rc)) w'
    | (Err _, w') => context "failed to create remote"
                       (remote_create h (rc_name rc) (rc_url rc +:+ project +:+ ".git")) w'
    end).
  assert (Hblk : no_transport blk).
  { intros w0. unfold blk. destruct (find_remote h (rc_name rc) w0) as [r1 w1] eqn:H1.
    destruct (nt_run _ _ _ _ (no_transport_find_remote _ _) H1) as (l1 & E1 & F1).
    destruct r1 as [u|e].
    - pose proof (no_transport_bind _ _ (no_transport_remote_set_url h (rc_name rc)
                    (rc_url rc +:+ project +:+ ".git"))
                    (fun _ => no_transport_find_remote h (rc_name rc)) w1) as (l3 & E3 & F3).
      eapply nt_trans; eauto.
    - pose proof (no_transport_context "failed to create remote" _
                    (no_transport_remote_create h (rc_name rc)
                       (rc_url rc +:+ project +:+ ".git")) w1) as (l3 & E3 & F3).
      eapply nt_trans; eauto. }
  destruct (blk w2) as [[u|e] w3] eqn:H3.
  - rewrite (bind_Ok_eq _ _ _ _ _ H3).
    destruct (nt_run _ _ _ _ Hblk H3) as (l3 & E3 & F3).
    unfold bind at 1, lift at 1, url_parse. rewrite Hsch.
    eexists _, _. split; [reflexivity|]. eapply nt_trans; eauto.
  - rewrite (bind_Err_eq _ _ _ _ _ H3).
    destruct (nt_run _ _ _ _ Hblk H3) as (l3 & E3 & F3).
    eexists _, _. split; [reflexivity|]. eapply nt_trans; eauto.
Qed.

Lemma fetch_repo_schemeless_url_fails_witness :
  fetch_repo sample_env sample_depot local_remote "p" "main" None empty_world =
    (Err (ErrMsg "relative URL without a base"),
     snd (fetch_repo sample_env sample_depot local_remote "p" "main" None empty_world)) /\
  (forall s u, url_parse sample_env s = Ok u -> url_scheme u <> "") /\
  exists e w1, fetch_repo sample_env sample_depot local_remote "p" "main" None empty_world = (Err e, w1) /\
    exists l, w_log w1 = w_log empty_world ++ l /\ Forall (fun a => transport_action a = false) l.
Proof.
  split; [vm_compute; reflexivity|].
  apply fetch_repo_schemeless_url_fails; vm_compute; reflexivity.
Defined.

(* ------------------------------------------------------------------ *)
(** ** Command-line arguments *)

Lemma join_on_cons_head c a h t : join_on c (String a h :: t) = String a (join_on c (h :: t)).
Proof. by destruct t. Qed.

Lemma join_split c s : join_on c (split_on c s) = s.
Proof.
  induction s as [|a r IH]; simpl; [done|].
  destruct (split_on c r) as [|h t] eqn:Hs; [by apply split_on_nonempty in Hs|].
  case_bool_decide as Ha.
  - subst a. change (join_on c ("" :: h :: t)) with (String c (join_on c (h :: t))). by rewrite IH.
  - rewrite join_on_cons_head. by rewrite IH.
Qed.

(** [parse_target] succeeds only on a target it can be read back from: the
    remote contains no ['/'], and the target is either the remote alone (the
    branch is then ["master"]) or the remote, ['/'] and a branch that
    contains no ['/']. *)
Theorem parse_target_inverse t r b :
  parse_target t = Ok (r, b) ->
  count_slash r = 0 /\
  ((t = r /\ b = "master") \/ (count_slash b = 0 /\ t = r +:+ "/" +:+ b)).
Proof.
  unfold parse_target. intros H.
  pose proof (join_split slash t) as Hj. pose proof (split_on_no_slash_pieces t) as Hf.
  destruct (split_on slash t) as [|x [|y [|z l]]]; try discriminate.
  - injection H as <- <-. apply Forall_cons in Hf as [Hx _]. simpl in Hj.
    split; [done|]. by left.
  - injection H as <- <-. apply Forall_cons in Hf as [Hx Hf]. apply Forall_cons in Hf as [Hy _].
    split; [done|]. right. split; [done|]. rewrite <- Hj. reflexivity.
Qed.

Lemma parse_target_inverse_witness :
  parse_target "origin/main" = Ok ("origin", "main") /\
  count_slash "origin" = 0 /\
  (("origin/main" = "origin" /\ "main" = "master") \/
   (count_slash "main" = 0 /\ "origin/main" = "origin" +:+ "/" +:+ "main")).
Proof.
  assert (H : parse_target "origin/main" = Ok ("origin", "main")) by reflexivity.
  split; [exact H|]. exact (parse_target_inverse _ _ _ H).
Defined.

(** The group filter argument is split at every [','] and nothing is lost:
    writing each filter back ([Exclude g] as ["-" ++ g]) and joining with
    [','] gives the argument again. *)
Theorem group_filters_round_trip s :
  join_on ","%char (map render_filter (parse_group_filters (Some s))) = s.
Proof.
  unfold parse_group_filters. rewrite map_map.
  assert (Hid : forall l : list string,
    map (fun group => render_filter (match group with
                        | String a r => if bool_decide (a = "-"%char) then Exclude r else Include group
                        | EmptyString => Include group
                        end)) l = l).
  { induction l as [|g l IH]; simpl; [done|]. rewrite IH. f_equal.
    destruct g as [|a r]; simpl; [done|]. case_bool_decide; subst; done. }
  rewrite Hid. apply join_split.
Qed.

(** [cmd_clone] stops at the first failing lookup, in order: the target,
    the remote it names, the remote's depot. It returns that error with the
    world unchanged: no directory is created and the tree is not cloned. *)
Theorem cmd_clone_lookup_errors tc config target directory gf fetch w :
  (forall e, parse_target target = Err e ->
     cmd_clone tc config target directory gf fetch w = (Err e, w)) /\
  (forall r b e, parse_target target = Ok (r, b) -> config_find_remote config r = Err e ->
     cmd_clone tc config target directory gf fetch w = (Err e, w)) /\
  (forall r b rcfg e, parse_target target = Ok (r, b) -> config_find_remote config r = Ok rcfg ->
     config_find_depot config (rc_depot rcfg) = Err e ->
     cmd_clone tc config target directory gf fetch w = (Err e, w)).
Proof.
  unfold cmd_clone. split_and!.
  - intros e Hp. apply bind_Err_eq. unfold lift. by rewrite Hp.
  - intros r b e Hp Hr.
    rewrite (bind_Ok_eq _ _ w (r, b) w) by (unfold lift; by rewrite Hp). cbv beta iota.
    apply bind_Err_eq. unfold lift. by rewrite Hr.
  - intros r b rcfg e Hp Hr Hd.
    rewrite (bind_Ok_eq _ _ w (r, b) w) by (unfold lift; by rewrite Hp). cbv beta iota.
    rewrite (bind_Ok_eq _ _ w rcfg w) by (unfold lift; by rewrite Hr).
    apply bind_Err_eq. unfold lift. by rewrite Hd.
Qed.

Lemma cmd_clone_lookup_errors_witness :
  cmd_clone no_tree_clone sample_config "a/b/c" None None true empty_world =
    (Err (ErrMsg "invalid target 'a/b/c'"), empty_world) /\
  cmd_clone no_tree_clone sample_config "upstream/main" None None true empty_world =
    (Err (ErrMsg "unknown remote upstream"), empty_world) /\
  cmd_clone no_tree_clone remote_only_config "origin/main" None None true empty_world =
    (Err (ErrMsg "unknown depot d"), empty_world).
Proof.
  destruct (cmd_clone_lookup_errors no_tree_clone sample_config "a/b/c" None None true empty_world)
    as (H1 & _ & _).
  destruct (cmd_clone_lookup_errors no_tree_clone sample_config "upstream/main" None None true
              empty_world) as (_ & H2 & _).
  destruct (cmd_clone_lookup_errors no_tree_clone remote_only_config "origin/main" None None true
              empty_world) as (_ & _ & H3).
  split_and!.
  - apply H1. reflexivity.
  - apply (H2 "upstream" "main"); reflexivity.
  - apply (H3 "origin" "main" sample_remote); reflexivity.
Defined.

Lemma mkdirs_blocked pre rest fs q c :
  in_mk pre rest q -> fs !! q = Some (NFile c) -> mkdirs pre rest fs = None.
Proof.
  revert pre fs. induction rest as [|c0 r IH]; intros pre fs Hin Hq; simpl.
  - by apply in_mk_nil in Hin.
  - apply in_mk_cons in Hin as [->|Hin].
    + by rewrite Hq.
    + destruct (fs !! (pre ++ [c0])) as [[?|]|] eqn:Hc; [done|by apply (IH _ _ Hin)|].
      apply (IH _ _ Hin). rewrite lookup_insert_ne; [done|].
      intros Heq. apply in_mk_longer in Hin. rewrite <- Heq in Hin. lia.
Qed.

Lemma create_dir_all_frame p w :
  p <> "" ->
  (forall q c, q <> [] -> q `prefix_of` resolve (w_cwd w) p -> w_fs w !! q <> Some (NFile c)) ->
  exists w', create_dir_all p w = (Ok tt, w') /\ w_cwd w' = w_cwd w /\
    (forall q, q <> [] -> q `prefix_of` resolve (w_cwd w) p -> w_fs w' !! q = Some NDir) /\
    (forall q, ~ (q <> [] /\ q `prefix_of` resolve (w_cwd w) p) -> w_fs w' !! q = w_fs w !! q).
Proof.
  intros Hp Hno. unfold create_dir_all. cbv zeta. rewrite key_of_Some by done. simpl.
  set (k := resolve (w_cwd w) p) in *.
  destruct (mkdirs_ok [] k (w_fs w)) as [fs' Hfs'].
  { intros q c Hin. apply in_mk_nil_pre in Hin as [Hq Hpre]. by apply Hno. }
  rewrite Hfs'. eexists. split_and!; [reflexivity|reflexivity| |]; simpl.
  - intros q Hq Hpre. apply (mkdirs_Some _ _ _ _ Hfs'). by apply in_mk_nil_pre.
  - intros q Hq. apply (mkdirs_Some _ _ _ _ Hfs'). by rewrite in_mk_nil_pre.
Qed.

(** With a directory argument [d], [cmd_clone] uses [d] (not the branch) as
    the tree root: it creates [d] and its missing ancestors as directories,
    changes no other path, and passes [d] and the branch to the tree clone.
    This is what [pore init] does with [d = "."]. *)
Theorem cmd_clone_directory_root tc config target d gf fetch w r b rcfg depot :
  parse_target target = Ok (r, b) ->
  config_find_remote config r = Ok rcfg ->
  config_find_depot config (rc_depot rcfg) = Ok depot ->
  d <> "" ->
  (forall q c, q <> [] -> q `prefix_of` resolve (w_cwd w) d -> w_fs w !! q <> Some (NFile c)) ->
  exists w1,
    cmd_clone tc config target (Some d) gf fetch w =
      tc depot d rcfg b (parse_group_filters gf) fetch w1 /\
    w_cwd w1 = w_cwd w /\
    lookup_node (w_fs w1) (resolve (w_cwd w) d) = Some NDir /\
    (forall q, ~ (q <> [] /\ q `prefix_of` resolve (w_cwd w) d) -> w_fs w1 !! q = w_fs w !! q).
Proof.
  intros Hp Hr Hd Hdn Hno.
  destruct (create_dir_all_frame d w Hdn Hno) as (w1 & Hc & Hcwd & Hanc & Hother).
  exists w1. split_and!; [| done | | done].
  - unfold cmd_clone.
    rewrite (bind_Ok_eq _ _ w (r, b) w) by (unfold lift; by rewrite Hp). cbv beta iota.
    rewrite (bind_Ok_eq _ _ w rcfg w) by (unfold lift; by rewrite Hr).
    rewrite (bind_Ok_eq _ _ w depot w) by (unfold lift; by rewrite Hd).
    rewrite (bind_Ok_eq _ _ w tt w1)
      by (cbv beta; change (default b (Some d)) with d; by rewrite Hc).
    reflexivity.
  - destruct (resolve (w_cwd w) d) as [|x l] eqn:Hk; [done|]. simpl.
    apply Hanc; [done|reflexivity].
Qed.

Lemma cmd_clone_directory_root_witness :
  exists w1,
    cmd_clone no_tree_clone sample_config "origin" (Some ".") None true empty_world =
      no_tree_clone sample_depot "." sample_remote "master" [] true w1 /\
    w_cwd w1 = ["home"] /\
    lookup_node (w_fs w1) ["home"] = Some NDir /\
    (forall q, ~ (q <> [] /\ q `prefix_of` ["home"]) -> w_fs w1 !! q = w_fs empty_world !! q).
Proof.
  assert (Hno : forall q c, q <> [] -> q `prefix_of` resolve (w_cwd empty_world) "." ->
                  w_fs empty_world !! q <> Some (NFile c)).
  { intros q c Hq [l Hl]. vm_compute in Hl.
    destruct q as [|x [|y q]]; [done| |]; simpl in Hl; inversion Hl; subst;
      vm_compute; discriminate. }
  destruct (cmd_clone_directory_root no_tree_clone sample_config "origin" "." None true empty_world
              "origin" "master" sample_remote sample_depot) as (w1 & A & B & C & D);
    [reflexivity|reflexivity|reflexivity|discriminate|exact Hno|].
  exists w1. split_and!; [exact A|exact B|exact C|exact D].
Defined.

(** When a prefix of the tree root is a regular file, [cmd_clone] fails with
    ["failed to create tree root ..."] and does not clone the tree. *)
Theorem cmd_clone_root_blocked tc config target directory gf fetch w r b rcfg depot q c :
  parse_target target = Ok (r, b) ->
  config_find_remote config r = Ok rcfg ->
  config_find_depot config (rc_depot rcfg) = Ok depot ->
  default b directory <> "" ->
  q <> [] -> q `prefix_of` resolve (w_cwd w) (default b directory) ->
  w_fs w !! q = Some (NFile c) ->
  exists e,
    cmd_clone tc config target directory gf fetch w =
      (Err (ErrMsg ("failed to create tree root " +:+ dbg (default b directory) +:+ ": "
                    +:+ fail_msg e)), log_action (ACreateDirAll (default b directory)) w).
Proof.
  intros Hp Hr Hd Hdn Hq Hpre Hc. unfold cmd_clone.
  rewrite (bind_Ok_eq _ _ w (r, b) w) by (unfold lift; by rewrite Hp). cbv beta iota.
  rewrite (bind_Ok_eq _ _ w rcfg w) by (unfold lift; by rewrite Hr).
  rewrite (bind_Ok_eq _ _ w depot w) by (unfold lift; by rewrite Hd).
  unfold bind at 1. unfold create_dir_all. cbv zeta. rewrite key_of_Some by done. simpl.
  rewrite (mkdirs_blocked [] _ _ q c); [eauto| |done]. by apply in_mk_nil_pre.
Qed.

Lemma cmd_clone_root_blocked_witness :
  exists e,
    cmd_clone no_tree_clone sample_config "origin/main" None None true
      (set_fs (<[["home"; "main"] := NFile "x"]> (w_fs empty_world)) empty_world) =
      (Err (ErrMsg ("failed to create tree root " +:+ dbg "main" +:+ ": " +:+ fail_msg e)),
       log_action (ACreateDirAll "main")
         (set_fs (<[["home"; "main"] := NFile "x"]> (w_fs empty_world)) empty_world)).
Proof.
  apply (cmd_clone_root_blocked no_tree_clone sample_config "origin/main" None None true _
           "origin" "main" sample_remote sample_depot ["home"; "main"] "x");
    [reflexivity|reflexivity|reflexivity|discriminate|discriminate| |].
  - exists []. vm_compute. reflexivity.
  - vm_compute. reflexivity.
Defined.

(* ------------------------------------------------------------------ *)
(** ** [replace_dir] on a regular file *)

(** The steps of [replace_dir] before it reads the source: with an existing
    source and a destination that can be created, they clear the
    destination and leave it an empty directory. *)
Lemma replace_dir_cleared src dst w :
  src <> "" -> dst <> "" -> wf_fs (w_fs w) ->
  is_Some (lookup_node (w_fs w) (resolve (w_cwd w) src)) ->
  ~ resolve (w_cwd w) src `prefix_of` resolve (w_cwd w) dst ->
  ~ resolve (w_cwd w) dst `prefix_of` resolve (w_cwd w) src ->
  (forall q c, q <> [] -> q `prefix_of` resolve (w_cwd w) dst -> w_fs w !! q <> Some (NFile c)) ->
  exists w5,
    replace_dir src dst w =
      (entries <- context ("failed to read directory " +:+ dbg src) (read_dir src) ;;
       copy_entries dst entries) w5 /\
    w_cwd w5 = w_cwd w /\ w_repos w5 = w_repos w /\
    (forall q, q <> [] /\ q `prefix_of` resolve (w_cwd w) dst -> w_fs w5 !! q = Some NDir) /\
    (forall q, ~ (q <> [] /\ q `prefix_of` resolve (w_cwd w) dst) ->
       w_fs w5 !! q = if decide (resolve (w_cwd w) dst `prefix_of` q) then None else w_fs w !! q).
Proof.
  intros Hs Hd Hwf Hks Hsd Hds Hanc.
  set (ks := resolve (w_cwd w) src) in *. set (kd := resolve (w_cwd w) dst) in *.
  set (fs := w_fs w) in *.
  assert (Hkd0 : kd <> []) by (intros Hk; apply Hds; rewrite Hk; apply prefix_nil).
  unfold replace_dir.
  rewrite (bind_Ok_eq _ _ _ _ _ (fs_exists_eq src w Hs)). cbv beta. cbn [w_fs w_cwd log_action].
  fold ks kd fs. rewrite bool_decide_eq_true_2 by eauto.
  rewrite (bind_Ok_eq (ensure true _) _ _ tt _ eq_refl). cbv beta.
  rewrite (bind_Ok_eq _ _ _ _ _ (fs_exists_eq dst _ Hd)). cbv beta. cbn [w_fs w_cwd log_action].
  fold ks kd fs.
  set (w2 := log_action (AExists dst) (log_action (AExists src) w)).
  assert (Hw3 : exists w3,
    (if bool_decide (is_Some (lookup_node fs kd))
     then context ("failed to delete " +:+ dbg dst) (remove_dir_all dst) else ret ()) w2
      = (Ok tt, w3) /\ w_cwd w3 = w_cwd w /\ w_repos w3 = w_repos w /\
    forall q, w_fs w3 !! q = if decide (kd `prefix_of` q) then None else fs !! q).
  { destruct (lookup_node fs kd) as [[c|]|] eqn:Hkd.
    - exfalso. apply (Hanc kd c Hkd0 ltac:(reflexivity)). by rewrite <- lookup_node_cons.
    - rewrite bool_decide_eq_true_2 by eauto. eexists. split_and!.
      + unfold context, remove_dir_all. rewrite key_of_Some by done.
        cbn [w_fs w_cwd log_action w2]. fold kd fs. rewrite Hkd. reflexivity.
      + done.
      + done.
      + intros q. simpl. apply remove_tree_lookup.
    - rewrite bool_decide_eq_false_2 by (intros [? ?]; discriminate).
      eexists. split_and!; [reflexivity|done|done|].
      intros q. simpl. case_decide as Hq; [|done]. destruct Hq as [r ->].
      by apply wf_fs_absent. }
  destruct Hw3 as (w3 & Hw3 & Hcwd3 & Hrep3 & Hfs3).
  rewrite (bind_Ok_eq _ _ _ _ _ Hw3). cbv beta.
  destruct (mkdirs_ok [] kd (w_fs w3)) as [fs5 Hmk].
  { intros q c Hq. apply in_mk_nil_pre in Hq as [Hq0 Hq]. rewrite Hfs3.
    case_decide; [done|]. by apply Hanc. }
  pose proof (mkdirs_Some _ _ _ _ Hmk) as Hmk'.
  rewrite (bind_Ok_eq _ _ _ tt (set_fs fs5 (log_action (ACreateDirAll dst) w3))).
  2: { unfold context, create_dir_all. rewrite key_of_Some by done.
       cbn [w_fs w_cwd log_action]. rewrite Hcwd3. fold kd. by rewrite Hmk. }
  cbv beta. eexists. split_and!; [reflexivity|done|done| |].
  - intros q Hq. apply (Hmk' q). by apply in_mk_nil_pre.
  - intros q Hq. simpl. rewrite (proj2 (Hmk' q)); [apply Hfs3|]. by rewrite in_mk_nil_pre.
Qed.

(** When the source is a regular file, [replace_dir] fails, but only after
    it has deleted the destination: the destination is left an empty
    directory, the source file is kept, and every path outside the
    destination is unchanged. *)
Theorem replace_dir_file_source src dst w c :
  src <> "" -> dst <> "" -> wf_fs (w_fs w) ->
  w_fs w !! resolve (w_cwd w) src = Some (NFile c) ->
  ~ resolve (w_cwd w) src `prefix_of` resolve (w_cwd w) dst ->
  ~ resolve (w_cwd w) dst `prefix_of` resolve (w_cwd w) src ->
  (forall q c', q <> [] -> q `prefix_of` resolve (w_cwd w) dst -> w_fs w !! q <> Some (NFile c')) ->
  exists e w',
    replace_dir src dst w = (Err e, w') /\
    lookup_node (w_fs w') (resolve (w_cwd w) dst) = Some NDir /\
    (forall r, r <> [] -> w_fs w' !! (resolve (w_cwd w) dst ++ r) = None) /\
    w_fs w' !! resolve (w_cwd w) src = Some (NFile c) /\
    (forall q, ~ q `prefix_of` resolve (w_cwd w) dst -> ~ resolve (w_cwd w) dst `prefix_of` q ->
       w_fs w' !! q = w_fs w !! q).
Proof.
  intros Hs Hd Hwf Hc Hsd Hds Hanc.
  assert (Hks0 : resolve (w_cwd w) src <> [])
    by (intros Hk; apply Hsd; rewrite Hk; apply prefix_nil).
  assert (Hkd0 : resolve (w_cwd w) dst <> [])
    by (intros Hk; apply Hds; rewrite Hk; apply prefix_nil).
  destruct (replace_dir_cleared src dst w) as (w5 & Hr & Hcwd5 & _ & Hanc5 & Hfs5);
    try done; [rewrite lookup_node_cons by done; eauto|].
  set (ks := resolve (w_cwd w) src) in *. set (kd := resolve (w_cwd w) dst) in *.
  assert (Hks5 : w_fs w5 !! ks = Some (NFile c)).
  { rewrite Hfs5; [by rewrite decide_False|]. intros [_ Hp]. by apply Hsd. }
  rewrite Hr. unfold bind at 1, context at 1, read_dir. cbv zeta.
  rewrite key_of_Some by done. cbn [w_fs w_cwd log_action]. rewrite Hcwd5. fold ks.
  rewrite lookup_node_cons, Hks5 by done.
  eexists _, _. split; [reflexivity|]. cbn [w_fs log_action]. split_and!.
  - rewrite lookup_node_cons by done. apply Hanc5. split; [done|reflexivity].
  - intros r Hr0. rewrite Hfs5.
    + by rewrite decide_True by (by exists r).
    + intros [_ Hp]. apply prefix_length in Hp. rewrite length_app in Hp.
      destruct r; [done|]. simpl in Hp. lia.
  - exact Hks5.
  - intros q H1 H2. rewrite Hfs5; [by rewrite decide_False|]. tauto.
Qed.

(** A world whose source [/s] is a regular file and whose destination [/d]
    holds an older tree. *)
Lemma replace_dir_file_source_witness :
  exists e w',
    replace_dir "/s" "/d" (set_fs (<[["s"] := NFile "x"]> (delete ["s"; "f"] (w_fs w_files))) w_files)
      = (Err e, w') /\
    lookup_node (w_fs w') ["d"] = Some NDir /\
    (forall r, r <> [] -> w_fs w' !! (["d"] ++ r) = None) /\
    w_fs w' !! ["s"] = Some (NFile "x") /\
    (forall q, ~ q `prefix_of` ["d"] -> ~ ["d"] `prefix_of` q ->
       w_fs w' !! q = w_fs (set_fs (<[["s"] := NFile "x"]> (delete ["s"; "f"] (w_fs w_files))) w_files)
                        !! q).
Proof.
  apply (replace_dir_file_source "/s" "/d" _ "x"); try discriminate.
  - apply wf_fs_b_sound. vm_compute. reflexivity.
  - vm_compute. reflexivity.
  - apply (bool_decide_unpack _). vm_compute. exact I.
  - apply (bool_decide_unpack _). vm_compute. exact I.
  - intros q c Hq [l Hl]. vm_compute in Hl.
    destruct q as [|x [|y q]]; [done| |]; simpl in Hl; inversion Hl; subst; vm_compute; discriminate.
Defined.

(** When the destination is a regular file, [replace_dir] fails at the
    deletion step ([remove_dir_all] refuses a file) and changes no file. *)
Theorem replace_dir_file_destination src dst w c :
  src <> "" -> dst <> "" ->
  is_Some (lookup_node (w_fs w) (resolve (w_cwd w) src)) ->
  lookup_node (w_fs w) (resolve (w_cwd w) dst) = Some (NFile c) ->
  replace_dir src dst w =
    (Err (Context ("failed to delete " +:+ dbg dst) (ErrMsg "Not a directory (os error 20)")),
     log_action (ARemoveDirAll dst) (log_action (AExists dst) (log_action (AExists src) w))).
Proof.
  intros Hs Hd Hks Hkd. unfold replace_dir.
  rewrite (bind_Ok_eq _ _ _ _ _ (fs_exists_eq src w Hs)). cbv beta. cbn [w_fs w_cwd log_action].
  rewrite bool_decide_eq_true_2 by eauto.
  rewrite (bind_Ok_eq (ensure true _) _ _ tt _ eq_refl). cbv beta.
  rewrite (bind_Ok_eq _ _ _ _ _ (fs_exists_eq dst _ Hd)). cbv beta. cbn [w_fs w_cwd log_action].
  rewrite Hkd, bool_decide_eq_true_2 by eauto.
  apply bind_Err_eq. unfold context, remove_dir_all. rewrite key_of_Some by done.
  cbn [w_fs w_cwd log_action]. by rewrite Hkd.
Qed.

Lemma replace_dir_file_destination_witness :
  replace_dir "/s" "/d" (set_fs (<[["d"] := NFile "y"]> (w_fs w_files)) w_files) =
    (Err (Context ("failed to delete " +:+ dbg "/d") (ErrMsg "Not a directory (os error 20)")),
     log_action (ARemoveDirAll "/d") (log_action (AExists "/d") (log_action (AExists "/s")
       (set_fs (<[["d"] := NFile "y"]> (w_fs w_files)) w_files)))).
Proof.
  apply (replace_dir_file_destination _ _ _ "y"); try discriminate.
  - vm_compute. eauto.
  - vm_compute. reflexivity.
Defined.

(* ------------------------------------------------------------------ *)
(** ** Transport actions in a successful fetch *)

Create HintDb nt.

Lemma no_transport_ret {A} (a : A) : no_transport (ret a).
Proof. intros w. exists []. by rewrite app_nil_r. Qed.
Lemma no_transport_throw {A} e : no_transport (@throw A e).
Proof. intros w. exists []. by rewrite app_nil_r. Qed.
Lemma no_transport_ensure b msg : no_transport (ensure b msg).
Proof. destruct b; [apply no_transport_ret|apply no_transport_throw]. Qed.
Lemma no_transport_lift {A} (r : Result A) : no_transport (lift r).
Proof. intros w. exists []. by rewrite app_nil_r. Qed.
Lemma no_transport_if {A} (b : bool) (m1 m2 : M A) :
  no_transport m1 -> no_transport m2 -> no_transport (if b then m1 else m2).
Proof. by destruct b. Qed.

Ltac nt_prim2 := intros ?w; cbv beta zeta; eexists; repeat (case_match; simpl);
  (split; [reflexivity|repeat constructor]).

Lemma no_transport_fs_exists p : no_transport (fs_exists p).
Proof. unfold fs_exists. nt_prim2. Qed.
Lemma no_transport_remove_dir_all p : no_transport (remove_dir_all p).
Proof. unfold remove_dir_all. nt_prim2. Qed.
Lemma no_transport_create_dir_all p : no_transport (create_dir_all p).
Proof. unfold create_dir_all. nt_prim2. Qed.
Lemma no_transport_read_dir p : no_transport (read_dir p).
Proof. unfold read_dir. nt_prim2. Qed.
Lemma no_transport_fs_copy p q : no_transport (fs_copy p q).
Proof. unfold fs_copy. nt_prim2. Qed.
Lemma no_transport_fs_write p q : no_transport (fs_write p q).
Proof. unfold fs_write. nt_prim2. Qed.

#[local] Hint Resolve no_transport_ret no_transport_throw no_transport_ensure no_transport_lift
  no_transport_if no_transport_fs_exists no_transport_remove_dir_all no_transport_create_dir_all
  no_transport_read_dir no_transport_fs_copy no_transport_fs_write no_transport_repo_open
  no_transport_repo_init no_transport_find_remote no_transport_remote_set_url
  no_transport_remote_create no_transport_open_or_create_bare_repo : nt.

Ltac nt :=
  repeat first [ progress intros | simple apply no_transport_bind
               | simple apply no_transport_context | simple apply no_transport_if ];
  auto with nt.

Lemma no_transport_copy_entries dst es : no_transport (copy_entries dst es).
Proof. induction es; simpl; nt. Qed.
Lemma no_transport_replace_dir src dst : no_transport (replace_dir src dst).
Proof. unfold replace_dir. nt. apply no_transport_copy_entries. Qed.
Lemma no_transport_clone_alternates src dst bare : no_transport (clone_alternates src dst bare).
Proof. unfold clone_alternates, init_bare, init. cbv zeta. nt. Qed.

(** The remote set-up step of [fetch_repo]. *)
Lemma no_transport_remote_setup h name url :
  no_transport (fun w => match find_remote h name w with
                         | (Ok _, w') => (remote_set_url h name url ;;; find_remote h name) w'
                         | (Err _, w') => context "failed to create remote" (remote_create h name url) w'
                         end).
Proof.
  intros w0. destruct (find_remote h name w0) as [r1 w1] eqn:H1.
  destruct (nt_run _ _ _ _ (no_transport_find_remote _ _) H1) as (l1 & E1 & F1).
  destruct r1 as [u|e].
  - destruct (no_transport_bind _ _ (no_transport_remote_set_url h name url)
                (fun _ => no_transport_find_remote h name) w1) as (l3 & E3 & F3).
    eapply nt_trans; eauto.
  - destruct (no_transport_context "failed to create remote" _
                (no_transport_remote_create h name url) w1) as (l3 & E3 & F3).
    eapply nt_trans; eauto.
Qed.

(** The ref-mirror step of [fetch_repo]. *)
Lemma no_transport_open_or_clone src p :
  no_transport (fun w => match open p w with
                         | (Ok repo, w') => (Ok repo, w')
                         | (Err _, w') => clone_alternates src p true w'
                         end).
Proof.
  intros w0. destruct (open p w0) as [r1 w1] eqn:H1.
  destruct (nt_run _ _ _ _ (no_transport_repo_open false p) H1) as (l1 & E1 & F1).
  destruct r1 as [h|e]; [by exists l1|].
  destruct (no_transport_clone_alternates src p true w1) as (l3 & E3 & F3).
  eapply nt_trans; eauto.
Qed.

Lemma nt_trans3 (w w1 w2 w3 : World) l1 l2 l3 :
  w_log w1 = w_log w ++ l1 -> Forall (fun a => transport_action a = false) l1 ->
  w_log w2 = w_log w1 ++ l2 -> Forall (fun a => transport_action a = false) l2 ->
  w_log w3 = w_log w2 ++ l3 -> Forall (fun a => transport_action a = false) l3 ->
  exists l, w_log w3 = w_log w ++ l /\ Forall (fun a => transport_action a = false) l.
Proof.
  intros H1 F1 H2 F2 H3 F3. destruct (nt_trans w w1 w2 l1 l2) as (l & E & F); try done.
  eapply nt_trans; eauto.
Qed.



(* ------------------------------------------------------------------ *)
(** ** Repositories a successful fetch leaves registered *)

Lemma repo_init_kept bare p w r w' k x :
  repo_init bare p w = (Ok r, w') -> w_repos w !! k = Some x -> w_repos w' !! k = Some x.
Proof.
  intros H Hk. apply repo_init_Ok in H as (_ & _ & _ & ->).
  destruct (w_repos w !! resolve (w_cwd w) p) eqn:Hp; [done|].
  rewrite lookup_insert_ne; [done|]. intros <-. congruence.
Qed.

Lemma open_or_create_bare_repo_kept p w r w' :
  open_or_create_bare_repo p w = (Ok r, w') ->
  w_cwd w' = w_cwd w /\ forall k x, w_repos w !! k = Some x -> w_repos w' !! k = Some x.
Proof.
  unfold open_or_create_bare_repo, open_bare.
  pose proof (keeps_cwd_repo_open true p w) as Hc. pose proof (keeps_repos_repo_open true p w) as Hr.
  destruct (repo_open true p w) as [[h|e] w1]; simpl in Hc, Hr.
  - intros Heq. injection Heq as _ <-. split; [done|]. intros k x. by rewrite Hr.
  - intros H. apply context_Ok in H. unfold init_bare in H.
    pose proof (repo_init_Ok _ _ _ _ _ H) as (_ & _ & Hc' & _). split; [congruence|].
    intros k x Hk. eapply repo_init_kept; [exact H|]. by rewrite Hr.
Qed.

(** The remote set-up step of [fetch_repo] leaves the repository at [h]
    with remote [name] fetching from [url], and no other record changed. *)
Lemma remote_setup_Ok h name url w u w' :
  (fun w => match find_remote h name w with
            | (Ok _, w') => (remote_set_url h name url ;;; find_remote h name) w'
            | (Err _, w') => context "failed to create remote" (remote_create h name url) w'
            end) w = (Ok u, w') ->
  w_cwd w' = w_cwd w /\
  (exists r rm, w_repos w' !! resolve (w_cwd w) h = Some r /\ r_remotes r !! name = Some rm /\
                rem_url rm = url) /\
  (forall k x, k <> resolve (w_cwd w) h -> w_repos w !! k = Some x -> w_repos w' !! k = Some x).
Proof.
  cbv beta.
  pose proof (keeps_cwd_find_remote h name w) as Hc1. pose proof (keeps_repos_find_remote h name w) as Hr1.
  destruct (find_remote h name w) as [[?|e] w1]; simpl in Hc1, Hr1; intros H.
  - stepn H a2 w2 Hm. unfold remote_set_url in Hm.
    apply modify_repo_Ok in Hm as (r & r' & Hr & Hf & Hrep & Hcwd). simpl in *.
    pose proof (keeps_cwd_find_remote h name w2) as Hc3. pose proof (keeps_repos_find_remote h name w2) as Hr3.
    rewrite H in Hc3, Hr3. simpl in Hc3, Hr3. injection Hf as <-.
    split_and!.
    + congruence.
    + eexists _, _. rewrite Hr3, Hrep, Hc1, lookup_insert_eq. split_and!; [done| |].
      * simpl. apply lookup_insert_eq.
      * done.
    + intros k x Hk Hx. rewrite Hr3, Hrep, lookup_insert_ne by congruence. congruence.
  - apply context_Ok in H. unfold remote_create in H.
    apply modify_repo_Ok in H as (r & r' & Hr & Hf & Hrep & Hcwd). simpl in *.
    destruct (r_remotes r !! name); [discriminate|]. injection Hf as <-.
    split_and!.
    + congruence.
    + eexists _, _. rewrite Hrep, Hc1, lookup_insert_eq. split_and!; [done| |].
      * simpl. apply lookup_insert_eq.
      * done.
    + intros k x Hk Hx. rewrite Hrep, lookup_insert_ne by congruence. congruence.
Qed.

(** The ref-mirror step of [fetch_repo] leaves a repository registered at
    [p] and keeps every record. *)
Lemma open_or_clone_Ok src p w r w' :
  (fun w => match open p w with
            | (Ok repo, w') => (Ok repo, w')
            | (Err _, w') => clone_alternates src p true w'
            end) w = (Ok r, w') ->
  w_cwd w' = w_cwd w /\ is_Some (w_repos w' !! resolve (w_cwd w) p) /\
  (forall k x, w_repos w !! k = Some x -> w_repos w' !! k = Some x).
Proof.
  cbv beta. destruct (decide (p = "")) as [->|Hp].
  { unfold open, repo_open, key_of. simpl. intros H. apply clone_alternates_Ok in H. tauto. }
  pose proof (keeps_cwd_repo_open false p w : w_cwd (snd (open p w)) = w_cwd w) as Hc1.
  pose proof (keeps_repos_repo_open false p w : w_repos (snd (open p w)) = w_repos w) as Hr1.
  destruct (open p w) as [[h|e] w1] eqn:Ho; simpl in Hc1, Hr1; intros H.
  - injection H as _ <-. split_and!; [done| |by rewrite Hr1].
    revert Ho. unfold open, repo_open. cbv zeta. rewrite key_of_Some by done. simpl.
    destruct (w_repos w !! resolve (w_cwd w) p) eqn:Hk; [|discriminate].
    simpl. intros Heq. injection Heq as _ <-. simpl. rewrite Hk. by eexists.
  - apply clone_alternates_Ok in H as (_ & _ & Hc & Hrep & _). split_and!.
    + congruence.
    + rewrite Hrep, Hc1. destruct (w_repos w1 !! resolve (w_cwd w) p) eqn:Hk; [by rewrite Hk|].
      rewrite lookup_insert_eq. by eexists.
    + intros k x Hx. rewrite Hrep, Hc1. rewrite <- Hr1 in Hx.
      destruct (w_repos w1 !! resolve (w_cwd w) p) eqn:Hk; [done|].
      rewrite lookup_insert_ne; [done|]. intros <-. congruence.
Qed.

(** After a successful [fetch_repo] the working directory is unchanged;
    the object mirror is a registered repository whose remote named after
    the remote configuration fetches from [<remote url><project>.git]; the
    ref mirror is a registered repository; and every repository recorded
    before, other than the object mirror, keeps its record. *)
Theorem fetch_repo_registers_mirrors E self rc project branch depth w w' :
  fetch_repo E self rc project branch depth w = (Ok tt, w') ->
  w_cwd w' = w_cwd w /\
  (exists r rm,
     w_repos w' !! resolve (w_cwd w) (objects_mirror self project) = Some r /\
     r_remotes r !! rc_name rc = Some rm /\
     rem_url rm = rc_url rc +:+ project +:+ ".git") /\
  is_Some (w_repos w' !! resolve (w_cwd w) (refs_mirror self (rc_name rc) project)) /\
  (forall k x, k <> resolve (w_cwd w) (objects_mirror self project) ->
     w_repos w !! k = Some x -> w_repos w' !! k = Some x).
Proof.
  intros H. unfold fetch_repo in H. cbv zeta in H.
  stepn H a0 w0 Hm. apply ensure_Ok in Hm as [_ ->].
  stepn H a1 w1 Hm. apply ensure_Ok in Hm as [_ ->].
  stepn H a2 w2 Hm.
  pose proof (open_or_create_bare_repo_kept _ _ _ _ Hm) as (Hc2 & Hk2).
  apply open_or_create_bare_repo_Ok in Hm as ->.
  stepn H a3 w3 Hm.
  apply remote_setup_Ok in Hm as (Hc3 & (r & rm & Hr & Hrm & Hurl) & Hk3).
  stepn H a4 w4 Hm. unfold lift in Hm. injection Hm as _ <-.
  stepn H a5 wa Ht.
  match type of Ht with
  | ?m ?x = _ => assert (Hkc : keeps_cwd m) by frame; assert (Hkr : keeps_repos m) by frame;
                 specialize (Hkc x); specialize (Hkr x); rewrite Ht in Hkc, Hkr; simpl in Hkc, Hkr
  end.
  stepn H a6 wb Hm.
  apply open_or_clone_Ok in Hm as (Hc6 & Hreg & Hk6).
  match type of H with
  | ?m ?x = _ => assert (Hc7 : keeps_cwd m) by frame; assert (Hr7 : keeps_repos m) by frame;
                 specialize (Hc7 x); specialize (Hr7 x); rewrite H in Hc7, Hr7; simpl in Hc7, Hr7
  end.
  rewrite Hc2 in Hc3, Hr, Hk3.
  split_and!.
  - congruence.
  - exists r, rm. split_and!; [|done|done]. rewrite Hr7. apply Hk6. congruence.
  - rewrite Hr7. rewrite Hkc, Hc3 in Hreg. done.
  - intros k x Hk Hx. rewrite Hr7. apply Hk6. rewrite Hkr. apply Hk3; [done|]. by apply Hk2.
Qed.

Lemma fetch_repo_registers_mirrors_witness :
  fetch_repo sample_env sample_depot sample_remote "p" "main" None empty_world =
    (Ok tt, fetched_world) /\
  w_cwd fetched_world = w_cwd empty_world /\
  (exists r rm,
     w_repos fetched_world !! resolve (w_cwd empty_world) (objects_mirror sample_depot "p") = Some r /\
     r_remotes r !! "origin" = Some rm /\
     rem_url rm = "https://host/" +:+ "p" +:+ ".git") /\
  is_Some (w_repos fetched_world !! resolve (w_cwd empty_world) (refs_mirror sample_depot "origin" "p")) /\
  (forall k x, k <> resolve (w_cwd empty_world) (objects_mirror sample_depot "p") ->
     w_repos empty_world !! k = Some x -> w_repos fetched_world !! k = Some x).
Proof.
  assert (H : fetch_repo sample_env sample_depot sample_remote "p" "main" None empty_world =
                (Ok tt, fetched_world)) by (vm_compute; reflexivity).
  split; [exact H|].
  exact (fetch_repo_registers_mirrors sample_env sample_depot sample_remote "p" "main" None
           empty_world fetched_world H).
Defined.

(* ------------------------------------------------------------------ *)
(** ** Remote-tracking refs of a work tree *)

Lemma app_git_nonempty s : s +:+ ".git" <> "".
Proof. destruct s; discriminate. Qed.

Lemma update_remote_refs_Ok self rc project path w w' :
  wf_fs (w_fs w) -> path <> "" -> valid_comp (rc_name rc) = true ->
  let kp := resolve (w_cwd w) path in
  let km := resolve (w_cwd w) (refs_mirror self (rc_name rc) project) ++ ["refs"; "heads"] in
  ~ kp `prefix_of` km -> ~ km `prefix_of` kp ->
  update_remote_refs self rc project path w = (Ok tt, w') ->
  let kg := if bool_decide (is_Some (lookup_node (w_fs w) (kp ++ [".git"])))
            then kp ++ [".git"] else kp in
  let kd := kg ++ ["refs"; "remotes"; rc_name rc] in
  w_cwd w' = w_cwd w /\ w_repos w' = w_repos w /\
  lookup_node (w_fs w) km = Some NDir /\
  (forall n v, w_fs w !! (km ++ [n]) = Some v -> exists c, v = NFile c) /\
  (forall n, w_fs w' !! (kd ++ [n]) = w_fs w !! (km ++ [n])) /\
  (forall n r, r <> [] -> w_fs w' !! (kd ++ [n] ++ r) = None) /\
  (forall q, q <> [] -> q `prefix_of` kd -> w_fs w' !! q = Some NDir) /\
  (forall q, ~ q `prefix_of` kd -> ~ kd `prefix_of` q -> w_fs w' !! q = w_fs w !! q).
Proof.
  intros Hwf Hp Hv kp km Hpm Hmp H kg kd.
  unfold update_remote_refs in H. cbv zeta in H.
  stepn H gp w1 Hm. unfold git_path in Hm. cbv zeta in Hm.
  stepn Hm e w0 He. rewrite fs_exists_eq in He by (apply path_join_nonempty; discriminate).
  injection He as <- <-. unfold ret in Hm. injection Hm as <- <-.
  assert (Hgit : resolve (w_cwd w) (path_join path ".git") = kp ++ [".git"])
    by (apply resolve_join; [done|reflexivity]).
  simpl in H. rewrite Hgit in H. fold kg in H.
  set (gp := if bool_decide (is_Some (lookup_node (w_fs w) (kp ++ [".git"])))
             then path_join path ".git" else path) in H.
  assert (Hgp : gp <> "" /\ resolve (w_cwd w) gp = kg).
  { unfold gp, kg. case_bool_decide; [|done]. split; [|done].
    apply path_join_nonempty. discriminate. }
  destruct Hgp as [Hgp Hkg].
  assert (Hrm : refs_mirror self (rc_name rc) project <> "")
    by (apply path_join_nonempty, app_git_nonempty).
  assert (Hks : resolve (w_cwd w) (path_join (path_join (refs_mirror self (rc_name rc) project) "refs") "heads") = km).
  { rewrite resolve_join; [|apply path_join_nonempty; discriminate|reflexivity].
    rewrite resolve_join by (done || reflexivity). unfold km. by rewrite <- app_assoc. }
  assert (Hkd : resolve (w_cwd w) (path_join (path_join (path_join gp "refs") "remotes") (rc_name rc)) = kd).
  { rewrite resolve_join; [|apply path_join_nonempty; discriminate|done].
    rewrite resolve_join; [|apply path_join_nonempty; discriminate|reflexivity].
    rewrite resolve_join; [|done|reflexivity].
    unfold kd. rewrite Hkg, <- !app_assoc. reflexivity. }
  assert (Hpkd : kp `prefix_of` kd).
  { unfold kd, kg. case_bool_decide.
    - rewrite <- app_assoc. apply prefix_app_r. reflexivity.
    - apply prefix_app_r. reflexivity. }
  assert (Hmd : ~ km `prefix_of` kd).
  { intros Hmd. destruct (prefix_weak_total _ _ _ Hmd Hpkd); tauto. }
  assert (Hdm : ~ kd `prefix_of` km).
  { intros Hdm. apply Hpm. by etrans. }
  apply replace_dir_Ok in H as (Hc & Hr & Hdir & Hfiles & Hq); simpl; rewrite ?Hks, ?Hkd.
  - simpl in Hc, Hr, Hdir, Hfiles, Hq. rewrite Hks in Hdir, Hfiles, Hq. rewrite Hkd in Hq.
    split_and!; [done|done|done|done| | | |].
    + intros n. rewrite Hq. apply replaced_child.
    + intros n r Hr0. rewrite Hq. by apply replaced_deeper.
    + intros q Hq0 Hqd. rewrite Hq. by apply replaced_ancestor.
    + intros q H1 H2. rewrite Hq. by apply replaced_other.
  - apply path_join_nonempty. discriminate.
  - apply path_join_nonempty. destruct rc as [[|??] ??]; done.
  - apply wf_fs_entries. done.
  - apply wf_fs_absent. done.
  - done.
  - done.
Qed.



(* ------------------------------------------------------------------ *)
(** ** Opening or creating a bare repository *)



(* ------------------------------------------------------------------ *)
(** ** Remote-tracking refs of a fresh clone *)

Lemma wf_insert fs k n v :
  wf_fs fs -> lookup_node fs k = Some NDir -> valid_comp n = true ->
  (lookup_node fs (k ++ [n]) = Some NDir -> v = NDir) ->
  wf_fs (<[k ++ [n] := v]> fs).
Proof.
  intros Hwf Hk Hn Hv.
  assert (Hkn : k ++ [n] <> []) by (by destruct k).
  assert (Hlk : forall j, lookup_node fs j = Some NDir ->
                          lookup_node (<[k ++ [n] := v]> fs) j = Some NDir).
  { intros [|x j] Hj; [done|]. simpl in *.
    destruct (decide (x :: j = k ++ [n])) as [He|He].
    - rewrite He, lookup_insert_eq. rewrite He in Hj. f_equal. apply Hv.
      by rewrite lookup_node_cons.
    - rewrite lookup_insert_ne by congruence. done. }
  intros k' n' v' H.
  destruct (decide (k' ++ [n'] = k ++ [n])) as [He|He].
  - apply app_inj_tail in He as [-> ->]. split; [done|]. by apply Hlk.
  - rewrite lookup_insert_ne in H by congruence. apply Hwf in H as [Hn' Hk']. split; [done|].
    by apply Hlk.
Qed.

Lemma mkdirs_wf pre rest fs fs' :
  wf_fs fs -> lookup_node fs pre = Some NDir -> Forall (fun c => valid_comp c = true) rest ->
  mkdirs pre rest fs = Some fs' -> wf_fs fs'.
Proof.
  revert pre fs. induction rest as [|c r IH]; intros pre fs Hwf Hpre Hr H; simpl in H.
  - by injection H as <-.
  - apply Forall_cons in Hr as [Hc Hr].
    assert (Hq : pre ++ [c] <> []) by (by destruct pre).
    destruct (fs !! (pre ++ [c])) as [[contents|]|] eqn:Hf; [discriminate| |].
    + eapply IH; [done| |done|exact H]. by rewrite lookup_node_cons.
    + eapply IH; [| |done|exact H].
      * by apply wf_insert.
      * rewrite lookup_node_cons by done. apply lookup_insert_eq.
Qed.

Lemma mkdirs_all_wf ks fs fs' :
  wf_fs fs -> Forall (Forall (fun c => valid_comp c = true)) ks ->
  mkdirs_all ks fs = Some fs' -> wf_fs fs'.
Proof.
  revert fs. induction ks as [|k ks IH]; intros fs Hwf Hks H; simpl in H; [by injection H as <-|].
  apply Forall_cons in Hks as [Hk Hks].
  destruct (mkdirs [] k fs) as [f1|] eqn:Hm; [|discriminate].
  apply (IH f1); [|done|done]. apply (mkdirs_wf [] k fs f1); [exact Hwf|reflexivity|exact Hk|exact Hm].
Qed.

Lemma mkdirs_all_frame ks fs fs' q :
  mkdirs_all ks fs = Some fs' -> Forall (fun k => ~ in_mk [] k q) ks -> fs' !! q = fs !! q.
Proof.
  revert fs. induction ks as [|k ks IH]; intros fs H Hks; simpl in H; [by injection H as <-|].
  apply Forall_cons in Hks as [Hk Hks].
  destruct (mkdirs [] k fs) as [f1|] eqn:Hm; [|discriminate].
  rewrite (IH f1); [|done|done]. exact (proj2 (mkdirs_Some _ _ _ _ Hm q) Hk).
Qed.

Lemma mkdirs_all_dir ks fs fs' q :
  mkdirs_all ks fs = Some fs' -> fs !! q = Some NDir -> fs' !! q = Some NDir.
Proof. intros H Hq. by destruct (mkdirs_all_only_dirs _ _ _ q H) as [->| ->]. Qed.

Lemma layout_valid gitdir :
  Forall (fun c => valid_comp c = true) gitdir ->
  Forall (Forall (fun c => valid_comp c = true)) (map (fun sub => gitdir ++ sub) git_layout).
Proof.
  intros H. unfold git_layout. simpl.
  repeat apply Forall_cons_2; try apply Forall_nil_2;
    apply Forall_app_2; (done || by repeat constructor).
Qed.

Lemma key_of_log w a p k : key_of (log_action a w) p = Some k -> p <> "" /\ k = resolve (w_cwd w) p.
Proof. unfold key_of. case_bool_decide; [discriminate|]. intros Heq. by injection Heq as <-. Qed.

Lemma repo_init_wf bare p w r w' :
  repo_init bare p w = (Ok r, w') -> wf_fs (w_fs w) ->
  Forall (fun c => valid_comp c = true) (w_cwd w) -> wf_fs (w_fs w').
Proof.
  unfold repo_init. cbv zeta. intros H Hwf Hcwd.
  destruct (key_of _ p) as [k|] eqn:Hk; [|discriminate].
  apply key_of_log in Hk as [_ ->].
  destruct (mkdirs_all _ _) as [fs'|] eqn:Hm; [|discriminate].
  injection H as _ <-. simpl. eapply mkdirs_all_wf; [exact Hwf| |exact Hm].
  apply layout_valid. destruct bare; [by apply resolve_all_valid|].
  apply Forall_app_2; [by apply resolve_all_valid|by repeat constructor].
Qed.

Lemma resolve_alternates cwd dst bare :
  dst <> "" ->
  resolve cwd (alternates_path dst bare) =
    resolve cwd dst ++ (if bare then [] else [".git"]) ++ ["objects"; "info"; "alternates"].
Proof.
  intros Hd. unfold alternates_path. destruct bare;
    repeat rewrite resolve_join by (reflexivity || (apply path_join_nonempty; discriminate) || done);
    by rewrite <- ?app_assoc.
Qed.

Lemma fs_write_wf d n c w u w' :
  fs_write (path_join d n) c w = (Ok u, w') -> d <> "" -> valid_comp n = true ->
  wf_fs (w_fs w) -> wf_fs (w_fs w').
Proof.
  intros H Hd Hn Hwf. unfold fs_write in H. cbv zeta in H.
  rewrite key_of_Some in H by (apply path_join_nonempty, valid_nonempty, Hn). simpl in H.
  rewrite resolve_join in H by done.
  destruct (can_create _ _) eqn:Hc; [|discriminate]. injection H as _ <-. simpl.
  apply can_create_snoc in Hc as [H1 H2]. apply wf_insert; [done|done|done|].
  intros H3. contradiction.
Qed.

Lemma clone_alternates_wf src dst bare w r w' :
  clone_alternates src dst bare w = (Ok r, w') -> wf_fs (w_fs w) ->
  Forall (fun c => valid_comp c = true) (w_cwd w) -> wf_fs (w_fs w').
Proof.
  intros H Hwf Hcwd. unfold clone_alternates in H. cbv zeta in H.
  stepn H a1 w1 Hm. apply context_Ok in Hm.
  assert (Hi : repo_init bare dst w = (Ok a1, w1)) by (destruct bare; exact Hm). clear Hm.
  pose proof (repo_init_wf _ _ _ _ _ Hi Hwf Hcwd) as Hwf1.
  stepn H a2 w2 Hm. apply context_Ok in Hm. unfold ret in H. injection H as _ <-.
  eapply fs_write_wf; [exact Hm| |reflexivity|exact Hwf1].
  apply path_join_nonempty. discriminate.
Qed.

Lemma mkdirs_all_in ks fs fs' k q :
  mkdirs_all ks fs = Some fs' -> In k ks -> in_mk [] k q -> fs' !! q = Some NDir.
Proof.
  revert fs. induction ks as [|k0 ks IH]; intros fs H Hk Hq; [done|]. simpl in H.
  destruct (mkdirs [] k0 fs) as [f1|] eqn:Hm; [|discriminate].
  destruct Hk as [<-|Hk]; [|by apply (IH f1)].
  eapply mkdirs_all_dir; [exact H|]. exact (proj1 (mkdirs_Some _ _ _ _ Hm q) Hq).
Qed.

Lemma repo_init_gitdir p w r w' :
  repo_init false p w = (Ok r, w') -> w_fs w' !! (resolve (w_cwd w) p ++ [".git"]) = Some NDir.
Proof.
  unfold repo_init. cbv zeta.
  destruct (key_of _ p) as [k|] eqn:Hk; [|discriminate].
  apply key_of_log in Hk as [_ ->].
  destruct (mkdirs_all _ _) as [fs'|] eqn:Hm; [|discriminate].
  intros Heq. injection Heq as _ <-. simpl.
  eapply (mkdirs_all_in _ _ _ _ _ Hm); [left; reflexivity|].
  apply in_mk_nil_pre. split; [by destruct (resolve _ _)|].
  exists ["objects"; "info"]. by rewrite <- app_assoc.
Qed.

Lemma repo_init_frame bare p w r w' q :
  repo_init bare p w = (Ok r, w') ->
  ~ q `prefix_of` resolve (w_cwd w) p -> ~ resolve (w_cwd w) p `prefix_of` q ->
  w_fs w' !! q = w_fs w !! q.
Proof.
  unfold repo_init. cbv zeta.
  destruct (key_of _ p) as [k|] eqn:Hk; [|discriminate].
  apply key_of_log in Hk as [_ ->].
  destruct (mkdirs_all _ _) as [fs'|] eqn:Hm; [|discriminate].
  intros Heq H1 H2. injection Heq as _ <-. simpl.
  set (kp := resolve (w_cwd w) p) in *.
  assert (Hne : forall gitdir sub, kp `prefix_of` gitdir -> ~ in_mk [] (gitdir ++ sub) q).
  { intros gitdir sub Hg Hin. apply in_mk_nil_pre in Hin as [_ Hp].
    assert (Hk : kp `prefix_of` gitdir ++ sub) by (by apply prefix_app_r).
    destruct (prefix_weak_total _ _ _ Hp Hk); tauto. }
  apply (mkdirs_all_frame _ _ _ _ Hm). unfold git_layout. simpl.
  repeat apply Forall_cons_2; try apply Forall_nil_2;
    apply Hne; (destruct bare; [done|by apply prefix_app_r]).
Qed.

Lemma clone_alternates_frame src dst bare w r w' q :
  clone_alternates src dst bare w = (Ok r, w') ->
  ~ q `prefix_of` resolve (w_cwd w) dst -> ~ resolve (w_cwd w) dst `prefix_of` q ->
  w_fs w' !! q = w_fs w !! q.
Proof.
  intros H H1 H2. unfold clone_alternates in H. cbv zeta in H.
  stepn H a1 w1 Hm. apply context_Ok in Hm.
  assert (Hi : repo_init bare dst w = (Ok a1, w1)) by (destruct bare; exact Hm). clear Hm.
  pose proof (repo_init_frame _ _ _ _ _ q Hi H1 H2) as Hq.
  apply repo_init_Ok in Hi as (-> & Hd & Hc1 & _).
  stepn H a2 w2 Hm. apply context_Ok in Hm. unfold ret in H. injection H as _ <-.
  change (path_join (path_join (path_join (if bare then dst else path_join dst ".git") "objects") "info")
            "alternates") with (alternates_path dst bare) in Hm.
  apply fs_write_Ok in Hm as (_ & _ & _ & ->).
  rewrite lookup_insert_ne; [by rewrite Hq|].
  rewrite resolve_alternates, Hc1 by done. intros Heq. apply H2. rewrite <- Heq.
  by apply prefix_app_r.
Qed.

Lemma clone_alternates_gitdir src dst w r w' :
  clone_alternates src dst false w = (Ok r, w') ->
  w_fs w' !! (resolve (w_cwd w) dst ++ [".git"]) = Some NDir.
Proof.
  intros H. unfold clone_alternates in H. cbv zeta in H.
  stepn H a1 w1 Hm. apply context_Ok in Hm. unfold init in Hm.
  pose proof (repo_init_gitdir _ _ _ _ Hm) as Hg.
  apply repo_init_Ok in Hm as (-> & Hd & Hc1 & _).
  stepn H a2 w2 Hm. apply context_Ok in Hm. unfold ret in H. injection H as _ <-.
  change (path_join (path_join (path_join (path_join dst ".git") "objects") "info")
            "alternates") with (alternates_path dst false) in Hm.
  apply fs_write_Ok in Hm as (_ & _ & _ & ->).
  rewrite lookup_insert_ne; [done|].
  rewrite resolve_alternates, Hc1 by done. intros Heq.
  apply app_inv_head in Heq. discriminate.
Qed.

Lemma modify_repo_fs repo f w r w' : modify_repo repo f w = (r, w') -> w_fs w' = w_fs w.
Proof. unfold modify_repo. repeat case_match; intros Heq; injection Heq as _ <-; done. Qed.

(** After a successful [clone_repo] into a path [path] that neither
    contains nor lies inside the ref mirror's [refs/heads], in a
    well-formed file tree, with a working directory made of plain path
    components and a remote name that is one path component: the ref
    mirror's [refs/heads] was a directory of files, and the new work
    tree's [path/.git/refs/remotes/<remote>] holds exactly the entries the
    mirror's [refs/heads] had before the call, with nothing deeper. *)
Theorem clone_repo_remote_refs E self rc project branch path w w' :
  wf_fs (w_fs w) -> Forall (fun c => valid_comp c = true) (w_cwd w) ->
  valid_comp (rc_name rc) = true ->
  let kp := resolve (w_cwd w) path in
  let km := resolve (w_cwd w) (refs_mirror self (rc_name rc) project) ++ ["refs"; "heads"] in
  ~ kp `prefix_of` km -> ~ km `prefix_of` kp ->
  clone_repo E self rc project branch path w = (Ok tt, w') ->
  let kd := kp ++ [".git"; "refs"; "remotes"; rc_name rc] in
  lookup_node (w_fs w) km = Some NDir /\
  (forall n v, w_fs w !! (km ++ [n]) = Some v -> exists c, v = NFile c) /\
  (forall n, w_fs w' !! (kd ++ [n]) = w_fs w !! (km ++ [n])) /\
  (forall n r, r <> [] -> w_fs w' !! (kd ++ [n] ++ r) = None).
Proof.
  intros Hwf Hcwd Hv kp km Hpm Hmp H kd.
  unfold clone_repo in H.
  stepn H a1 w1 Hm.
  pose proof (clone_alternates_wf _ _ _ _ _ _ Hm Hwf Hcwd) as Hwf1.
  pose proof (clone_alternates_gitdir _ _ _ _ _ Hm) as Hg1.
  pose proof (fun q => clone_alternates_frame _ _ _ _ _ _ q Hm) as Hfr1.
  apply clone_alternates_Ok in Hm as (-> & Hp & Hc1 & _).
  stepn H a2 w2 Hm. apply context_Ok in Hm.
  pose proof (keeps_cwd_remote_create path (rc_name rc) (refs_mirror self (rc_name rc) project) w1) as Hc2.
  rewrite Hm in Hc2. simpl in Hc2. unfold remote_create in Hm. apply modify_repo_fs in Hm as Hf2.
  simpl in Hf2. clear Hm.
  stepn H a3 w3 Hm. apply context_Ok in Hm.
  pose proof (keeps_cwd_remote_set_pushurl path (rc_name rc) (rc_url rc +:+ project) w2) as Hc3.
  rewrite Hm in Hc3. simpl in Hc3. unfold remote_set_pushurl in Hm. apply modify_repo_fs in Hm as Hf3.
  simpl in Hf3. clear Hm.
  stepn H a4 w4 Hm. destruct a4.
  assert (Hcw3 : w_cwd w3 = w_cwd w) by congruence.
  assert (Hfw3 : w_fs w3 = w_fs w1) by congruence.
  pose proof (update_remote_refs_Ok self rc project path w3 w4) as U.
  rewrite Hcw3, Hfw3 in U. specialize (U Hwf1 Hp Hv Hpm Hmp Hm). cbv zeta in U.
  rewrite bool_decide_eq_true_2 in U
    by (rewrite lookup_node_cons by (by destruct (resolve _ _)); rewrite Hg1; by eexists).
  destruct U as (_ & _ & Hdir & Hfiles & Hent & Hdeep & _ & _). clear Hm.
  stepn H c w5 Hm. unfold parse_revision in Hm. injection Hm as _ <-.
  stepn H a6 w6 Hm. apply context_Ok in Hm. unfold checkout_tree in Hm.
  apply modify_repo_fs in Hm as Hf6. simpl in Hf6. clear Hm.
  stepn H a7 w7 Hm. apply context_Ok in Hm. unfold set_head_detached in Hm.
  apply modify_repo_fs in Hm as Hf7. simpl in Hf7. clear Hm.
  unfold ret in H. injection H as <-.
  assert (Hkm : km <> []) by (intros Hk; apply Hmp; rewrite Hk; apply prefix_nil).
  assert (Hent1 : forall n, w_fs w1 !! (km ++ [n]) = w_fs w !! (km ++ [n])).
  { intros n. apply Hfr1.
    - intros Hq. apply Hmp. etrans; [|exact Hq]. by exists [n].
    - intros Hq. apply prefix_snoc_inv in Hq as [Hq| Hq]; [done|].
      apply Hmp. exists [n]. exact Hq. }
  split_and!.
  - rewrite lookup_node_cons in Hdir |- * by done. rewrite <- Hdir. symmetry. by apply Hfr1.
  - intros n v Hn. apply (Hfiles n v). by rewrite Hent1.
  - intros n. rewrite Hf7, Hf6. simpl. rewrite <- Hent1. specialize (Hent n).
    unfold kd, km. rewrite <- !app_assoc in Hent. rewrite <- !app_assoc. exact Hent.
  - intros n r Hr. rewrite Hf7, Hf6. simpl. specialize (Hdeep n r Hr).
    unfold kd. rewrite <- !app_assoc in Hdeep. rewrite <- !app_assoc. exact Hdeep.
Qed.

Lemma clone_repo_remote_refs_witness :
  let E := sample_env in let self := sample_depot in let rc := sample_remote in
  let project := "p" in let branch := "main" in let path := "/work" in
  let w := fetched_world in
  let w' := snd (clone_repo E self rc project branch path w) in
  wf_fs (w_fs w) /\ Forall (fun c => valid_comp c = true) (w_cwd w) /\
  valid_comp (rc_name rc) = true /\
  let kp := resolve (w_cwd w) path in
  let km := resolve (w_cwd w) (refs_mirror self (rc_name rc) project) ++ ["refs"; "heads"] in
  ~ kp `prefix_of` km /\ ~ km `prefix_of` kp /\
  clone_repo E self rc project branch path w = (Ok tt, w') /\
  let kd := kp ++ [".git"; "refs"; "remotes"; rc_name rc] in
  lookup_node (w_fs w) km = Some NDir /\
  (forall n v, w_fs w !! (km ++ [n]) = Some v -> exists c, v = NFile c) /\
  (forall n, w_fs w' !! (kd ++ [n]) = w_fs w !! (km ++ [n])) /\
  (forall n r, r <> [] -> w_fs w' !! (kd ++ [n] ++ r) = None).
Proof.
  intros E self rc project branch path w w'.
  assert (Hwf : wf_fs (w_fs w)) by (apply wf_fs_b_sound; vm_compute; reflexivity).
  assert (Hcwd : Forall (fun c => valid_comp c = true) (w_cwd w)) by (vm_compute; repeat constructor).
  assert (Hv : valid_comp (rc_name rc) = true) by reflexivity.
  split_and!; [exact Hwf|exact Hcwd|exact Hv|]. intros kp km.
  assert (Hpm : ~ kp `prefix_of` km) by (apply (bool_decide_unpack _); vm_compute; exact I).
  assert (Hmp : ~ km `prefix_of` kp) by (apply (bool_decide_unpack _); vm_compute; exact I).
  assert (H : clone_repo E self rc project branch path w = (Ok tt, w')) by (vm_compute; reflexivity).
  split_and!; [exact Hpm|exact Hmp|exact H|].
  exact (clone_repo_remote_refs E self rc project branch path w w' Hwf Hcwd Hv Hpm Hmp H).
Defined.

(* ------------------------------------------------------------------ *)
(** ** A failing [git fetch] *)

Lemma nt_bind_inv {A B} (m : M A) (k : A -> M B) w r w' :
  no_transport m -> bind m k w = (r, w') ->
  (exists e, r = Err e /\
     exists l, w_log w' = w_log w ++ l /\ Forall (fun a => transport_action a = false) l) \/
  (exists a w1, k a w1 = (r, w') /\
     exists l, w_log w1 = w_log w ++ l /\ Forall (fun a => transport_action a = false) l).
Proof.
  unfold bind. intros Hm. pose proof (Hm w) as Hw.
  destruct (m w) as [[a|e] w1]; simpl in Hw; intros H.
  - right. eauto.
  - left. injection H as <- <-. eauto.
Qed.

(** The [git fetch] branch of [fetch_repo] when [git] never exits
    successfully with these arguments. *)
Lemma git_fetch_block_fails E args w0 :
  (forall w1 o fs, env_git E w1 args = (Ok o, fs) -> out_success o = false) ->
  exists e fs,
    (git_output_ <- context "failed to spawn git fetch" (git_output E args) ;;
     if out_success git_output_ then ret tt
     else throw (ErrMsg ("git fetch failed: " +:+ out_stderr git_output_))) w0 =
      (Err e, set_fs fs (log_action (ASpawn "git" args) w0)) /\
    ((exists o, out_success o = false /\ e = ErrMsg ("git fetch failed: " +:+ out_stderr o)) \/
     (exists e0, e = Context "failed to spawn git fetch" e0)).
Proof.
  intros Hgit. unfold bind, context, git_output. cbv zeta.
  destruct (env_git E (log_action (ASpawn "git" args) w0) args) as [[o|e0] fs] eqn:Hg.
  - apply Hgit in Hg. rewrite Hg. unfold throw. eexists _, fs. split; [reflexivity|].
    left. eauto.
  - eexists _, fs. split; [reflexivity|]. right. eauto.
Qed.

Ltac nt_acc Hacc Hs :=
  let l1 := fresh "l" in let E1 := fresh "E" in let F1 := fresh "F" in
  let l2 := fresh "l" in let E2 := fresh "E" in let F2 := fresh "F" in
  destruct Hacc as (l1 & E1 & F1); destruct Hs as (l2 & E2 & F2);
  pose proof (nt_trans _ _ _ _ _ E1 F1 E2 F2) as Hacc; clear E1 F1 E2 F2.

Ltac nt_fail Hacc Hs :=
  nt_acc Hacc Hs;
  let l := fresh "l" in let E := fresh "E" in let F := fresh "F" in
  destruct Hacc as (l & E & F); eexists _, l; split_and!; [reflexivity|exact E|left; exact F].


